(** * MIOpen [Solution]: execution through the invoker cache, and serialization

    Shallow embedding of [src/src/solution.cpp]: [Solution::Run], the two
    [Solution::RunImpl] overloads, [Solution::Transpose] and the
    [to_json]/[from_json] pairs, together with the properties of the
    specification that concern them.

    The translation unit only sees declarations of its collaborators
    (the execution handle, the solver registry, the problem classes, the
    numerics checker, the JSON library).  Opaque collaborators are
    parameters of the development (classes [Externals], [ProblemJson] and
    [Collaborators]); the few whose behaviour the properties depend on are
    modelled from the specification and marked as such. *)

From stdpp Require Import base option list strings gmap pretty.

Set Default Proof Using "Type".
#[local] Set Warnings "-register-all".

(** ** Exceptions and outcomes *)

(** The status codes used by this translation unit (enumerators of
    [miopenStatus_t]). *)
Inductive miopenStatus_t :=
| miopenStatusInvalidValue
| miopenStatusBadParm
| miopenStatusNotImplemented
| miopenStatusVersionMismatch.

#[global] Instance miopenStatus_t_eq_dec : EqDecision miopenStatus_t.
Proof. solve_decision. Defined.

(** [miopen::Exception]: a status and a message. *)
Record Exception := MkException { status : miopenStatus_t; message : string }.

#[global] Instance Exception_eq_dec : EqDecision Exception.
Proof. solve_decision. Defined.

(** Exceptions that do not originate from a [MIOPEN_THROW] of this file:
    a [miopen::Exception] raised inside a collaborator, an exception of the
    JSON library ([nlohmann::detail::exception], with its numeric id), or
    [boost::bad_get]. *)
Inductive foreign :=
| collaborator_exception (e : Exception)
| json_exception (id : N)
| boost_bad_get.

(** How a call ends: it returns, a [MIOPEN_THROW] of this file (or of a
    callee modelled from the specification) fires, an exception of a
    collaborator propagates unchanged, or the behaviour is undefined
    (dereferencing an empty [std::optional], indexing a vector out of
    range). *)
Inductive outcome (A : Type) :=
| Returned (a : A)
| Thrown (e : Exception)
| Propagated (e : foreign)
| Undefined.
Arguments Returned {A} a.
Arguments Thrown {A} e.
Arguments Propagated {A} e.
Arguments Undefined {A}.

(** [MIOPEN_THROW(status)] and [MIOPEN_THROW(status, message)]. *)
Definition MIOPEN_THROW {A} (s : miopenStatus_t) (m : string) : outcome A :=
  Thrown (MkException s m).

(** Result of a collaborator ([inl]: the exception it raised). *)
Definition of_collaborator {A} (r : foreign + A) : outcome A :=
  match r with
  | inl e => Propagated e
  | inr a => Returned a
  end.

(** [*opt] on a [std::optional]. *)
Definition deref {A} (o : option A) : outcome A :=
  match o with
  | Some a => Returned a
  | None => Undefined
  end.

(** Pure computations that may fail. *)
Definition obind {A B} (m : outcome A) (k : A → outcome B) : outcome B :=
  match m with
  | Returned a => k a
  | Thrown e => Thrown e
  | Propagated e => Propagated e
  | Undefined => Undefined
  end.

(** Computations that may fail and that update a state of type [St]
    (the handle for [Run], the destination object for [from_json]).  The
    state reached when an exception leaves is kept: what was done before
    the throw stays done. *)
Definition M (St A : Type) : Type := St → St * outcome A.

Definition ret {St A} (a : A) : M St A := λ σ, (σ, Returned a).
Definition bind {St A B} (m : M St A) (k : A → M St B) : M St B :=
  λ σ, match m σ with
       | (σ', Returned a) => k a σ'
       | (σ', Thrown e) => (σ', Thrown e)
       | (σ', Propagated e) => (σ', Propagated e)
       | (σ', Undefined) => (σ', Undefined)
       end.
Definition lift {St A} (r : outcome A) : M St A := λ σ, (σ, r).
Definition modify {St} (f : St → St) : M St unit := λ σ, (f σ, Returned tt).
Definition when {St} (b : bool) (m : M St unit) : M St unit :=
  if b then m else ret tt.

Declare Scope cpp_scope.
Delimit Scope cpp_scope with cpp.
Notation "'let*' x ':=' m 'in' k" := (bind m (λ x, k))
  (at level 10, x name, m at level 100, k at level 200) : cpp_scope.
Notation "'let*' ' x ':=' m 'in' k" := (bind m (λ x, k))
  (at level 10, x strict pattern, m at level 100, k at level 200) : cpp_scope.
Notation "m ';;' k" := (bind m (λ _, k))
  (at level 100, k at level 200, right associativity) : cpp_scope.
Notation "'try*' x ':=' m 'in' k" := (obind m (λ x, k))
  (at level 10, x name, m at level 100, k at level 200) : cpp_scope.
Notation "'try*' ' x ':=' m 'in' k" := (obind m (λ x, k))
  (at level 10, x strict pattern, m at level 100, k at level 200) : cpp_scope.
Open Scope cpp_scope.

(** ** Tensors, run inputs and problems *)

(** [Data_t] / [ConstData_t]: a device pointer. *)
Definition Data_t := N.

(** Modelled from the spec: [TensorDescriptor] is declared outside this
    file; of its accessors the file reads [GetLengths] and compares whole
    descriptors with [!=].  Lengths, strides and element type are kept. *)
Record TensorDescriptor := MkTensorDescriptor {
  GetLengths : list N;
  GetStrides : list N;
  GetType : N;
}.

#[global] Instance TensorDescriptor_eq_dec : EqDecision TensorDescriptor.
Proof. solve_decision. Defined.

(** [struct RunInput { std::optional<TensorDescriptor> descriptor; Data_t buffer; }] *)
Record RunInput := MkRunInput {
  descriptor : option TensorDescriptor;
  buffer : Data_t;
}.

#[global] Instance RunInput_eq_dec : EqDecision RunInput.
Proof. solve_decision. Defined.

(** Modelled from the spec: [miopenTensorArgumentId_t] is an enumeration
    declared in the public header; the file uses its values only as
    mapping keys, so only the distinctness of the three convolution ids
    matters. *)
Definition miopenTensorArgumentId_t := N.
Definition miopenTensorConvolutionX : miopenTensorArgumentId_t := 1%N.
Definition miopenTensorConvolutionW : miopenTensorArgumentId_t := 2%N.
Definition miopenTensorConvolutionY : miopenTensorArgumentId_t := 3%N.

(** Modelled from the spec: [miopenProblemDirection_t] is a C enumeration
    with the three enumerators below; as an integer it can hold other
    values, which the [default:] branch of [RunImpl] handles. *)
Definition miopenProblemDirection_t := Z.
Definition miopenProblemDirectionForward : miopenProblemDirection_t := 0%Z.
Definition miopenProblemDirectionBackward : miopenProblemDirection_t := 1%Z.
Definition miopenProblemDirectionBackwardWeights : miopenProblemDirection_t := 2%Z.

(** Modelled from the spec: [miopenConvolutionMode_t]; the file only
    tests for [miopenTranspose]. *)
Inductive miopenConvolutionMode_t :=
| miopenConvolution
| miopenTranspose
| miopenGroupConv
| miopenDepthwise.

#[global] Instance miopenConvolutionMode_t_eq_dec : EqDecision miopenConvolutionMode_t.
Proof. solve_decision. Defined.

(** [ConvolutionDescriptor::attribute.gfx90aFp16alt] with its three
    per-direction getters. *)
Record Gfx90aFp16alt := MkGfx90aFp16alt {
  GetFwd : bool;
  GetBwd : bool;
  GetWrW : bool;
}.

Record ConvolutionAttribute := MkConvolutionAttribute {
  gfx90aFp16alt : Gfx90aFp16alt;
}.

(** Modelled from the spec: of [ConvolutionDescriptor] the file reads
    [mode] and [attribute]; the remaining geometry (pads, strides,
    dilations, group count) is kept as one opaque list. *)
Record ConvolutionDescriptor := MkConvolutionDescriptor {
  mode : miopenConvolutionMode_t;
  attribute : ConvolutionAttribute;
  geometry : list Z;
}.

#[global] Instance Gfx90aFp16alt_eq_dec : EqDecision Gfx90aFp16alt.
Proof. solve_decision. Defined.
#[global] Instance ConvolutionAttribute_eq_dec : EqDecision ConvolutionAttribute.
Proof. solve_decision. Defined.
#[global] Instance ConvolutionDescriptor_eq_dec : EqDecision ConvolutionDescriptor.
Proof. solve_decision. Defined.

(** ** Collaborators *)

(** Types and pure operations this file uses but does not define.
    Nothing is assumed about them beyond their signatures. *)
Class Externals := {
  (** C++ [float] and [double], the conversions between them, and the
      casts the JSON library applies when a number of another kind is
      read. *)
  float : Type;
  double : Type;
  double_of_float : float → double;
  float_of_double : double → float;
  float_of_Z : Z → float;
  ulong_of_double : double → N;
  (** [solver::Id]: built from its display string, printed by [ToString]. *)
  Id : Type;
  Id_of_string : string → Id;
  ToString : Id → string;
  (** The two operator descriptors that cannot be run on their own. *)
  ActivationDescriptor : Type;
  BiasDescriptor : Type;
  (** [conv::ProblemDescription] and what the file asks of it. *)
  ProblemDescription : Type;
  GetConv : ProblemDescription → ConvolutionDescriptor;
  MakeNetworkConfig : ProblemDescription → string;
  (** [FusionPlanDescriptor], through [FusionDescription{&plan}]. *)
  FusionPlanDescriptor : Type;
  FusionMakeNetworkConfig : FusionPlanDescriptor → string;
  (** [ConvSolution] (an invoker factory and construction parameters) and
      the prepared [Invoker]. *)
  ConvSolution : Type;
  Invoker : Type;
  (** [miopen::CheckNumericsEnabled()]. *)
  CheckNumericsEnabled : bool;
}.

Section Solution.
Context `{Externals}.

(** Modelled from the spec: the operator descriptor of a single-operator
    problem, "one of Convolution | Activation | Bias". *)
Inductive OperatorDescriptor :=
| OpConvolution (op_desc : ConvolutionDescriptor)
| OpActivation (op_desc : ActivationDescriptor)
| OpBias (op_desc : BiasDescriptor).

(** Modelled from the spec: a single-operator [Problem] "holds an operator
    descriptor, a direction, and a mapping from semantic tensor-argument id
    to tensor descriptor (not all ids need be populated)". *)
Record Problem := MkProblem {
  GetOperatorDescriptor : OperatorDescriptor;
  GetDirection : miopenProblemDirection_t;
  tensor_descriptors : gmap miopenTensorArgumentId_t TensorDescriptor;
}.

(** Modelled from the spec: a [FusedProblem] "holds an ordered sequence of
    operator sub-problems plus their arg-binding topology"; the topology
    is the sequence of arguments (id and the descriptor fixed at
    construction) for which [MakeInvokeParams] requests a buffer. *)
Record FusedProblem := MkFusedProblem {
  problems : list Problem;
  bindings : list (miopenTensorArgumentId_t * TensorDescriptor);
}.

(** [ProblemContainer::item], a [boost::variant<Problem, FusedProblem>]. *)
Inductive ProblemContainer :=
| ItemProblem (problem_ : Problem)
| ItemFusedProblem (problem_ : FusedProblem).

(** Modelled from the spec: [Problem::GetTensorDescriptorChecked], "fails
    with MissingArgument if the Problem has none". *)
Definition GetTensorDescriptorChecked (p : Problem)
    (name : miopenTensorArgumentId_t) (name_str : string) : outcome TensorDescriptor :=
  match tensor_descriptors p !! name with
  | Some d => Returned d
  | None => MIOPEN_THROW miopenStatusInvalidValue
              ("Problem is missing " +:+ name_str +:+ " tensor descriptor.")
  end.

(** Modelled from the spec: [Problem::RegisterTensorDescriptor] makes the
    given descriptor the one registered under the id. *)
Definition RegisterTensorDescriptor (p : Problem)
    (name : miopenTensorArgumentId_t) (d : TensorDescriptor) : Problem :=
  MkProblem (GetOperatorDescriptor p) (GetDirection p) (<[name := d]> (tensor_descriptors p)).

(** ** The Solution object *)

Record Solution := MkSolution {
  time : float;
  workspace_required : N;
  solver : Id;
  problem : ProblemContainer;
  perf_cfg : option string;
}.

(** [solver::Id Solution::GetSolver() const] *)
Definition GetSolver (S : Solution) : Id := solver S.

(** ** JSON values *)

(** [nlohmann::json]: the value kinds of the library; an object is a map
    from keys to values. *)
Inductive json :=
| Jnull
| Jboolean (b : bool)
| Jnumber_integer (z : Z)
| Jnumber_unsigned (n : N)
| Jnumber_float (d : double)
| Jstring (s : string)
| Jarray (l : list json)
| Jobject (m : gmap string json).

(** [json.at(key)]: [type_error] 304 on a non-object, [out_of_range] 403
    on a missing key. *)
Definition json_at (j : json) (key : string) : outcome json :=
  match j with
  | Jobject m =>
      match m !! key with
      | Some v => Returned v
      | None => Propagated (json_exception 403)
      end
  | _ => Propagated (json_exception 304)
  end.

(** [json.find(key)], [None] standing for [json.end()]. *)
Definition json_find (j : json) (key : string) : option json :=
  match j with
  | Jobject m => m !! key
  | _ => None
  end.

(** [get_to] on a 64-bit unsigned target ([std::size_t], the numbers of
    the header): the target is the library's own unsigned number type, for
    which any number kind is cast and anything else, a boolean included,
    is [type_error] 302. *)
Definition get_ulong (j : json) : outcome N :=
  match j with
  | Jnumber_unsigned n => Returned n
  | Jnumber_integer z => Returned (Z.to_N (z mod 2 ^ 64))
  | Jnumber_float d => Returned (ulong_of_double d)
  | _ => Propagated (json_exception 302)
  end.

(** [get_to(float&)]: [float] is not one of the library's number types,
    so the conversion for arithmetic targets applies, which also casts a
    boolean. *)
Definition get_float (j : json) : outcome float :=
  match j with
  | Jnumber_unsigned n => Returned (float_of_Z (Z.of_N n))
  | Jnumber_integer z => Returned (float_of_Z z)
  | Jnumber_float d => Returned (float_of_double d)
  | Jboolean b => Returned (float_of_Z (if b then 1 else 0))
  | _ => Propagated (json_exception 302)
  end.

(** [get<std::string>()]. *)
Definition get_string (j : json) : outcome string :=
  match j with
  | Jstring s => Returned s
  | _ => Propagated (json_exception 302)
  end.

(** [to_json]/[from_json] of [ProblemContainer], defined with the problem
    classes.  [from_json] writes into a destination and may raise. *)
Class ProblemJson := {
  problem_to_json : ProblemContainer → json;
  problem_from_json : json → M ProblemContainer unit;
}.
Context `{ProblemJson}.

(** ** Serialization *)

(** [Solution::SerializationMetadata] *)
Record SerializationMetadata := MkSerializationMetadata {
  validation_number : N;
  version : N;
}.

(** [SerializationMetadata::Current()] is a [constexpr] of the class
    declaration; its two constants are parameters here. *)
Variable Current : SerializationMetadata.

(** [to_json(json&, const SerializationMetadata&)] *)
Definition to_json_metadata (metadata : SerializationMetadata) : json :=
  Jobject (list_to_map [
    ("validation", Jnumber_unsigned (validation_number metadata));
    ("version", Jnumber_unsigned (version metadata))
  ]).

(** [from_json(const json&, SerializationMetadata&)], through
    [get<SerializationMetadata>()], which returns the filled value. *)
Definition from_json_metadata (j : json) : outcome SerializationMetadata :=
  try* validation := (try* v := json_at j "validation" in get_ulong v) in
  try* version := (try* v := json_at j "version" in get_ulong v) in
  Returned (MkSerializationMetadata validation version).

(** [to_json(json&, const Solution&)]: the object of the five fixed
    keys, to which ["perf_cfg"] is added when the solution has one. *)
Definition to_json (solution : Solution) : json :=
  let fields : gmap string json := list_to_map [
    ("header", to_json_metadata Current);
    ("time", Jnumber_float (double_of_float (time solution)));
    ("workspace", Jnumber_unsigned (workspace_required solution));
    ("solver", Jstring (ToString (solver solution)));
    ("problem", problem_to_json (problem solution))
  ] in
  Jobject (match perf_cfg solution with
           | Some cfg => <["perf_cfg" := Jstring cfg]> fields
           | None => fields
           end).

(** Setters for the fields [from_json] assigns, in the destination. *)
Definition set_time (t : float) (s : Solution) : Solution :=
  MkSolution t (workspace_required s) (solver s) (problem s) (perf_cfg s).
Definition set_workspace_required (w : N) (s : Solution) : Solution :=
  MkSolution (time s) w (solver s) (problem s) (perf_cfg s).
Definition set_solver (i : Id) (s : Solution) : Solution :=
  MkSolution (time s) (workspace_required s) i (problem s) (perf_cfg s).
Definition set_problem (p : ProblemContainer) (s : Solution) : Solution :=
  MkSolution (time s) (workspace_required s) (solver s) p (perf_cfg s).
Definition set_perf_cfg (c : option string) (s : Solution) : Solution :=
  MkSolution (time s) (workspace_required s) (solver s) (problem s) c.

(** [json.at("problem").get_to(solution.problem)]: the problem's
    [from_json] runs on the [problem] member of the destination. *)
Definition get_to_problem (j : json) : M Solution unit :=
  λ solution,
    let '(p, r) := problem_from_json j (problem solution) in
    (set_problem p solution, r).

(** The header block of [from_json(const json&, Solution&)]. *)
Definition check_header (j : json) : outcome unit :=
  try* header := (try* h := json_at j "header" in from_json_metadata h) in
  let check_header := Current in
  if decide (validation_number header ≠ validation_number check_header) then
    MIOPEN_THROW miopenStatusInvalidValue
      "Invalid buffer has been passed to the solution deserialization."
  else if decide (version header ≠ version check_header) then
    MIOPEN_THROW miopenStatusVersionMismatch
      "Data from wrong version has been passed to the solution deserialization."
  else Returned tt.

(** The field reads of [from_json(const json&, Solution&)], after the
    header block. *)
Definition read_fields (j : json) : M Solution unit :=
  let* t := lift (try* v := json_at j "time" in get_float v) in
  modify (set_time t);;
  let* w := lift (try* v := json_at j "workspace" in get_ulong v) in
  modify (set_workspace_required w);;
  let* s := lift (try* v := json_at j "solver" in get_string v) in
  modify (set_solver (Id_of_string s));;
  let* p := lift (json_at j "problem") in
  get_to_problem p;;
  let perf_cfg_json := json_find j "perf_cfg" in
  let* c := lift (match perf_cfg_json with
                  | Some v => try* s := get_string v in Returned (Some s)
                  | None => Returned None
                  end) in
  modify (set_perf_cfg c).

(** [from_json(const json&, Solution&)] *)
Definition from_json (j : json) : M Solution unit :=
  lift (check_header j);;
  read_fields j.

(** The two exceptions of the header block: corrupt data and version
    mismatch. *)
Definition CorruptData : Exception :=
  MkException miopenStatusInvalidValue
    "Invalid buffer has been passed to the solution deserialization.".
Definition VersionMismatch : Exception :=
  MkException miopenStatusVersionMismatch
    "Data from wrong version has been passed to the solution deserialization.".

(** The validation number a record carries, whether or not the rest of
    its header can be decoded. *)
Definition record_validation_number (j : json) : outcome N :=
  try* h := json_at j "header" in
  try* v := json_at h "validation" in get_ulong v.

(** ** Invocation parameters *)

(** [ConvDataTensors] and [ConvWrwTensors], aggregates initialised
    positionally in [RunImpl]. *)
Record ConvDataTensors := MkConvDataTensors {
  inDesc : TensorDescriptor; in_ : Data_t;
  wDesc : TensorDescriptor; w : Data_t;
  outDesc : TensorDescriptor; out : Data_t;
}.

Record ConvWrwTensors := MkConvWrwTensors {
  dyDesc : TensorDescriptor; dy : Data_t;
  xDesc : TensorDescriptor; x : Data_t;
  dwDesc : TensorDescriptor; dw : Data_t;
}.

(** [AnyInvokeParams], holding one of the parameter structures built in
    this file.  Modelled from the spec: the fused parameters bind, in
    order, the buffer found for each argument of the fused plan. *)
Inductive AnyInvokeParams :=
| DataInvokeParams (tensors : ConvDataTensors)
    (workSpace : Data_t) (workSpaceSize : N) (fp16alt : bool)
| WrWInvokeParams (tensors : ConvWrwTensors)
    (workSpace : Data_t) (workSpaceSize : N) (fp16alt : bool)
| FusionInvokeParams (buffers : list Data_t).

(** ** The execution handle *)

(** Calls made on collaborators through the handle, in order. *)
Inductive Call :=
| call_checkNumericsInput (d : TensorDescriptor) (b : Data_t)
| call_checkNumericsOutput (d : TensorDescriptor) (b : Data_t)
| call_GetInvoker (net_cfg : string) (solver_id : Id)
| call_FindSolution (solver_id : Id) (conv_problem : ProblemDescription)
    (invoke_ctx : AnyInvokeParams) (perf_cfg_ : string)
| call_MakeFusedSolution (solver_id : Id) (perf_cfg_ : option string)
    (plan : FusionPlanDescriptor) (invoke_params : AnyInvokeParams)
| call_PrepareInvoker (solution : ConvSolution)
| call_RegisterInvoker (invoker : Invoker) (net_cfg : string) (solver_name : string)
| call_invoke (invoker : Invoker) (params : AnyInvokeParams).

(** Modelled from the spec: the handle "exclusively owns the cache", "a
    single mapping from (signature, solver-identity) to invoker".  The
    handle also records the calls made through it, which stands for the
    device-side state this file cannot see. *)
Record Handle := MkHandle {
  invokers : gmap (string * string) Invoker;
  calls : list Call;
}.

Definition record (c : Call) (handle : Handle) : Handle :=
  MkHandle (invokers handle) (calls handle ++ [c]).

(** Modelled from the spec: [Handle::GetInvoker(signature, solverIdentity)
    -> optional<Invoker>], "an invoker already exists for (signature,
    solver-identity)". *)
Definition GetInvoker (net_cfg : string) (solver_id : Id) : M Handle (option Invoker) :=
  λ handle,
    (record (call_GetInvoker net_cfg solver_id) handle,
     Returned (invokers handle !! (net_cfg, ToString solver_id))).

(** Modelled from the spec: [Handle::RegisterInvoker(invoker, signature,
    solverDisplayName)], "no entry is ever mutated in place, only inserted
    once per key". *)
Definition RegisterInvoker (invoker : Invoker) (net_cfg : string) (solver_name : string)
    : M Handle unit :=
  λ handle,
    let cache :=
      match invokers handle !! (net_cfg, solver_name) with
      | Some _ => invokers handle
      | None => <[(net_cfg, solver_name) := invoker]> (invokers handle)
      end in
    (MkHandle cache (calls handle ++ [call_RegisterInvoker invoker net_cfg solver_name]),
     Returned tt).

(** Operations of the collaborators.  The pure ones depend on their
    arguments; those that go through the handle may also depend on what
    happened on it before.  An operation that raises returns [inl] of
    what it raised.  None of them changes the invoker cache: in this file
    only [RegisterInvoker] does. *)
Class Collaborators := {
  MakeTransposed : Problem → foreign + Problem;
  AsConvolution : Problem → foreign + ProblemDescription;
  ValidateGroupCount :
    TensorDescriptor → TensorDescriptor → ConvolutionDescriptor → foreign + unit;
  AsFusionPlan : FusedProblem → foreign + FusionPlanDescriptor;
  checkNumericsInput_ : Handle → TensorDescriptor → Data_t → foreign + unit;
  checkNumericsOutput_ : Handle → TensorDescriptor → Data_t → foreign + unit;
  FindSolution_ :
    Handle → Id → ProblemDescription → AnyInvokeParams → string → foreign + ConvSolution;
  MakeFusedSolution_ :
    Handle → Id → option string → FusionPlanDescriptor → AnyInvokeParams →
    foreign + ConvSolution;
  PrepareInvoker_ : Handle → ConvSolution → foreign + Invoker;
  invoke_ : Handle → Invoker → AnyInvokeParams → foreign + unit;
}.
Context `{Collaborators}.

(** A call on a collaborator: it is recorded, then it returns or raises. *)
Definition call {A} (c : Call) (f : Handle → foreign + A) : M Handle A :=
  λ handle, (record c handle, of_collaborator (f handle)).

Definition checkNumericsInput (d : TensorDescriptor) (b : Data_t) : M Handle unit :=
  call (call_checkNumericsInput d b) (λ handle, checkNumericsInput_ handle d b).
Definition checkNumericsOutput (d : TensorDescriptor) (b : Data_t) : M Handle unit :=
  call (call_checkNumericsOutput d b) (λ handle, checkNumericsOutput_ handle d b).
Definition FindSolution (solver_id : Id) (conv_problem : ProblemDescription)
    (invoke_ctx : AnyInvokeParams) (cfg : string) : M Handle ConvSolution :=
  call (call_FindSolution solver_id conv_problem invoke_ctx cfg)
       (λ handle, FindSolution_ handle solver_id conv_problem invoke_ctx cfg).
Definition MakeFusedSolution (solver_id : Id) (cfg : option string)
    (plan : FusionPlanDescriptor) (invoke_params : AnyInvokeParams) : M Handle ConvSolution :=
  call (call_MakeFusedSolution solver_id cfg plan invoke_params)
       (λ handle, MakeFusedSolution_ handle solver_id cfg plan invoke_params).
Definition PrepareInvoker (solution : ConvSolution) : M Handle Invoker :=
  call (call_PrepareInvoker solution) (λ handle, PrepareInvoker_ handle solution).
Definition invoke (invoker : Invoker) (params : AnyInvokeParams) : M Handle unit :=
  call (call_invoke invoker params) (λ handle, invoke_ handle invoker params).

(** ** Running a single-operator convolution *)

(** [v[i]] on a [std::vector]. *)
Definition index {A} (v : list A) (i : nat) : outcome A :=
  match v !! i with
  | Some a => Returned a
  | None => Undefined
  end.

(** The lambda [get_input_checked] of [RunImpl]. *)
Definition get_input_checked (problem_casted : Problem)
    (inputs : gmap miopenTensorArgumentId_t RunInput)
    (name : miopenTensorArgumentId_t) (name_str : string) : outcome RunInput :=
  match inputs !! name with
  | None =>
      MIOPEN_THROW miopenStatusInvalidValue
        ("Problem is missing " +:+ name_str +:+ " tensor descriptor.")
  | Some found =>
      let ret := found in
      match descriptor ret with
      | Some _ => Returned ret
      | None =>
          try* d := GetTensorDescriptorChecked problem_casted name name_str in
          Returned (MkRunInput (Some d) (buffer ret))
      end
  end.

(** [Solution::Transpose]; the two run inputs it updates through pointers
    are returned with the problem. *)
Definition Transpose (problem_ : Problem) (x w y : RunInput)
    : outcome (Problem * RunInput * RunInput) :=
  try* transposed := of_collaborator (MakeTransposed problem_) in
  let '(x, y) := (y, x) in
  let transposed :=
    match descriptor x with
    | Some d => RegisterTensorDescriptor transposed miopenTensorConvolutionX d
    | None => transposed
    end in
  let transposed :=
    match descriptor w with
    | Some d => RegisterTensorDescriptor transposed miopenTensorConvolutionW d
    | None => transposed
    end in
  let transposed :=
    match descriptor y with
    | Some d => RegisterTensorDescriptor transposed miopenTensorConvolutionY d
    | None => transposed
    end in
  Returned (transposed, x, y).

(** The backward-direction shape test of [RunImpl]. *)
Definition check_backward_shape (problem_ : Problem) (w y : RunInput) : outcome unit :=
  if decide (GetDirection problem_ = miopenProblemDirectionBackward) then
    try* y_desc := deref (descriptor y) in
    try* y_c := index (GetLengths y_desc) 1 in
    try* w_desc := deref (descriptor w) in
    try* w_k := index (GetLengths w_desc) 0 in
    if decide (y_c ≠ w_k) then MIOPEN_THROW miopenStatusBadParm "" else Returned tt
  else Returned tt.

(** [checkNumericsInput(handle, *t.descriptor, t.buffer)] and its output
    counterpart. *)
Definition check_input (t : RunInput) : M Handle unit :=
  let* d := lift (deref (descriptor t)) in checkNumericsInput d (buffer t).
Definition check_output (t : RunInput) : M Handle unit :=
  let* d := lift (deref (descriptor t)) in checkNumericsOutput d (buffer t).

(** The numerics block before the invocation. *)
Definition check_numerics_inputs (problem_ : Problem) (x w y : RunInput) : M Handle unit :=
  when CheckNumericsEnabled (
    when (bool_decide (GetDirection problem_ ≠ miopenProblemDirectionBackward))
      (check_input x);;
    when (bool_decide (GetDirection problem_ ≠ miopenProblemDirectionBackwardWeights))
      (check_input w);;
    when (bool_decide (GetDirection problem_ ≠ miopenProblemDirectionForward))
      (check_input y)).

(** The lambda [checkNumericsOutput_] of [RunImpl]. *)
Definition check_numerics_output (problem_ : Problem) (x w y : RunInput) : M Handle unit :=
  when CheckNumericsEnabled (
    when (bool_decide (GetDirection problem_ = miopenProblemDirectionBackward))
      (check_output x);;
    when (bool_decide (GetDirection problem_ = miopenProblemDirectionBackwardWeights))
      (check_output w);;
    when (bool_decide (GetDirection problem_ = miopenProblemDirectionForward))
      (check_output y)).

(** The lambda [invoke_ctx] of [RunImpl]: the [switch] on the direction. *)
Definition make_invoke_ctx (problem_ : Problem) (x w y : RunInput)
    (workspace : Data_t) (workspace_size : N) (conv_problem : ProblemDescription)
    : outcome AnyInvokeParams :=
  let alt := gfx90aFp16alt (attribute (GetConv conv_problem)) in
  if decide (GetDirection problem_ = miopenProblemDirectionForward) then
    try* xd := deref (descriptor x) in
    try* wd := deref (descriptor w) in
    try* yd := deref (descriptor y) in
    Returned (DataInvokeParams
                (MkConvDataTensors xd (buffer x) wd (buffer w) yd (buffer y))
                workspace workspace_size (GetFwd alt))
  else if decide (GetDirection problem_ = miopenProblemDirectionBackward) then
    try* yd := deref (descriptor y) in
    try* wd := deref (descriptor w) in
    try* xd := deref (descriptor x) in
    Returned (DataInvokeParams
                (MkConvDataTensors yd (buffer y) wd (buffer w) xd (buffer x))
                workspace workspace_size (GetBwd alt))
  else if decide (GetDirection problem_ = miopenProblemDirectionBackwardWeights) then
    try* yd := deref (descriptor y) in
    try* xd := deref (descriptor x) in
    try* wd := deref (descriptor w) in
    Returned (WrWInvokeParams
                (MkConvWrwTensors yd (buffer y) xd (buffer x) wd (buffer w))
                workspace workspace_size (GetWrW alt))
  else MIOPEN_THROW miopenStatusNotImplemented "".

(** Lines 135-153 of [RunImpl]: the three inputs are resolved in the order
    X, W, Y, then the problem is transposed if the mode asks for it. *)
Definition resolve_arguments (problem_casted : Problem)
    (inputs : gmap miopenTensorArgumentId_t RunInput) (conv_desc : ConvolutionDescriptor)
    : outcome (Problem * RunInput * RunInput * RunInput) :=
  try* x := get_input_checked problem_casted inputs
              miopenTensorConvolutionX "miopenTensorConvolutionX" in
  try* w := get_input_checked problem_casted inputs
              miopenTensorConvolutionW "miopenTensorConvolutionW" in
  try* y := get_input_checked problem_casted inputs
              miopenTensorConvolutionY "miopenTensorConvolutionY" in
  if decide (mode conv_desc = miopenTranspose) then
    try* '(problem_, x, y) := Transpose problem_casted x w y in
    Returned (problem_, x, w, y)
  else Returned (problem_casted, x, w, y).

(** Lines 200-233 of [RunImpl]: cache lookup, then the cached invoker or
    the fallback. *)
Definition lookup_and_invoke (S : Solution) (problem_ : Problem) (x w y : RunInput)
    (conv_problem : ProblemDescription) (invoke_ctx : AnyInvokeParams) : M Handle unit :=
  let net_cfg := MakeNetworkConfig conv_problem in
  let* found_invoker := GetInvoker net_cfg (GetSolver S) in
  match found_invoker with
  | Some found =>
      invoke found invoke_ctx;;
      check_numerics_output problem_ x w y
  | None =>
      let* conv_solution :=
        FindSolution (GetSolver S) conv_problem invoke_ctx (default "" (perf_cfg S)) in
      let* invoker := PrepareInvoker conv_solution in
      RegisterInvoker invoker net_cfg (ToString (GetSolver S));;
      invoke invoker invoke_ctx;;
      check_numerics_output problem_ x w y
  end.

(** Lines 155-233 of [RunImpl]: everything after the arguments are
    resolved. *)
Definition run_resolved (S : Solution) (workspace : Data_t) (workspace_size : N)
    (problem_ : Problem) (x w y : RunInput) : M Handle unit :=
  lift (check_backward_shape problem_ w y);;
  check_numerics_inputs problem_ x w y;;
  let* conv_problem := lift (of_collaborator (AsConvolution problem_)) in
  (let* xd := lift (deref (descriptor x)) in
   let* wd := lift (deref (descriptor w)) in
   lift (of_collaborator (ValidateGroupCount xd wd (GetConv conv_problem))));;
  let* invoke_ctx :=
    lift (make_invoke_ctx problem_ x w y workspace workspace_size conv_problem) in
  lookup_and_invoke S problem_ x w y conv_problem invoke_ctx.

(** [Solution::RunImpl(handle, inputs, workspace, workspace_size, conv_desc)] *)
Definition RunImpl_conv (S : Solution) (inputs : gmap miopenTensorArgumentId_t RunInput)
    (workspace : Data_t) (workspace_size : N) (conv_desc : ConvolutionDescriptor)
    : M Handle unit :=
  let* problem_casted :=
    lift (match problem S with
          | ItemProblem p => Returned p
          | ItemFusedProblem _ => Propagated boost_bad_get
          end) in
  let* '(problem_, x, w, y) := lift (resolve_arguments problem_casted inputs conv_desc) in
  run_resolved S workspace workspace_size problem_ x w y.

(** ** Running a fused problem *)

(** The lambda [buffer_getter] of the fused [RunImpl]. *)
Definition buffer_getter (inputs : gmap miopenTensorArgumentId_t RunInput)
    (id : miopenTensorArgumentId_t) (descriptor_ : TensorDescriptor) : outcome Data_t :=
  match inputs !! id with
  | None =>
      MIOPEN_THROW miopenStatusInvalidValue
        ("Problem is missing " +:+ pretty id +:+ " tensor descriptor.")
  | Some found =>
      match descriptor found with
      | Some d =>
          if decide (d ≠ descriptor_) then
            MIOPEN_THROW miopenStatusNotImplemented
              "Providing new descriptors for a fused solution is not supported."
          else Returned (buffer found)
      | None => Returned (buffer found)
      end
  end.

(** Modelled from the spec: [FusedProblem::MakeInvokeParams] "walks the
    fused operator graph and asks each sub-operator to bind its arguments
    from a caller-supplied buffer-lookup function". *)
Fixpoint bind_arguments (getter : miopenTensorArgumentId_t → TensorDescriptor → outcome Data_t)
    (args : list (miopenTensorArgumentId_t * TensorDescriptor)) : outcome (list Data_t) :=
  match args with
  | [] => Returned []
  | (id, d) :: rest =>
      try* b := getter id d in
      try* bs := bind_arguments getter rest in
      Returned (b :: bs)
  end.

Definition MakeInvokeParams (problem_ : FusedProblem)
    (getter : miopenTensorArgumentId_t → TensorDescriptor → outcome Data_t)
    : outcome AnyInvokeParams :=
  try* bs := bind_arguments getter (bindings problem_) in
  Returned (FusionInvokeParams bs).

(** [Solution::RunImpl(handle, inputs, workspace, workspace_size, problem_)]
    for a fused problem. *)
Definition RunImpl_fused (S : Solution) (inputs : gmap miopenTensorArgumentId_t RunInput)
    (workspace : Data_t) (workspace_size : N) (problem_ : FusedProblem) : M Handle unit :=
  let* invoke_params := lift (MakeInvokeParams problem_ (buffer_getter inputs)) in
  let* plan := lift (of_collaborator (AsFusionPlan problem_)) in
  let net_cfg := FusionMakeNetworkConfig plan in
  let* found_invoker := GetInvoker net_cfg (GetSolver S) in
  match found_invoker with
  | Some found => invoke found invoke_params
  | None =>
      let* solution := MakeFusedSolution (solver S) (perf_cfg S) plan invoke_params in
      let* invoker := PrepareInvoker solution in
      RegisterInvoker invoker net_cfg (ToString (GetSolver S));;
      invoke invoker invoke_params
  end.

(** ** [Solution::Run] *)

(** The message of the workspace exception. *)
Definition workspace_message (S : Solution) (workspace_size : N) : string :=
  ToString (GetSolver S) +:+ " requires at least " +:+
  pretty (workspace_required S) +:+ " workspace, while " +:+
  pretty workspace_size +:+ " was provided".

(** The two visitors of [Run], after the workspace test. *)
Definition dispatch (S : Solution) (inputs : gmap miopenTensorArgumentId_t RunInput)
    (workspace : Data_t) (workspace_size : N) : M Handle unit :=
  match problem S with
  | ItemProblem problem_ =>
      match GetOperatorDescriptor problem_ with
      | OpConvolution op_desc => RunImpl_conv S inputs workspace workspace_size op_desc
      | OpActivation _ => lift (MIOPEN_THROW miopenStatusNotImplemented "")
      | OpBias _ => lift (MIOPEN_THROW miopenStatusNotImplemented "")
      end
  | ItemFusedProblem problem_ => RunImpl_fused S inputs workspace workspace_size problem_
  end.

(** [Solution::Run(handle, inputs, workspace, workspace_size)] *)
Definition Run (S : Solution) (inputs : gmap miopenTensorArgumentId_t RunInput)
    (workspace : Data_t) (workspace_size : N) : M Handle unit :=
  if decide (workspace_size < workspace_required S)%N then
    lift (MIOPEN_THROW miopenStatusBadParm (workspace_message S workspace_size))
  else dispatch S inputs workspace workspace_size.

(** ** Reading the record of calls *)

(** Calls of the numerics checker. *)
Definition is_numerics (c : Call) : bool :=
  match c with
  | call_checkNumericsInput _ _ | call_checkNumericsOutput _ _ => true
  | _ => false
  end.

(** Calls of the resolution fallback: the solver search, the preparation
    of an invoker and its registration. *)
Definition is_PrepareInvoker (c : Call) : bool :=
  match c with call_PrepareInvoker _ => true | _ => false end.
Definition is_fallback (c : Call) : bool :=
  match c with
  | call_FindSolution _ _ _ _ | call_MakeFusedSolution _ _ _ _
  | call_PrepareInvoker _ | call_RegisterInvoker _ _ _ => true
  | _ => false
  end.

(** Device invocations. *)
Definition is_invoke (c : Call) : bool :=
  match c with call_invoke _ _ => true | _ => false end.

(** The calls a computation added to the handle. *)
Definition new_calls (before after : Handle) : list Call :=
  drop (length (calls before)) (calls after).

(** A quiet computation adds numerics calls only, leaves the cache alone
    and throws nothing of its own. *)
Definition quiet {A} (m : M Handle A) : Prop :=
  ∀ h, ∃ new,
    calls (m h).1 = calls h ++ new ∧
    invokers (m h).1 = invokers h ∧
    Forall (λ c, is_numerics c = true) new ∧
    ∀ e, (m h).2 ≠ Thrown e.

(** The steps of [run_resolved] between the shape test and the
    construction of the invocation parameters all return. *)
Definition prepared (problem_ : Problem) (x w y : RunInput) (h h1 : Handle)
    (conv_problem : ProblemDescription) : Prop :=
  check_backward_shape problem_ w y = Returned tt ∧
  check_numerics_inputs problem_ x w y h = (h1, Returned tt) ∧
  AsConvolution problem_ = inr conv_problem ∧
  ∃ xd wd, descriptor x = Some xd ∧ descriptor w = Some wd ∧
    ValidateGroupCount xd wd (GetConv conv_problem) = inr tt.

(** Registration of a descriptor that may be absent, as [Transpose] does
    for each of the three inputs. *)
Definition register_if_present (o : option TensorDescriptor)
    (name : miopenTensorArgumentId_t) (p : Problem) : Problem :=
  match o with
  | Some d => RegisterTensorDescriptor p name d
  | None => p
  end.

(** The inputs with the bindings of X and Y exchanged. *)
Definition swap_X_Y (inputs : gmap miopenTensorArgumentId_t RunInput)
    : gmap miopenTensorArgumentId_t RunInput :=
  partial_alter (λ _, inputs !! miopenTensorConvolutionY) miopenTensorConvolutionX
    (partial_alter (λ _, inputs !! miopenTensorConvolutionX) miopenTensorConvolutionY
       inputs).

(** The invocation parameters in the words of the specification: which of
    X, W, Y (descriptor and buffer) is passed in which position for each
    direction, with the workspace and the flag of that direction. *)
Definition spec_invocation_parameters (direction : miopenProblemDirection_t)
    (X W Y : TensorDescriptor * Data_t) (workspace : Data_t) (workspace_size : N)
    (alt : Gfx90aFp16alt) : option AnyInvokeParams :=
  if decide (direction = miopenProblemDirectionForward) then
    Some (DataInvokeParams
            {| inDesc := X.1; in_ := X.2; wDesc := W.1; w := W.2;
               outDesc := Y.1; out := Y.2 |}
            workspace workspace_size (GetFwd alt))
  else if decide (direction = miopenProblemDirectionBackward) then
    Some (DataInvokeParams
            {| inDesc := Y.1; in_ := Y.2; wDesc := W.1; w := W.2;
               outDesc := X.1; out := X.2 |}
            workspace workspace_size (GetBwd alt))
  else if decide (direction = miopenProblemDirectionBackwardWeights) then
    Some (WrWInvokeParams
            {| dyDesc := Y.1; dy := Y.2; xDesc := X.1; x := X.2;
               dwDesc := W.1; dw := W.2 |}
            workspace workspace_size (GetWrW alt))
  else None.

(** A computation that keeps every entry of the invoker cache. *)
Definition keeps_cache {A} (m : M Handle A) : Prop :=
  ∀ h key inv, invokers h !! key = Some inv → invokers (m h).1 !! key = Some inv.

(** The error kinds of the specification, as exceptions of [Run]. *)
Definition InsufficientWorkspace (S : Solution) (workspace_size : N) : Exception :=
  MkException miopenStatusBadParm (workspace_message S workspace_size).
Definition InvalidShape : Exception := MkException miopenStatusBadParm "".
Definition MissingArgument (e : Exception) : Prop := status e = miopenStatusInvalidValue.
Definition Unsupported (e : Exception) : Prop := status e = miopenStatusNotImplemented.

(** [Run] ends with an exception of the given kind. *)
Definition fails_with (kind : Exception → Prop) (r : outcome unit) : Prop :=
  ∃ e, r = Thrown e ∧ kind e.

(** The three situations the specification names for [Unsupported]:
    an operator that cannot run on its own, a resolved direction outside
    the three supported ones, a caller-supplied descriptor that differs
    from the one a fused plan fixed. *)
Definition standalone_operator (S : Solution) : Prop :=
  ∃ p, problem S = ItemProblem p ∧
    match GetOperatorDescriptor p with
    | OpActivation _ | OpBias _ => True
    | OpConvolution _ => False
    end.

Definition unsupported_direction (d : miopenProblemDirection_t) : Prop :=
  d ≠ miopenProblemDirectionForward ∧
  d ≠ miopenProblemDirectionBackward ∧
  d ≠ miopenProblemDirectionBackwardWeights.

Definition resolved_direction_unsupported (S : Solution)
    (inputs : gmap miopenTensorArgumentId_t RunInput) : Prop :=
  ∃ p conv_desc problem_ x w y,
    problem S = ItemProblem p ∧ GetOperatorDescriptor p = OpConvolution conv_desc ∧
    resolve_arguments p inputs conv_desc = Returned (problem_, x, w, y) ∧
    unsupported_direction (GetDirection problem_).

Definition rebinds (inputs : gmap miopenTensorArgumentId_t RunInput)
    (arg : miopenTensorArgumentId_t * TensorDescriptor) : Prop :=
  ∃ found d, inputs !! arg.1 = Some found ∧ descriptor found = Some d ∧ d ≠ arg.2.

Definition rebinds_fused_descriptor (S : Solution)
    (inputs : gmap miopenTensorArgumentId_t RunInput) : Prop :=
  ∃ fp arg, problem S = ItemFusedProblem fp ∧ arg ∈ bindings fp ∧ rebinds inputs arg.

(** The same situations with what has to have gone well before each is
    reached: for the direction, the steps of [RunImpl] that precede the
    construction of the parameters; for the fused plan, the arguments
    bound before the one that is rebound. *)
Definition direction_rejected (S : Solution)
    (inputs : gmap miopenTensorArgumentId_t RunInput) (h : Handle) : Prop :=
  ∃ p conv_desc problem_ x w y h1 conv_problem,
    problem S = ItemProblem p ∧ GetOperatorDescriptor p = OpConvolution conv_desc ∧
    resolve_arguments p inputs conv_desc = Returned (problem_, x, w, y) ∧
    unsupported_direction (GetDirection problem_) ∧
    prepared problem_ x w y h h1 conv_problem.

Definition rebinding_rejected (S : Solution)
    (inputs : gmap miopenTensorArgumentId_t RunInput) : Prop :=
  ∃ fp pre arg post,
    problem S = ItemFusedProblem fp ∧ bindings fp = pre ++ arg :: post ∧
    Forall (λ a, ∃ b, buffer_getter inputs a.1 a.2 = Returned b) pre ∧
    rebinds inputs arg.

(** The signature under which [RunImpl] looks the invoker up, for a
    single-operator convolution. *)
Definition signature (problem_casted : Problem)
    (inputs : gmap miopenTensorArgumentId_t RunInput) (conv_desc : ConvolutionDescriptor)
    : outcome string :=
  try* '(problem_, _, _, _) := resolve_arguments problem_casted inputs conv_desc in
  try* conv_problem := of_collaborator (AsConvolution problem_) in
  Returned (MakeNetworkConfig conv_problem).

(** A sequence of [Run] calls on one handle, whatever their outcomes. *)
Record RunCall := MkRunCall {
  call_solution : Solution;
  call_inputs : gmap miopenTensorArgumentId_t RunInput;
  call_workspace : Data_t;
  call_workspace_size : N;
}.

Fixpoint Runs (rs : list RunCall) (handle : Handle) : Handle :=
  match rs with
  | [] => handle
  | r :: rs =>
      Runs rs (Run (call_solution r) (call_inputs r)
                   (call_workspace r) (call_workspace_size r) handle).1
  end.

End Solution.

Arguments ProblemJson {_}.
Arguments Collaborators {_}.

(** * Further parts of the sources *)

Section Observations.
Context `{!Externals} `{!Collaborators}.

(** The numerics calls of a convolution run, by resolved direction: the
    inputs checked before the invocation and the output checked after
    it.  A direction outside the three has all three tensors checked as
    inputs and none as output. *)
Definition expected_input_checks (direction : miopenProblemDirection_t)
    (X W Y : TensorDescriptor * Data_t) : list Call :=
  if decide (direction = miopenProblemDirectionForward) then
    [call_checkNumericsInput X.1 X.2; call_checkNumericsInput W.1 W.2]
  else if decide (direction = miopenProblemDirectionBackward) then
    [call_checkNumericsInput W.1 W.2; call_checkNumericsInput Y.1 Y.2]
  else if decide (direction = miopenProblemDirectionBackwardWeights) then
    [call_checkNumericsInput X.1 X.2; call_checkNumericsInput Y.1 Y.2]
  else
    [call_checkNumericsInput X.1 X.2; call_checkNumericsInput W.1 W.2;
     call_checkNumericsInput Y.1 Y.2].

Definition expected_output_checks (direction : miopenProblemDirection_t)
    (X W Y : TensorDescriptor * Data_t) : list Call :=
  if decide (direction = miopenProblemDirectionForward) then
    [call_checkNumericsOutput Y.1 Y.2]
  else if decide (direction = miopenProblemDirectionBackward) then
    [call_checkNumericsOutput X.1 X.2]
  else if decide (direction = miopenProblemDirectionBackwardWeights) then
    [call_checkNumericsOutput W.1 W.2]
  else [].

(** Calls that search for a solution: the solver search of the
    convolution path and its fused counterpart. *)
Definition is_search (c : Call) : bool :=
  match c with
  | call_FindSolution _ _ _ _ | call_MakeFusedSolution _ _ _ _ => true
  | _ => false
  end.

(** The signature under which the fused [RunImpl] looks the invoker up. *)
Definition fused_signature (fp : FusedProblem) : outcome string :=
  try* plan := of_collaborator (AsFusionPlan fp) in
  Returned (FusionMakeNetworkConfig plan).

(** An input accepted by [buffer_getter] for an argument of a fused plan:
    bound, and either without descriptor or with the descriptor the plan
    fixed. *)
Definition binds (inputs : gmap miopenTensorArgumentId_t RunInput)
    (arg : miopenTensorArgumentId_t * TensorDescriptor) (b : Data_t) : Prop :=
  ∃ found, inputs !! arg.1 = Some found ∧ b = buffer found ∧
    (descriptor found = None ∨ descriptor found = Some arg.2).



End Observations.

(** ** [Solution::LogDriverCommand] *)

Section Diagnostics.
Context `{!Externals}.

(** [solver::Id::Value()], the numeric value of a solver id. *)
Variable Value : Id → N.

(** What the logging collaborators are asked to print:
    [miopen::debug::LogCmdConvolution] with its six arguments, and
    [Problem::LogDriverCommand] of a problem. *)
Inductive DriverCommand :=
| LogCmdConvolution (x w : TensorDescriptor) (conv : ConvolutionDescriptor)
    (y : TensorDescriptor) (dir : miopenProblemDirection_t) (solver_id : option N)
| Problem_LogDriverCommand (p : Problem).

(** The two logging callees, defined outside this file: like every
    collaborator they return or raise, which may depend on what was
    logged before. *)
Variable LogCmdConvolution_ :
  list DriverCommand → TensorDescriptor → TensorDescriptor → ConvolutionDescriptor →
  TensorDescriptor → miopenProblemDirection_t → option N → foreign + unit.
Variable Problem_LogDriverCommand_ : list DriverCommand → Problem → foreign + unit.

(** The callee a logged call stands for. *)
Definition callee (log : list DriverCommand) (c : DriverCommand) : foreign + unit :=
  match c with
  | LogCmdConvolution x w conv y dir solver_id =>
      LogCmdConvolution_ log x w conv y dir solver_id
  | Problem_LogDriverCommand p => Problem_LogDriverCommand_ log p
  end.

(** A call on a logging callee: it is recorded, then it returns or
    raises. *)
Definition emit (c : DriverCommand) : M (list DriverCommand) unit :=
  λ log, (log ++ [c], of_collaborator (callee log c)).

(** [boost::get<const Problem&>(problem.item)] *)
Definition get_Problem (S : Solution) : outcome Problem :=
  match problem S with
  | ItemProblem p => Returned p
  | ItemFusedProblem _ => Propagated boost_bad_get
  end.

(** [Solution::LogDriverCommand(const ConvolutionDescriptor&)] *)
Definition LogDriverCommand_conv (S : Solution) (desc : ConvolutionDescriptor)
    : M (list DriverCommand) unit :=
  let* problem_ := lift (get_Problem S) in
  let* x_desc := lift (GetTensorDescriptorChecked problem_
                         miopenTensorConvolutionX "miopenTensorConvolutionX") in
  let* w_desc := lift (GetTensorDescriptorChecked problem_
                         miopenTensorConvolutionW "miopenTensorConvolutionW") in
  let* y_desc := lift (GetTensorDescriptorChecked problem_
                         miopenTensorConvolutionY "miopenTensorConvolutionY") in
  emit (LogCmdConvolution x_desc w_desc desc y_desc (GetDirection problem_)
          (Some (Value (solver S)))).

(** [Solution::LogDriverCommand(const ActivationDescriptor&)] *)
Definition LogDriverCommand_activation (S : Solution) (desc : ActivationDescriptor)
    : M (list DriverCommand) unit :=
  let* problem_ := lift (get_Problem S) in
  emit (Problem_LogDriverCommand problem_).

(** [Solution::LogDriverCommand(const Problem&)] *)
Definition LogDriverCommand_problem (S : Solution) (problem_ : Problem)
    : M (list DriverCommand) unit :=
  match GetOperatorDescriptor problem_ with
  | OpBias _ => ret tt
  | OpConvolution op_desc => LogDriverCommand_conv S op_desc
  | OpActivation op_desc => LogDriverCommand_activation S op_desc
  end.

(** [Solution::LogDriverCommand(const FusedProblem&)] *)
Definition LogDriverCommand_fused (S : Solution) (problem_ : FusedProblem)
    : M (list DriverCommand) unit :=
  ret tt.

(** [Solution::LogDriverCommand()] *)
Definition LogDriverCommand (S : Solution) : M (list DriverCommand) unit :=
  match problem S with
  | ItemProblem problem_ => LogDriverCommand_problem S problem_
  | ItemFusedProblem problem_ => LogDriverCommand_fused S problem_
  end.

End Diagnostics.

(** ** The solver-prediction test ([test/gtest/tuna_net.cpp]) *)

Section TunaNet.

(** The loop of [std::max_element]: [largest] is replaced by a later
    position only when the value there is strictly greater. *)
Fixpoint max_element_loop (largest : nat) (largest_value : N) (i : nat) (rest : list N)
    : nat :=
  match rest with
  | [] => largest
  | v :: rest =>
      if (largest_value <? v)%N then max_element_loop i v (S i) rest
      else max_element_loop largest largest_value (S i) rest
  end.

(** [std::distance(solvers.begin(), std::max_element(solvers.begin(),
    solvers.end()))]; on an empty vector [max_element] returns [end()],
    at distance 0. *)
Definition max_element_distance (solvers : list N) : nat :=
  match solvers with
  | [] => 0
  | v :: rest => max_element_loop 0 v 1 rest
  end.

(** Position [i] holds a largest value of [l] and every earlier position
    holds a strictly smaller one. *)
Definition first_maximum (l : list N) (i : nat) : Prop :=
  ∃ v, l !! i = Some v ∧
    (∀ j u, l !! j = Some u → (u ≤ v)%N) ∧
    (∀ j u, j < i → l !! j = Some u → (u < v)%N).

(** How a test body ends. *)
Inductive verdict := Skipped | Passed | Failed.

(** The problem description and the execution context of the test, and
    [miopen::ai::immed_mode::PredictSolver]. *)
Variable TestProblem : Type.
Variable ExecutionContext : Type.
Variable PredictSolver : TestProblem → ExecutionContext → string → list N.

(** [TestSolverPredictionModel(problem, expected_solver,
    device_architecture)] as compiled with
    [MIOPEN_ENABLE_AI_IMMED_MODE_FALLBACK], given the name of the device
    of the test handle and the context bound to it.  The other branch of
    the conditional is no sequence of statements -- the [;] after
    [std::ignore = device_architecture] is missing -- and is left out. *)
Definition TestSolverPredictionModel (device : string) (ctx : ExecutionContext)
    (problem_ : TestProblem) (expected_solver : N) (device_architecture : string)
    : verdict :=
  if decide (device ≠ device_architecture) then Skipped
  else
    let solvers := PredictSolver problem_ ctx device in
    let solver_ := N.of_nat (max_element_distance solvers) in
    if decide (solver_ = expected_solver) then Passed else Failed.

End TunaNet.

(** * A concrete setting

    One instance of the collaborators and a few solutions, used to run the
    model: the forward convolution of the specification's scenario
    (solver ConvDirectNaiveFwd, no workspace, a 5x3x32x32 input and 3x3
    filters), a backward and a transposed variant, and a stand-alone
    activation. *)
Module Scenario.

(** Floating-point numbers are stood for by integers, solver ids by their
    names, a convolution problem description by the descriptor and the
    signature, solutions and invokers by names. *)
Definition externals : Externals := {|
  float := Z;
  double := Z;
  double_of_float := id;
  float_of_double := id;
  float_of_Z := id;
  ulong_of_double := Z.to_N;
  Id := string;
  Id_of_string := id;
  ToString := id;
  ActivationDescriptor := unit;
  BiasDescriptor := unit;
  ProblemDescription := ConvolutionDescriptor * string;
  GetConv := fst;
  MakeNetworkConfig := snd;
  FusionPlanDescriptor := string;
  FusionMakeNetworkConfig := id;
  ConvSolution := string;
  Invoker := string;
  CheckNumericsEnabled := true;
|}.
#[local] Existing Instance externals.

Definition plain_desc : ConvolutionDescriptor :=
  MkConvolutionDescriptor miopenConvolution
    (MkConvolutionAttribute (MkGfx90aFp16alt true false false)) [].
Definition transpose_desc : ConvolutionDescriptor :=
  MkConvolutionDescriptor miopenTranspose
    (MkConvolutionAttribute (MkGfx90aFp16alt true false false)) [].

(** The JSON form of a problem keeps its direction and whether it is a
    convolution; decoding gives a convolution without registered
    descriptors (they are supplied with the run inputs). *)
Definition problem_json : ProblemJson := {|
  problem_to_json pc :=
    match pc with
    | ItemProblem p => Jnumber_integer (GetDirection p)
    | ItemFusedProblem _ => Jnull
    end;
  problem_from_json j dest :=
    match j with
    | Jnumber_integer z =>
        (ItemProblem (MkProblem (OpConvolution plain_desc) z ∅), Returned tt)
    | _ => (dest, Propagated (json_exception 302))
    end;
|}.

(** The direction of the transposed form: forward and backward exchange. *)
Definition transposed_direction (d : miopenProblemDirection_t) : miopenProblemDirection_t :=
  if decide (d = miopenProblemDirectionForward) then miopenProblemDirectionBackward
  else if decide (d = miopenProblemDirectionBackward) then miopenProblemDirectionForward
  else d.

Definition collaborators : Collaborators := {|
  MakeTransposed p :=
    inr (MkProblem (GetOperatorDescriptor p) (transposed_direction (GetDirection p))
           (tensor_descriptors p));
  AsConvolution p :=
    match GetOperatorDescriptor p with
    | OpConvolution d => inr (d, "conv" +:+ pretty (GetDirection p))
    | _ => inl boost_bad_get
    end;
  ValidateGroupCount _ _ _ := inr tt;
  AsFusionPlan _ := inr "fusion";
  checkNumericsInput_ _ _ _ := inr tt;
  checkNumericsOutput_ _ _ _ := inr tt;
  FindSolution_ _ id _ _ _ := inr id;
  MakeFusedSolution_ _ id _ _ _ := inr id;
  PrepareInvoker_ _ sol := inr sol;
  invoke_ _ _ _ := inr tt;
|}.

Definition current : SerializationMetadata :=
  MkSerializationMetadata 0x123456789ABCDEF0 1.

Definition x_desc : TensorDescriptor :=
  MkTensorDescriptor [5; 3; 32; 32]%N [3072; 1024; 32; 1]%N 0.
Definition w_desc : TensorDescriptor :=
  MkTensorDescriptor [64; 3; 3; 3]%N [27; 9; 3; 1]%N 0.
Definition y_desc : TensorDescriptor :=
  MkTensorDescriptor [5; 64; 30; 30]%N [57600; 900; 30; 1]%N 0.

Definition inputs : gmap miopenTensorArgumentId_t RunInput :=
  <[miopenTensorConvolutionX := MkRunInput (Some x_desc) 4096%N]>
    (<[miopenTensorConvolutionW := MkRunInput (Some w_desc) 8192%N]>
       (<[miopenTensorConvolutionY := MkRunInput (Some y_desc) 12288%N]> ∅)).

Definition forward_problem : Problem :=
  MkProblem (OpConvolution plain_desc) miopenProblemDirectionForward ∅.
Definition backward_problem : Problem :=
  MkProblem (OpConvolution plain_desc) miopenProblemDirectionBackward ∅.
Definition transpose_problem : Problem :=
  MkProblem (OpConvolution transpose_desc) miopenProblemDirectionForward ∅.
Definition activation_problem : Problem :=
  MkProblem (OpActivation tt) miopenProblemDirectionForward ∅.

Definition forward_solution : Solution :=
  MkSolution 17%Z 0 "ConvDirectNaiveFwd" (ItemProblem forward_problem) None.
Definition backward_solution : Solution :=
  MkSolution 17%Z 0 "ConvDirectNaiveBwd" (ItemProblem backward_problem) None.
Definition transpose_solution : Solution :=
  MkSolution 17%Z 0 "ConvDirectNaiveFwd" (ItemProblem transpose_problem) None.
Definition activation_solution : Solution :=
  MkSolution 0%Z 1 "Activation" (ItemProblem activation_problem) None.

(** The inputs with the descriptor of x bound to Y as well: length 1 of y
    is then 3, while length 0 of w is 64. *)
Definition mismatched_inputs : gmap miopenTensorArgumentId_t RunInput :=
  <[miopenTensorConvolutionY := MkRunInput (Some x_desc) 12288%N]> inputs.

Definition fresh_handle : Handle := MkHandle ∅ [].

(** A record with a foreign validation number. *)
Definition corrupt_record : json :=
  Jobject {[ "header" := Jobject (<["validation" := Jnumber_unsigned 7]>
                                    {[ "version" := Jnumber_unsigned 1 ]}) ]}.

(** A record with a foreign validation number whose version is a string,
    all other fields being those of an encoded solution. *)
Definition ill_typed_version_record : json :=
  Jobject (<["header" := Jobject (<["validation" := Jnumber_unsigned 7]>
                                    {[ "version" := Jstring "1" ]})]>
           (<["time" := Jnumber_float 2%Z]>
            (<["workspace" := Jnumber_unsigned 0]>
             (<["solver" := Jstring "ConvDirectNaiveFwd"]>
              {[ "problem" := Jnull ]})))).

(** A fused plan over the three tensors, with a tuning payload; a
    convolution whose problem registers the three descriptors; inputs that
    carry buffers only; and a second forward solution that differs from
    the first in its time, workspace and tuning payload. *)
Definition fused_problem : FusedProblem :=
  MkFusedProblem [forward_problem]
    [(miopenTensorConvolutionX, x_desc); (miopenTensorConvolutionW, w_desc);
     (miopenTensorConvolutionY, y_desc)].
Definition fused_solution : Solution :=
  MkSolution 3%Z 0 "ConvBiasActivAsm1x1U" (ItemFusedProblem fused_problem) (Some "tuned").

Definition registered_problem : Problem :=
  MkProblem (OpConvolution plain_desc) miopenProblemDirectionForward
    (<[miopenTensorConvolutionX := x_desc]>
       (<[miopenTensorConvolutionW := w_desc]>
          (<[miopenTensorConvolutionY := y_desc]> ∅))).
Definition registered_solution : Solution :=
  MkSolution 17%Z 0 "ConvDirectNaiveFwd" (ItemProblem registered_problem) None.

Definition bare_inputs : gmap miopenTensorArgumentId_t RunInput :=
  <[miopenTensorConvolutionX := MkRunInput None 4096%N]>
    (<[miopenTensorConvolutionW := MkRunInput None 8192%N]>
       (<[miopenTensorConvolutionY := MkRunInput None 12288%N]> ∅)).

Definition tuned_solution : Solution :=
  MkSolution 5%Z 0 "ConvDirectNaiveFwd" (ItemProblem forward_problem) (Some "tuned").

Definition solver_value (id : string) : N := N.of_nat (String.length id).

(** Logging callees: the convolution logger returns, the problem logger
    raises. *)
Definition log_convolution (_ : list DriverCommand) (_ _ : TensorDescriptor)
    (_ : ConvolutionDescriptor) (_ : TensorDescriptor) (_ : miopenProblemDirection_t)
    (_ : option N) : foreign + unit := inr tt.
Definition log_problem (_ : list DriverCommand) (_ : Problem) : foreign + unit :=
  inl (collaborator_exception (MkException miopenStatusNotImplemented "")).

(** A record with the current header and nothing else, and one whose
    ["perf_cfg"] is not a string. *)
Definition header_only_record : json :=
  Jobject {[ "header" := to_json_metadata current ]}.
Definition time_only_record : json :=
  Jobject (<["header" := to_json_metadata current]> {[ "time" := Jnumber_integer 9 ]}).

(** Scores of a solver prediction. *)
Definition scores (_ : unit) (_ : unit) (_ : string) : list N := [3; 9; 4; 9; 1]%N.

End Scenario.


(** * Properties *)

Section Serialization.
Context `{!Externals} `{!ProblemJson}.
Variable Current : SerializationMetadata.

(** Lookup of a literal key in the object built by [to_json]. *)
Ltac object_lookup :=
  simpl; repeat (rewrite lookup_insert_ne by done);
  first [ rewrite lookup_insert_eq | rewrite lookup_empty ]; try reflexivity.

Lemma to_json_at solution key v :
  key ≠ "perf_cfg" →
  (list_to_map [
     ("header", to_json_metadata Current);
     ("time", Jnumber_float (double_of_float (time solution)));
     ("workspace", Jnumber_unsigned (workspace_required solution));
     ("solver", Jstring (ToString (solver solution)));
     ("problem", problem_to_json (problem solution))
   ] : gmap string json) !! key = Some v →
  json_at (to_json Current solution) key = Returned v.
Proof.
  intros Hkey Hv. unfold to_json. destruct (perf_cfg solution); simpl in *.
  - rewrite lookup_insert_ne by done. by rewrite Hv.
  - by rewrite Hv.
Qed.

Lemma to_json_find_perf_cfg solution :
  json_find (to_json Current solution) "perf_cfg" = Jstring <$> perf_cfg solution.
Proof.
  unfold to_json. destruct (perf_cfg solution); simpl.
  - by rewrite lookup_insert_eq.
  - by object_lookup.
Qed.

Lemma from_json_to_json_metadata metadata :
  from_json_metadata (to_json_metadata metadata) = Returned metadata.
Proof.
  unfold from_json_metadata, to_json_metadata, json_at.
  do 2 object_lookup. by destruct metadata.
Qed.

Lemma check_header_to_json solution :
  check_header Current (to_json Current solution) = Returned tt.
Proof.
  unfold check_header.
  rewrite (to_json_at solution "header" (to_json_metadata Current)) by (done || object_lookup).
  simpl. rewrite from_json_to_json_metadata. simpl.
  rewrite !decide_False; auto.
Qed.

(** A rejected header leaves the destination as it was. *)
Lemma from_json_rejected j dest e :
  check_header Current j = Thrown e →
  from_json Current j dest = (dest, Thrown e).
Proof. intros Hh. unfold from_json, bind, lift. by rewrite Hh. Qed.

Lemma from_json_accepted j dest :
  check_header Current j = Returned tt →
  from_json Current j dest = read_fields j dest.
Proof. intros Hh. unfold from_json, bind, lift. by rewrite Hh. Qed.

Lemma check_header_decoded j header :
  (try* h := json_at j "header" in from_json_metadata h) = Returned header →
  check_header Current j =
    if decide (validation_number header ≠ validation_number Current) then
      MIOPEN_THROW miopenStatusInvalidValue
        "Invalid buffer has been passed to the solution deserialization."
    else if decide (version header ≠ version Current) then
      MIOPEN_THROW miopenStatusVersionMismatch
        "Data from wrong version has been passed to the solution deserialization."
    else Returned tt.
Proof. intros Hh. unfold check_header. by rewrite Hh. Qed.

(** C5 -- Serialization round trip.  Decoding the encoding of a solution
    into any destination succeeds and yields a solution whose [time],
    [workspace_required], solver display string, [problem] and [perf_cfg]
    are those of the original; when [perf_cfg] is absent the record has no
    such key and the decoded [perf_cfg] is absent again.  The three
    facts used about code outside this file are hypotheses: widening the
    [float] to the JSON [double] and narrowing it back is exact, the
    solver registry gives back the display string it was built from, and
    the problem's own [from_json] inverts its [to_json]. *)
Theorem from_json_to_json_roundtrip (solution dest : Solution) :
  float_of_double (double_of_float (time solution)) = time solution →
  ToString (Id_of_string (ToString (solver solution))) = ToString (solver solution) →
  (∀ p, problem_from_json (problem_to_json (problem solution)) p
        = (problem solution, Returned tt)) →
  ∃ decoded,
    from_json Current (to_json Current solution) dest = (decoded, Returned tt) ∧
    time decoded = time solution ∧
    workspace_required decoded = workspace_required solution ∧
    ToString (solver decoded) = ToString (solver solution) ∧
    problem decoded = problem solution ∧
    perf_cfg decoded = perf_cfg solution ∧
    (perf_cfg solution = None →
     json_find (to_json Current solution) "perf_cfg" = None).
Proof.
  intros Hfloat Hsolver Hproblem.
  rewrite from_json_accepted by apply check_header_to_json.
  unfold read_fields, bind, lift, modify, get_to_problem.
  rewrite (to_json_at solution "time" (Jnumber_float (double_of_float (time solution))))
    by (done || object_lookup).
  rewrite (to_json_at solution "workspace" (Jnumber_unsigned (workspace_required solution)))
    by (done || object_lookup).
  rewrite (to_json_at solution "solver" (Jstring (ToString (solver solution))))
    by (done || object_lookup).
  rewrite (to_json_at solution "problem" (problem_to_json (problem solution)))
    by (done || object_lookup).
  rewrite to_json_find_perf_cfg. simpl. rewrite Hproblem.
  destruct (perf_cfg solution) as [cfg|] eqn:Hcfg; simpl;
    (eexists; split; [reflexivity|]); simpl; by repeat split.
Qed.

Lemma decoded_header_cases j :
  (∃ header, (try* h := json_at j "header" in from_json_metadata h) = Returned header ∧
             record_validation_number j = Returned (validation_number header)) ∨
  (∃ id, (try* h := json_at j "header" in from_json_metadata h)
         = Propagated (json_exception id)).
Proof.
  unfold record_validation_number, from_json_metadata, json_at.
  destruct j as [| | | | | | |m]; simpl; try (by right; eexists).
  destruct (m !! "header") as [[| | | | | | |hm]|]; simpl; try (by right; eexists).
  destruct (hm !! "validation") as [v|]; simpl; [|by right; eexists].
  destruct (get_ulong v) as [n| | |] eqn:Hv; simpl.
  - destruct (hm !! "version") as [v'|]; simpl; [|by right; eexists].
    destruct v'; simpl; try (by right; eexists); left; by eexists.
  - by destruct v.
  - destruct v; simplify_eq/=; by right; eexists.
  - by destruct v.
Qed.

(** C6 -- Header discrimination on decode.  [from_json] decodes the
    header first.  For a record whose header decodes to [header] -- its
    validation number being the one the record carries -- a validation
    number other than the current one makes [from_json] throw the
    corrupt-data exception, whatever its version and the other fields
    are; the current validation number with another version makes it
    throw the version-mismatch exception; the two exceptions differ; and
    the other fields are read only when both comparisons pass.  For a
    record whose header does not decode, [from_json] ends with the
    exception of the JSON library and reads nothing else, so the header
    block throws corrupt data exactly when the header decodes with
    another validation number, and version mismatch exactly when it
    decodes with the current validation number and another version. *)
Theorem from_json_header_discrimination (j : json) (dest : Solution) :
  let decoded := try* h := json_at j "header" in from_json_metadata h in
  (∀ header,
     decoded = Returned header →
     record_validation_number j = Returned (validation_number header) ∧
     (validation_number header ≠ validation_number Current →
      from_json Current j dest = (dest, Thrown CorruptData)) ∧
     (validation_number header = validation_number Current →
      version header ≠ version Current →
      from_json Current j dest = (dest, Thrown VersionMismatch)) ∧
     (validation_number header = validation_number Current →
      version header = version Current →
      from_json Current j dest = read_fields j dest)) ∧
  ((∀ header, decoded ≠ Returned header) →
   ∃ id, decoded = Propagated (json_exception id) ∧
         from_json Current j dest = (dest, Propagated (json_exception id))) ∧
  (check_header Current j = Thrown CorruptData ↔
   ∃ header, decoded = Returned header ∧
             validation_number header ≠ validation_number Current) ∧
  (check_header Current j = Thrown VersionMismatch ↔
   ∃ header, decoded = Returned header ∧
             validation_number header = validation_number Current ∧
             version header ≠ version Current) ∧
  status CorruptData ≠ status VersionMismatch.
Proof.
  simpl. split_and!; [| | | |done].
  - intros header Hh. pose proof (check_header_decoded j header Hh) as Hc.
    split_and!.
    + destruct (decoded_header_cases j) as [(header' & Hh' & Hv)|[id Hid]];
        [|congruence].
      rewrite Hh in Hh'. by simplify_eq.
    + intros Hv. rewrite decide_True in Hc by done. by apply from_json_rejected.
    + intros Hv Hver. rewrite decide_False, decide_True in Hc by auto.
      by apply from_json_rejected.
    + intros Hv Hver. rewrite !decide_False in Hc by auto.
      by apply from_json_accepted.
  - intros Hfail.
    destruct (decoded_header_cases j) as [(header & Hh & _)|[id Hid]];
      [by destruct (Hfail header)|].
    exists id. split; [done|].
    unfold from_json, bind, lift, check_header. by rewrite Hid.
  - destruct (decoded_header_cases j) as [(header & Hh & _)|[id Hid]].
    + rewrite (check_header_decoded j header Hh). split.
      * intros Hc. exists header. split; [done|].
        destruct (decide (validation_number header ≠ validation_number Current));
          [done|]. by destruct (decide (version header ≠ version Current)).
      * intros (header' & Hh' & Hv). rewrite Hh in Hh'. injection Hh' as <-.
        by rewrite decide_True.
    + unfold check_header. rewrite Hid. simpl. split; [done|].
      by intros (header & Hh & _).
  - destruct (decoded_header_cases j) as [(header & Hh & _)|[id Hid]].
    + rewrite (check_header_decoded j header Hh). split.
      * intros Hc. exists header. split; [done|].
        destruct (decide (validation_number header ≠ validation_number Current))
          as [|Hv]; [done|]. apply dec_stable in Hv.
        by destruct (decide (version header ≠ version Current)).
      * intros (header' & Hh' & Hv & Hver). rewrite Hh in Hh'. injection Hh' as <-.
        rewrite decide_False by auto. by rewrite decide_True.
    + unfold check_header. rewrite Hid. simpl. split; [done|].
      by intros (header & Hh & _).
Qed.

(** C10 -- Decode atomicity.  When the header of a record is rejected
    (its validation number or its version is not the current one),
    [from_json] throws and the destination keeps its [time],
    [workspace_required], [solver], [problem] and [perf_cfg]. *)
Theorem from_json_rejected_header_keeps_destination
    (j : json) (dest : Solution) (header : SerializationMetadata) :
  (try* h := json_at j "header" in from_json_metadata h) = Returned header →
  validation_number header ≠ validation_number Current ∨
    version header ≠ version Current →
  let result := from_json Current j dest in
  (∃ e, result.2 = Thrown e) ∧
  time result.1 = time dest ∧
  workspace_required result.1 = workspace_required dest ∧
  solver result.1 = solver dest ∧
  problem result.1 = problem dest ∧
  perf_cfg result.1 = perf_cfg dest.
Proof.
  intros Hh Hbad. pose proof (check_header_decoded j header Hh) as Hc.
  assert (∃ e, check_header Current j = Thrown e) as [e He].
  { rewrite Hc. destruct Hbad as [Hv|Hver].
    - rewrite decide_True by done. unfold MIOPEN_THROW. eauto.
    - destruct (decide (validation_number header ≠ validation_number Current));
        [|rewrite decide_True by done]; unfold MIOPEN_THROW; eauto. }
  simpl. rewrite (from_json_rejected j dest e He). simpl. eauto 10.
Qed.

End Serialization.

Section Execution.
Context `{!Externals} `{!Collaborators}.

Implicit Types (h handle : Handle) (S : Solution) (e : Exception).
Implicit Types (inputs : gmap miopenTensorArgumentId_t RunInput).

(** *** Blocks that only consult the numerics checker *)

Lemma quiet_lift {A} (r : outcome A) : (∀ e, r ≠ Thrown e) → quiet (lift r).
Proof. intros Hr h. exists []. simpl. by rewrite app_nil_r. Qed.

Lemma quiet_ret {A} (a : A) : quiet (ret a : M Handle A).
Proof. intros h. exists []. simpl. by rewrite app_nil_r. Qed.

Lemma quiet_bind {A B} (m : M Handle A) (k : A → M Handle B) :
  quiet m → (∀ a, quiet (k a)) → quiet (bind m k).
Proof.
  intros Hm Hk h. unfold bind.
  destruct (Hm h) as (new & Hc & Hi & Hn & Ht).
  destruct (m h) as [h1 [a| e | e |]]; simpl in *.
  - destruct (Hk a h1) as (new' & Hc' & Hi' & Hn' & Ht').
    exists (new ++ new'). rewrite Hc', Hc, Hi', Hi, app_assoc.
    repeat split; auto. by apply Forall_app.
  - by destruct (Ht e).
  - exists new. repeat split; auto.
  - exists new. repeat split; auto.
Qed.

Lemma quiet_when b (m : M Handle unit) : quiet m → quiet (when b m).
Proof. destruct b; simpl; auto using quiet_ret. Qed.

Lemma quiet_call {A} c (f : Handle → foreign + A) :
  is_numerics c = true → quiet (call c f).
Proof.
  intros Hc h. exists [c]. unfold call; simpl. repeat split; auto.
  intros e. by destruct (f h).
Qed.

Lemma deref_not_thrown {A} (o : option A) e : deref o ≠ Thrown e.
Proof. by destruct o. Qed.

Lemma quiet_check_input t : quiet (check_input t).
Proof.
  apply quiet_bind; [apply quiet_lift, deref_not_thrown|].
  intros d. by apply quiet_call.
Qed.

Lemma quiet_check_output t : quiet (check_output t).
Proof.
  apply quiet_bind; [apply quiet_lift, deref_not_thrown|].
  intros d. by apply quiet_call.
Qed.

Lemma quiet_check_numerics_inputs p x w y : quiet (check_numerics_inputs p x w y).
Proof.
  apply quiet_when.
  repeat (apply quiet_bind; [|intros _]); apply quiet_when, quiet_check_input.
Qed.

Lemma quiet_check_numerics_output p x w y : quiet (check_numerics_output p x w y).
Proof.
  apply quiet_when.
  repeat (apply quiet_bind; [|intros _]); apply quiet_when, quiet_check_output.
Qed.

(** *** Argument resolution *)

Lemma get_input_checked_cases p inputs name name_str :
  match get_input_checked p inputs name name_str with
  | Returned r =>
      ∃ found, inputs !! name = Some found ∧ buffer r = buffer found ∧
        is_Some (descriptor r) ∧
        (is_Some (descriptor found) → r = found) ∧
        (descriptor found = None → descriptor r = tensor_descriptors p !! name)
  | Thrown e =>
      MissingArgument e ∧
      (inputs !! name = None ∨
       ∃ found, inputs !! name = Some found ∧ descriptor found = None ∧
                tensor_descriptors p !! name = None)
  | _ => False
  end.
Proof.
  unfold get_input_checked, GetTensorDescriptorChecked, MIOPEN_THROW.
  destruct (inputs !! name) as [[[d|] b]|] eqn:Hin; simpl.
  - exists (MkRunInput (Some d) b). repeat split; eauto. by intros [=].
  - destruct (tensor_descriptors p !! name) eqn:Hp; simpl.
    + eexists. repeat split; eauto. by intros [? [=]].
    + split; [done|]. right. eauto.
  - split; [done|]. by left.
Qed.

Lemma resolve_arguments_cases p inputs conv_desc :
  match resolve_arguments p inputs conv_desc with
  | Returned (problem_, x, w, y) =>
      is_Some (descriptor x) ∧ is_Some (descriptor w) ∧ is_Some (descriptor y)
  | Thrown e => MissingArgument e
  | Propagated _ => mode conv_desc = miopenTranspose
  | Undefined => False
  end.
Proof.
  unfold resolve_arguments.
  pose proof (get_input_checked_cases p inputs miopenTensorConvolutionX
                "miopenTensorConvolutionX") as Hx.
  pose proof (get_input_checked_cases p inputs miopenTensorConvolutionW
                "miopenTensorConvolutionW") as Hw.
  pose proof (get_input_checked_cases p inputs miopenTensorConvolutionY
                "miopenTensorConvolutionY") as Hy.
  destruct (get_input_checked p inputs miopenTensorConvolutionX _) as [x| | |];
    simpl; [|tauto..].
  destruct (get_input_checked p inputs miopenTensorConvolutionW _) as [w| | |];
    simpl; [|tauto..].
  destruct (get_input_checked p inputs miopenTensorConvolutionY _) as [y| | |];
    simpl; [|tauto..].
  destruct Hx as (? & _ & _ & Hx & _), Hw as (? & _ & _ & Hw & _),
    Hy as (? & _ & _ & Hy & _).
  destruct (decide (mode conv_desc = miopenTranspose)); [|done].
  unfold Transpose. destruct (MakeTransposed p); simpl; done.
Qed.

(** *** The cache lookup and what follows it *)

Lemma lookup_and_invoke_hit S problem_ x w y conv_problem ctx h inv :
  invokers h !! (MakeNetworkConfig conv_problem, ToString (solver S)) = Some inv →
  let res := lookup_and_invoke S problem_ x w y conv_problem ctx h in
  ∃ out,
    calls res.1 = calls h ++
      [call_GetInvoker (MakeNetworkConfig conv_problem) (solver S);
       call_invoke inv ctx] ++ out ∧
    invokers res.1 = invokers h ∧
    Forall (λ c, is_numerics c = true) out ∧
    (∀ e, res.2 ≠ Thrown e).
Proof.
  intros Hhit. unfold lookup_and_invoke, bind, GetInvoker, GetSolver. simpl.
  rewrite Hhit. unfold invoke, call. simpl.
  destruct (invoke_ _ inv ctx) as [e|[]]; simpl.
  - exists []. rewrite <- app_assoc. by repeat split.
  - match goal with |- context [check_numerics_output ?p ?a ?b ?c ?hh] =>
      destruct (quiet_check_numerics_output p a b c hh) as (out & Hc & Hi & Hn & Ht)
    end.
    exists out. rewrite Hc, Hi. simpl. rewrite <- !app_assoc. by repeat split.
Qed.

Lemma lookup_and_invoke_miss S problem_ x w y conv_problem ctx h :
  invokers h !! (MakeNetworkConfig conv_problem, ToString (solver S)) = None →
  let res := lookup_and_invoke S problem_ x w y conv_problem ctx h in
  let cfg := MakeNetworkConfig conv_problem in
  let find := call_FindSolution (solver S) conv_problem ctx (default "" (perf_cfg S)) in
  (∀ e, res.2 ≠ Thrown e) ∧
  ((∃ ex : foreign, res.2 = Propagated ex ∧ invokers res.1 = invokers h ∧
     (calls res.1 = calls h ++ [call_GetInvoker cfg (solver S); find] ∨
      ∃ sol, calls res.1 =
        calls h ++ [call_GetInvoker cfg (solver S); find; call_PrepareInvoker sol])) ∨
   (∃ sol inv out,
      calls res.1 = calls h ++
        [call_GetInvoker cfg (solver S); find; call_PrepareInvoker sol;
         call_RegisterInvoker inv cfg (ToString (solver S));
         call_invoke inv ctx] ++ out ∧
      invokers res.1 = <[(cfg, ToString (solver S)) := inv]> (invokers h) ∧
      Forall (λ c, is_numerics c = true) out)).
Proof.
  intros Hmiss. unfold lookup_and_invoke, bind, GetInvoker, GetSolver. simpl.
  rewrite Hmiss. unfold FindSolution, PrepareInvoker, RegisterInvoker, invoke, call.
  simpl.
  destruct (FindSolution_ _ _ _ _ _) as [e|sol]; simpl.
  { split; [done|]. left. exists e. rewrite <- app_assoc. auto. }
  destruct (PrepareInvoker_ _ sol) as [e|inv]; simpl.
  { split; [done|]. left. exists e. rewrite <- !app_assoc. simpl. eauto 10. }
  rewrite Hmiss.
  destruct (invoke_ _ inv ctx) as [e|[]]; simpl.
  { split; [done|]. right. exists sol, inv, []. rewrite <- !app_assoc. simpl.
    by repeat split. }
  match goal with |- context [check_numerics_output ?p ?a ?b ?c ?hh] =>
    destruct (quiet_check_numerics_output p a b c hh) as (out & Hc & Hi & Hn & Ht)
  end.
  split; [done|]. right. exists sol, inv, out.
  rewrite Hc, Hi. simpl. rewrite <- !app_assoc. by repeat split.
Qed.

(** A miss that returns: the solution registered is the one the search
    returned, the invoker registered and invoked is the one prepared from
    it. *)
Lemma lookup_and_invoke_miss_returned S problem_ x w y conv_problem ctx h :
  invokers h !! (MakeNetworkConfig conv_problem, ToString (solver S)) = None →
  let res := lookup_and_invoke S problem_ x w y conv_problem ctx h in
  let cfg := MakeNetworkConfig conv_problem in
  let find := call_FindSolution (solver S) conv_problem ctx (default "" (perf_cfg S)) in
  let looked_up := record (call_GetInvoker cfg (solver S)) h in
  let searched := record find looked_up in
  res.2 = Returned tt →
  ∃ sol inv out,
    FindSolution_ looked_up (solver S) conv_problem ctx (default "" (perf_cfg S))
      = inr sol ∧
    PrepareInvoker_ searched sol = inr inv ∧
    calls res.1 = calls h ++
      [call_GetInvoker cfg (solver S); find; call_PrepareInvoker sol;
       call_RegisterInvoker inv cfg (ToString (solver S));
       call_invoke inv ctx] ++ out ∧
    invokers res.1 = <[(cfg, ToString (solver S)) := inv]> (invokers h) ∧
    Forall (λ c, is_numerics c = true) out.
Proof.
  intros Hmiss. unfold lookup_and_invoke, bind, GetInvoker, GetSolver. simpl.
  rewrite Hmiss. unfold FindSolution, PrepareInvoker, RegisterInvoker, invoke, call.
  simpl.
  destruct (FindSolution_ _ _ _ _ _) as [e|sol] eqn:Hfind; simpl; [done|].
  destruct (PrepareInvoker_ _ sol) as [e|inv] eqn:Hprep; simpl; [done|].
  rewrite Hmiss.
  destruct (invoke_ _ inv ctx) as [e|[]]; simpl; [done|].
  match goal with |- context [check_numerics_output ?p ?a ?b ?c ?hh] =>
    destruct (quiet_check_numerics_output p a b c hh) as (out & Hc & Hi & Hn & Ht)
  end.
  intros _. exists sol, inv, out.
  rewrite Hc, Hi. simpl. rewrite <- !app_assoc. by split_and!.
Qed.

(** *** After the arguments are resolved *)

Lemma check_backward_shape_cases problem_ w y :
  match check_backward_shape problem_ w y with
  | Returned _ =>
      GetDirection problem_ = miopenProblemDirectionBackward →
      ∃ yd wd c, descriptor y = Some yd ∧ descriptor w = Some wd ∧
        GetLengths yd !! 1 = Some c ∧ GetLengths wd !! 0 = Some c
  | Thrown e =>
      e = InvalidShape ∧ GetDirection problem_ = miopenProblemDirectionBackward ∧
      ∃ yd wd c k, descriptor y = Some yd ∧ descriptor w = Some wd ∧
        GetLengths yd !! 1 = Some c ∧ GetLengths wd !! 0 = Some k ∧ c ≠ k
  | Propagated _ => False
  | Undefined => GetDirection problem_ = miopenProblemDirectionBackward
  end.
Proof.
  unfold check_backward_shape, index, MIOPEN_THROW.
  destruct (decide (GetDirection problem_ = _)) as [Hd|Hd]; [|done].
  destruct (descriptor y) as [yd|]; simpl; [|done].
  destruct (GetLengths yd !! 1) as [c|] eqn:Hc; simpl; [|done].
  destruct (descriptor w) as [wd|]; simpl; [|done].
  destruct (GetLengths wd !! 0) as [k|] eqn:Hk; simpl; [|done].
  destruct (decide (c ≠ k)) as [Hne|Heq].
  - repeat split; auto. exists yd, wd, c, k. auto.
  - intros _. apply dec_stable in Heq as <-. exists yd, wd, c. auto.
Qed.

Lemma make_invoke_ctx_cases problem_ x w y workspace workspace_size conv_problem xd wd yd :
  descriptor x = Some xd → descriptor w = Some wd → descriptor y = Some yd →
  let alt := gfx90aFp16alt (attribute (GetConv conv_problem)) in
  let r := make_invoke_ctx problem_ x w y workspace workspace_size conv_problem in
  (GetDirection problem_ = miopenProblemDirectionForward ∧
   r = Returned (DataInvokeParams
         (MkConvDataTensors xd (buffer x) wd (buffer w) yd (buffer y))
         workspace workspace_size (GetFwd alt))) ∨
  (GetDirection problem_ = miopenProblemDirectionBackward ∧
   r = Returned (DataInvokeParams
         (MkConvDataTensors yd (buffer y) wd (buffer w) xd (buffer x))
         workspace workspace_size (GetBwd alt))) ∨
  (GetDirection problem_ = miopenProblemDirectionBackwardWeights ∧
   r = Returned (WrWInvokeParams
         (MkConvWrwTensors yd (buffer y) xd (buffer x) wd (buffer w))
         workspace workspace_size (GetWrW alt))) ∨
  (GetDirection problem_ ≠ miopenProblemDirectionForward ∧
   GetDirection problem_ ≠ miopenProblemDirectionBackward ∧
   GetDirection problem_ ≠ miopenProblemDirectionBackwardWeights ∧
   r = Thrown (MkException miopenStatusNotImplemented "")).
Proof.
  intros Hx Hw Hy. simpl. unfold make_invoke_ctx. rewrite Hx, Hw, Hy.
  repeat case_decide; simpl; auto 10.
Qed.

Lemma run_resolved_prepared S workspace workspace_size problem_ x w y h h1 conv_problem :
  prepared problem_ x w y h h1 conv_problem →
  run_resolved S workspace workspace_size problem_ x w y h =
  match make_invoke_ctx problem_ x w y workspace workspace_size conv_problem with
  | Returned ctx => lookup_and_invoke S problem_ x w y conv_problem ctx h1
  | Thrown e => (h1, Thrown e)
  | Propagated e => (h1, Propagated e)
  | Undefined => (h1, Undefined)
  end.
Proof.
  intros (Hs & Hn & Ha & xd & wd & Hx & Hw & Hv).
  unfold run_resolved, bind, lift. rewrite Hs, Hn, Ha, Hx, Hw. simpl. rewrite Hv.
  simpl. by destruct (make_invoke_ctx _ _ _ _ _ _ _).
Qed.

Lemma prepared_quiet problem_ x w y h h1 conv_problem :
  prepared problem_ x w y h h1 conv_problem →
  ∃ new, calls h1 = calls h ++ new ∧ invokers h1 = invokers h ∧
         Forall (λ c, is_numerics c = true) new.
Proof.
  intros (_ & Hn & _).
  destruct (quiet_check_numerics_inputs problem_ x w y h) as (new & Hc & Hi & Hf & _).
  rewrite Hn in Hc, Hi. eauto.
Qed.

(** Either [run_resolved] throws the shape exception at once, or it stops
    without an exception of its own after numerics calls only, or it gets
    to build the invocation parameters. *)
Lemma run_resolved_cases S workspace workspace_size problem_ x w y h :
  let res := run_resolved S workspace workspace_size problem_ x w y h in
  (res = (h, Thrown InvalidShape) ∧
   check_backward_shape problem_ w y = Thrown InvalidShape) ∨
  ((∀ e, res.2 ≠ Thrown e) ∧ res.2 ≠ Returned tt ∧ invokers res.1 = invokers h ∧
   ∃ new, calls res.1 = calls h ++ new ∧ Forall (λ c, is_numerics c = true) new) ∨
  (∃ h1 conv_problem, prepared problem_ x w y h h1 conv_problem).
Proof.
  simpl.
  pose proof (check_backward_shape_cases problem_ w y) as Hs.
  destruct (check_backward_shape problem_ w y) as [[]|e| |] eqn:Es; [| | done |].
  2:{ left. destruct Hs as [-> _]. unfold run_resolved, bind, lift.
      by rewrite Es. }
  2:{ right; left. unfold run_resolved, bind, lift. rewrite Es. simpl.
      repeat split; auto. exists []. by rewrite app_nil_r. }
  destruct (quiet_check_numerics_inputs problem_ x w y h) as (nin & Hc & Hi & Hf & Ht).
  destruct (check_numerics_inputs problem_ x w y h) as [h1 r1] eqn:En. simpl in *.
  assert (∀ r : outcome unit, (∀ e, r ≠ Thrown e) → r ≠ Returned tt →
            run_resolved S workspace workspace_size problem_ x w y h = (h1, r) →
            (∀ e, (run_resolved S workspace workspace_size problem_ x w y h).2 ≠ Thrown e) ∧
            (run_resolved S workspace workspace_size problem_ x w y h).2 ≠ Returned tt ∧
            invokers (run_resolved S workspace workspace_size problem_ x w y h).1
              = invokers h ∧
            ∃ new, calls (run_resolved S workspace workspace_size problem_ x w y h).1
                     = calls h ++ new ∧ Forall (λ c, is_numerics c = true) new) as Hstop.
  { intros r Hr1 Hr2 ->. simpl. eauto 10. }
  destruct r1 as [[]|e|f|].
  2:{ by destruct (Ht e). }
  2:{ right; left. apply (Hstop (Propagated f)); [done..|].
      unfold run_resolved, bind, lift. by rewrite Es, En. }
  2:{ right; left. apply (Hstop Undefined); [done..|].
      unfold run_resolved, bind, lift. by rewrite Es, En. }
  destruct (AsConvolution problem_) as [f|conv_problem] eqn:Ea.
  { right; left. apply (Hstop (Propagated f)); [done..|].
    unfold run_resolved, bind, lift. by rewrite Es, En, Ea. }
  destruct (descriptor x) as [xd|] eqn:Ex.
  2:{ right; left. apply (Hstop Undefined); [done..|].
      unfold run_resolved, bind, lift. by rewrite Es, En, Ea, Ex. }
  destruct (descriptor w) as [wd|] eqn:Ew.
  2:{ right; left. apply (Hstop Undefined); [done..|].
      unfold run_resolved, bind, lift. by rewrite Es, En, Ea, Ex, Ew. }
  destruct (ValidateGroupCount xd wd (GetConv conv_problem)) as [f|[]] eqn:Ev.
  { right; left. apply (Hstop (Propagated f)); [done..|].
    unfold run_resolved, bind, lift. rewrite Es, En, Ea, Ex, Ew. simpl.
    by rewrite Ev. }
  right; right. exists h1, conv_problem. repeat split; auto. exists xd, wd. auto.
Qed.

Lemma lookup_and_invoke_not_thrown S problem_ x w y conv_problem ctx h e :
  (lookup_and_invoke S problem_ x w y conv_problem ctx h).2 ≠ Thrown e.
Proof.
  destruct (invokers h !! (MakeNetworkConfig conv_problem, ToString (solver S)))
    as [inv|] eqn:Hk.
  - destruct (lookup_and_invoke_hit S problem_ x w y conv_problem ctx h inv Hk)
      as (? & _ & _ & _ & Ht). apply Ht.
  - destruct (lookup_and_invoke_miss S problem_ x w y conv_problem ctx h Hk) as [Ht _].
    apply Ht.
Qed.

(** *** The fused path *)

Lemma buffer_getter_cases inputs id d :
  match buffer_getter inputs id d with
  | Returned b =>
      ∃ found, inputs !! id = Some found ∧ b = buffer found ∧
        (descriptor found = None ∨ descriptor found = Some d)
  | Thrown e =>
      (MissingArgument e ∧ inputs !! id = None) ∨
      (Unsupported e ∧ ∃ found d', inputs !! id = Some found ∧
         descriptor found = Some d' ∧ d' ≠ d)
  | _ => False
  end.
Proof.
  unfold buffer_getter, MIOPEN_THROW.
  destruct (inputs !! id) as [[[d'|] b]|]; simpl.
  - destruct (decide (d' ≠ d)) as [Hne|Heq].
    + right. split; [done|]. eauto.
    + apply dec_stable in Heq as ->. eauto.
  - eauto.
  - by left.
Qed.

Lemma bind_arguments_thrown getter args e :
  (∀ id d, match getter id d with Returned _ | Thrown _ => True | _ => False end) →
  bind_arguments getter args = Thrown e ↔
  ∃ pre id d post, args = pre ++ (id, d) :: post ∧
    Forall (λ a, ∃ b, getter a.1 a.2 = Returned b) pre ∧ getter id d = Thrown e.
Proof.
  intros Hg. induction args as [|[id d] args IH]; simpl.
  - split; [done|]. intros (pre & ? & ? & ? & Hl & _). by destruct pre.
  - specialize (Hg id d). destruct (getter id d) as [b|e'| |] eqn:Eg; simpl; try done.
    + assert ((try* bs := bind_arguments getter args in Returned (b :: bs)) = Thrown e
              ↔ bind_arguments getter args = Thrown e) as ->.
      { destruct (bind_arguments getter args); simpl; split; congruence. }
      rewrite IH. split.
      * intros (pre & id' & d' & post & -> & Hpre & Ht).
        exists ((id, d) :: pre), id', d', post. repeat split; auto.
        apply Forall_cons. split; eauto.
      * intros (pre & id' & d' & post & Hl & Hpre & Ht).
        destruct pre as [|a pre]; simplify_eq/=; [congruence|].
        apply Forall_cons in Hpre as [_ Hpre]. eauto 10.
    + split.
      * intros [= ->]. exists [], id, d, args. auto.
      * intros (pre & id' & d' & post & Hl & Hpre & Ht).
        destruct pre as [|a pre]; simplify_eq/=; [congruence|].
        apply Forall_cons in Hpre as [[b Hb] _]. simpl in *. congruence.
Qed.

Lemma buffer_getter_total inputs id d :
  match buffer_getter inputs id d with Returned _ | Thrown _ => True | _ => False end.
Proof.
  pose proof (buffer_getter_cases inputs id d). by destruct (buffer_getter inputs id d).
Qed.

(** The fused [RunImpl] throws exactly what binding the arguments throws,
    before anything is done on the handle. *)
Lemma RunImpl_fused_thrown S inputs workspace workspace_size fp h h' e :
  RunImpl_fused S inputs workspace workspace_size fp h = (h', Thrown e) ↔
  h' = h ∧ bind_arguments (buffer_getter inputs) (bindings fp) = Thrown e.
Proof.
  unfold RunImpl_fused, MakeInvokeParams, bind, lift.
  destruct (bind_arguments (buffer_getter inputs) (bindings fp)) as [bs|e'| |];
    simpl; [| split; [by intros [= -> ->]|by intros [-> [= ->]]] | split; [done|by intros [_ ?]] ..].
  split; [|by intros [_ ?]]. intros Hr. exfalso.
  destruct (AsFusionPlan fp) as [?|plan]; simpl in Hr; [done|].
  unfold GetInvoker, GetSolver, invoke, MakeFusedSolution, PrepareInvoker,
    RegisterInvoker, call in Hr. simpl in Hr.
  destruct (invokers h !! _); [by destruct (invoke_ _ _ _)|].
  destruct (MakeFusedSolution_ _ _ _ _ _); simpl in Hr; [done|].
  destruct (PrepareInvoker_ _ _); simpl in Hr; [done|].
  by destruct (invoke_ _ _ _).
Qed.

(** *** Unfolding [Run] *)

Lemma Run_insufficient S inputs workspace workspace_size h :
  (workspace_size < workspace_required S)%N →
  Run S inputs workspace workspace_size h = (h, Thrown (InsufficientWorkspace S workspace_size)).
Proof. intros Hw. unfold Run. by rewrite decide_True. Qed.

Lemma Run_sufficient S inputs workspace workspace_size h :
  ¬ (workspace_size < workspace_required S)%N →
  Run S inputs workspace workspace_size h = dispatch S inputs workspace workspace_size h.
Proof. intros Hw. unfold Run. by rewrite decide_False. Qed.

Lemma dispatch_conv S inputs workspace workspace_size h p conv_desc :
  problem S = ItemProblem p → GetOperatorDescriptor p = OpConvolution conv_desc →
  dispatch S inputs workspace workspace_size h =
  match resolve_arguments p inputs conv_desc with
  | Returned (problem_, x, w, y) => run_resolved S workspace workspace_size problem_ x w y h
  | Thrown e => (h, Thrown e)
  | Propagated f => (h, Propagated f)
  | Undefined => (h, Undefined)
  end.
Proof.
  intros Hp Hop. unfold dispatch, RunImpl_conv, bind, lift. rewrite Hp, Hop. simpl.
  by destruct (resolve_arguments p inputs conv_desc) as [[[[? ?] ?] ?]| | |].
Qed.

Lemma dispatch_fused S inputs workspace workspace_size h fp :
  problem S = ItemFusedProblem fp →
  dispatch S inputs workspace workspace_size h =
  RunImpl_fused S inputs workspace workspace_size fp h.
Proof. intros Hp. unfold dispatch. by rewrite Hp. Qed.

Lemma dispatch_standalone S inputs workspace workspace_size h p :
  problem S = ItemProblem p →
  (∀ conv_desc, GetOperatorDescriptor p ≠ OpConvolution conv_desc) →
  dispatch S inputs workspace workspace_size h =
  (h, Thrown (MkException miopenStatusNotImplemented "")).
Proof.
  intros Hp Hop. unfold dispatch. rewrite Hp.
  destruct (GetOperatorDescriptor p) as [cd| |]; [by destruct (Hop cd)|done..].
Qed.

(** What [Run] can throw once the workspace is large enough, and what it
    has done on the handle by then. *)
Lemma dispatch_thrown S inputs workspace workspace_size h h' e :
  dispatch S inputs workspace workspace_size h = (h', Thrown e) →
  (MissingArgument e ∧ h' = h) ∨
  (e = InvalidShape ∧ h' = h) ∨
  (Unsupported e ∧ invokers h' = invokers h ∧
   ∃ new, calls h' = calls h ++ new ∧ Forall (λ c, is_numerics c = true) new).
Proof.
  destruct (problem S) as [p|fp] eqn:Hp.
  - destruct (GetOperatorDescriptor p) as [cd|ad|bd] eqn:Hop.
    + rewrite (dispatch_conv S inputs workspace workspace_size h p cd Hp Hop).
      pose proof (resolve_arguments_cases p inputs cd) as Hres.
      destruct (resolve_arguments p inputs cd) as [[[[problem_ x] w] y]|e'|f|] eqn:Er;
        [|intros [= -> ->]; auto|done..].
      destruct Hres as ([xd Hx] & [wd Hw] & [yd Hy]).
      destruct (run_resolved_cases S workspace workspace_size problem_ x w y h)
        as [[Hr _]|[(Hnt & _)|(h1 & conv_problem & Hprep)]].
      * rewrite Hr. intros [= -> ->]. auto.
      * intros Hr. rewrite Hr in Hnt. by destruct (Hnt e).
      * rewrite (run_resolved_prepared _ _ _ _ _ _ _ _ _ _ Hprep).
        destruct (prepared_quiet _ _ _ _ _ _ _ Hprep) as (new & Hc & Hi & Hf).
        destruct (make_invoke_ctx_cases problem_ x w y workspace workspace_size
                    conv_problem xd wd yd Hx Hw Hy)
          as [[_ ->]|[[_ ->]|[[_ ->]|(_ & _ & _ & ->)]]].
        1-3: intros Hr;
          match type of Hr with
          | lookup_and_invoke ?a ?b ?c ?d ?f ?g ?i ?j = _ =>
              destruct (lookup_and_invoke_not_thrown a b c d f g i j e); by rewrite Hr
          end.
        intros [= -> <-]. right; right. repeat split; eauto.
    + rewrite (dispatch_standalone S inputs workspace workspace_size h p Hp)
        by (intros ?; congruence).
      intros [= -> <-]. right; right. repeat split; auto.
      exists []. by rewrite app_nil_r.
    + rewrite (dispatch_standalone S inputs workspace workspace_size h p Hp)
        by (intros ?; congruence).
      intros [= -> <-]. right; right. repeat split; auto.
      exists []. by rewrite app_nil_r.
  - rewrite (dispatch_fused S inputs workspace workspace_size h fp Hp).
    intros [-> Hb]%RunImpl_fused_thrown.
    apply bind_arguments_thrown in Hb as (pre & id & d & post & _ & _ & Hg);
      [|apply buffer_getter_total].
    pose proof (buffer_getter_cases inputs id d) as Hc. rewrite Hg in Hc.
    destruct Hc as [[Hm _]|[Hu _]]; [by left|].
    right; right. repeat split; auto. exists []. by rewrite app_nil_r.
Qed.

Lemma append_empty (s1 s2 : string) : s1 +:+ s2 = "" → s2 = "".
Proof. by destruct s1. Qed.

Lemma InsufficientWorkspace_not_InvalidShape S workspace_size :
  InsufficientWorkspace S workspace_size ≠ InvalidShape.
Proof.
  unfold InsufficientWorkspace, InvalidShape, workspace_message.
  intros [= Hm]. by apply append_empty in Hm.
Qed.

(** C2 -- Workspace check.  [Run] throws the insufficient-workspace
    exception if and only if the workspace size passed is smaller than
    the one the solution requires; when it does, the handle is untouched
    and neither the inputs nor the problem have been looked at: the same
    exception comes out for every input mapping. *)
Theorem Run_workspace_check S inputs workspace workspace_size h :
  ((Run S inputs workspace workspace_size h).2
     = Thrown (InsufficientWorkspace S workspace_size)
   ↔ (workspace_size < workspace_required S)%N) ∧
  ((workspace_size < workspace_required S)%N →
   ∀ inputs' workspace',
     Run S inputs' workspace' workspace_size h
       = (h, Thrown (InsufficientWorkspace S workspace_size))).
Proof.
  split; [split|].
  - intros Hr. destruct (decide (workspace_size < workspace_required S)%N) as [|Hw];
      [done|exfalso].
    rewrite Run_sufficient in Hr by done.
    destruct (dispatch S inputs workspace workspace_size h) as [h' r] eqn:Ed.
    simpl in Hr. subst r.
    apply dispatch_thrown in Ed as [[Hm _]|[[He _]|[Hu _]]].
    + by cbv in Hm.
    + by apply InsufficientWorkspace_not_InvalidShape in He.
    + by cbv in Hu.
  - intros Hw. by rewrite Run_insufficient.
  - intros Hw inputs' workspace'. by apply Run_insufficient.
Qed.

Lemma resolve_arguments_missing p inputs conv_desc :
  inputs !! miopenTensorConvolutionX = None ∨
  inputs !! miopenTensorConvolutionW = None ∨
  inputs !! miopenTensorConvolutionY = None →
  ∃ e, resolve_arguments p inputs conv_desc = Thrown e ∧ MissingArgument e.
Proof.
  intros Hmiss. unfold resolve_arguments.
  pose proof (get_input_checked_cases p inputs miopenTensorConvolutionX
                "miopenTensorConvolutionX") as Hx.
  pose proof (get_input_checked_cases p inputs miopenTensorConvolutionW
                "miopenTensorConvolutionW") as Hw.
  pose proof (get_input_checked_cases p inputs miopenTensorConvolutionY
                "miopenTensorConvolutionY") as Hy.
  destruct (get_input_checked p inputs miopenTensorConvolutionX _) as [x|e| |];
    simpl; [|by destruct Hx; eauto|done..].
  destruct (get_input_checked p inputs miopenTensorConvolutionW _) as [w|e| |];
    simpl; [|by destruct Hw; eauto|done..].
  destruct (get_input_checked p inputs miopenTensorConvolutionY _) as [y|e| |];
    simpl; [|by destruct Hy; eauto|done..].
  destruct Hx as (? & Hx & _), Hw as (? & Hw & _), Hy as (? & Hy & _).
  destruct Hmiss as [?|[?|?]]; congruence.
Qed.

(** C7 -- Argument resolution.  [get_input_checked] throws the
    missing-argument exception when the id is absent from the inputs;
    when the input found has no descriptor it takes the descriptor the
    problem registered under the id, and throws the missing-argument
    exception if there is none; an input that carries a descriptor is
    returned as it is.  The buffer lookup of the fused path throws the
    same kind of exception for an absent id.  Whenever [Run] ends with a
    missing-argument exception the handle is as it was before the call:
    nothing was looked up, prepared or invoked.  And [Run] on a
    convolution with enough workspace does end that way when one of the
    three ids is absent. *)
Theorem missing_argument S inputs workspace workspace_size h p name name_str :
  (inputs !! name = None →
   ∃ e, get_input_checked p inputs name name_str = Thrown e ∧ MissingArgument e) ∧
  (∀ found, inputs !! name = Some found → descriptor found = None →
     match tensor_descriptors p !! name with
     | Some d =>
         get_input_checked p inputs name name_str
           = Returned (MkRunInput (Some d) (buffer found))
     | None =>
         ∃ e, get_input_checked p inputs name name_str = Thrown e ∧ MissingArgument e
     end) ∧
  (∀ found, inputs !! name = Some found → is_Some (descriptor found) →
     get_input_checked p inputs name name_str = Returned found) ∧
  (∀ d, inputs !! name = None →
     ∃ e, buffer_getter inputs name d = Thrown e ∧ MissingArgument e) ∧
  (∀ h' e, Run S inputs workspace workspace_size h = (h', Thrown e) →
     MissingArgument e → h' = h ∧ new_calls h h' = []) ∧
  (∀ conv_desc,
     problem S = ItemProblem p → GetOperatorDescriptor p = OpConvolution conv_desc →
     ¬ (workspace_size < workspace_required S)%N →
     inputs !! miopenTensorConvolutionX = None ∨
     inputs !! miopenTensorConvolutionW = None ∨
     inputs !! miopenTensorConvolutionY = None →
     ∃ e, Run S inputs workspace workspace_size h = (h, Thrown e) ∧ MissingArgument e).
Proof.
  split_and!.
  - intros Hn. unfold get_input_checked, MIOPEN_THROW. rewrite Hn. by eexists.
  - intros found Hf Hd. unfold get_input_checked, GetTensorDescriptorChecked, MIOPEN_THROW.
    rewrite Hf. simpl. rewrite Hd.
    destruct (tensor_descriptors p !! name); simpl; [done|by eexists].
  - intros found Hf [d Hd]. unfold get_input_checked. rewrite Hf. simpl. by rewrite Hd.
  - intros d Hn. unfold buffer_getter, MIOPEN_THROW. rewrite Hn. by eexists.
  - intros h' e Hr He.
    assert (h' = h) as ->; [|split; [done|unfold new_calls; by rewrite drop_all]].
    destruct (decide (workspace_size < workspace_required S)%N) as [Hw|Hw].
    + rewrite Run_insufficient in Hr by done. by simplify_eq.
    + rewrite Run_sufficient in Hr by done.
      apply dispatch_thrown in Hr as [[_ ?]|[[-> _]|[Hu _]]]; [done|by cbv in He|].
      unfold MissingArgument, Unsupported in *. congruence.
  - intros cd Hp Hop Hw Hmiss. rewrite Run_sufficient by done.
    rewrite (dispatch_conv S inputs workspace workspace_size h p cd Hp Hop).
    destruct (resolve_arguments_missing p inputs cd Hmiss) as (e & -> & He). eauto.
Qed.

Lemma new_calls_app h h' new : calls h' = calls h ++ new → new_calls h h' = new.
Proof. unfold new_calls. intros ->. by rewrite drop_app_length. Qed.

(** C8 -- Backward shape check.  For a convolution whose arguments
    resolve (after the transposition, if any) with enough workspace: when
    the resolved direction is Backward and length 1 of y differs from
    length 0 of w, [Run] throws the invalid-shape exception with the handle
    untouched, hence before any cache lookup or invocation; when the
    resolved direction is not Backward, [Run] never throws it; and it is
    thrown only on such a mismatch. *)
Theorem backward_shape_check S inputs workspace workspace_size h p conv_desc problem_ x w y :
  problem S = ItemProblem p → GetOperatorDescriptor p = OpConvolution conv_desc →
  ¬ (workspace_size < workspace_required S)%N →
  resolve_arguments p inputs conv_desc = Returned (problem_, x, w, y) →
  (GetDirection problem_ = miopenProblemDirectionBackward →
   ∀ yd wd c k, descriptor y = Some yd → descriptor w = Some wd →
     GetLengths yd !! 1 = Some c → GetLengths wd !! 0 = Some k → c ≠ k →
     Run S inputs workspace workspace_size h = (h, Thrown InvalidShape)) ∧
  (GetDirection problem_ ≠ miopenProblemDirectionBackward →
   (Run S inputs workspace workspace_size h).2 ≠ Thrown InvalidShape) ∧
  ((Run S inputs workspace workspace_size h).2 = Thrown InvalidShape →
   GetDirection problem_ = miopenProblemDirectionBackward ∧
   ∃ yd wd c k, descriptor y = Some yd ∧ descriptor w = Some wd ∧
     GetLengths yd !! 1 = Some c ∧ GetLengths wd !! 0 = Some k ∧ c ≠ k).
Proof.
  intros Hp Hop Hw Hres. rewrite Run_sufficient by done.
  rewrite (dispatch_conv S inputs workspace workspace_size h p conv_desc Hp Hop), Hres.
  assert ((run_resolved S workspace workspace_size problem_ x w y h).2 = Thrown InvalidShape →
          check_backward_shape problem_ w y = Thrown InvalidShape) as Honly.
  { pose proof (resolve_arguments_cases p inputs conv_desc) as Hd. rewrite Hres in Hd.
    destruct Hd as ([xd Hx] & [wd Hwd] & [yd Hy]).
    destruct (run_resolved_cases S workspace workspace_size problem_ x w y h)
      as [[_ Hs]|[(Hnt & _)|(h1 & conv_problem & Hprep)]]; [done|by intros ?%Hnt|].
    rewrite (run_resolved_prepared _ _ _ _ _ _ _ _ _ _ Hprep).
    destruct (make_invoke_ctx_cases problem_ x w y workspace workspace_size
                conv_problem xd wd yd Hx Hwd Hy)
      as [[_ ->]|[[_ ->]|[[_ ->]|(_ & _ & _ & ->)]]]; [| | |done];
      intros ?%lookup_and_invoke_not_thrown; done. }
  pose proof (check_backward_shape_cases problem_ w y) as Hcases.
  split_and!.
  - intros Hd yd wd c k Hy Hwd Hc Hk Hne.
    unfold run_resolved, bind, lift, check_backward_shape, index, MIOPEN_THROW.
    rewrite decide_True by done. rewrite Hy, Hwd. simpl. rewrite Hc, Hk. simpl.
    by rewrite decide_True.
  - intros Hd Hr. apply Honly in Hr. rewrite Hr in Hcases. by destruct Hcases as (_ & ? & _).
  - intros Hr. apply Honly in Hr. rewrite Hr in Hcases. by destruct Hcases as (_ & ? & ?).
Qed.

(** *** The calls of a resolved convolution run *)

(** Every way [run_resolved] can go, with the calls it adds and what
    becomes of the cache. *)
Lemma run_resolved_trace S workspace workspace_size problem_ x w y h xd wd yd :
  descriptor x = Some xd → descriptor w = Some wd → descriptor y = Some yd →
  let res := run_resolved S workspace workspace_size problem_ x w y h in
  (res.2 ≠ Returned tt ∧ invokers res.1 = invokers h ∧
   ∃ new, calls res.1 = calls h ++ new ∧ Forall (λ c, is_numerics c = true) new) ∨
  (∃ h1 conv_problem ctx nin,
     prepared problem_ x w y h h1 conv_problem ∧
     make_invoke_ctx problem_ x w y workspace workspace_size conv_problem = Returned ctx ∧
     Forall (λ c, is_numerics c = true) nin ∧
     (∀ e, res.2 ≠ Thrown e) ∧
     let cfg := MakeNetworkConfig conv_problem in
     let name := ToString (solver S) in
     let get := call_GetInvoker cfg (solver S) in
     let find := call_FindSolution (solver S) conv_problem ctx (default "" (perf_cfg S)) in
     (∃ inv out,
        invokers h !! (cfg, name) = Some inv ∧
        calls res.1 = calls h ++ nin ++ [get; call_invoke inv ctx] ++ out ∧
        Forall (λ c, is_numerics c = true) out ∧
        invokers res.1 = invokers h) ∨
     (invokers h !! (cfg, name) = None ∧ res.2 ≠ Returned tt ∧
      invokers res.1 = invokers h ∧
      (calls res.1 = calls h ++ nin ++ [get; find] ∨
       ∃ sol, calls res.1 = calls h ++ nin ++ [get; find; call_PrepareInvoker sol])) ∨
     (∃ sol inv out,
        invokers h !! (cfg, name) = None ∧
        calls res.1 = calls h ++ nin ++
          [get; find; call_PrepareInvoker sol; call_RegisterInvoker inv cfg name;
           call_invoke inv ctx] ++ out ∧
        Forall (λ c, is_numerics c = true) out ∧
        invokers res.1 = <[(cfg, name) := inv]> (invokers h))).
Proof.
  intros Hx Hw Hy. simpl.
  destruct (run_resolved_cases S workspace workspace_size problem_ x w y h)
    as [[Hr _]|[(Hnt & Hnr & Hi & new & Hc & Hf)|(h1 & conv_problem & Hprep)]].
  { left. rewrite Hr. simpl. repeat split; auto. exists []. by rewrite app_nil_r. }
  { left. eauto. }
  rewrite (run_resolved_prepared _ _ _ _ _ _ _ _ _ _ Hprep).
  destruct (prepared_quiet _ _ _ _ _ _ _ Hprep) as (nin & Hc1 & Hi1 & Hf1).
  destruct (make_invoke_ctx_cases problem_ x w y workspace workspace_size
              conv_problem xd wd yd Hx Hw Hy)
    as [[_ Hctx]|[[_ Hctx]|[[_ Hctx]|(_ & _ & _ & Hctx)]]]; simpl in Hctx; rewrite Hctx.
  4:{ left. simpl. repeat split; eauto. }
  all: right; eexists h1, conv_problem, _, nin;
    split; [done|]; split; [done|]; split; [done|];
    split; [apply lookup_and_invoke_not_thrown|].
  all: match goal with
       |- context [lookup_and_invoke ?S ?p ?x ?w ?y ?conv_problem ?ctx ?h1] =>
         destruct (invokers h1 !! (MakeNetworkConfig conv_problem, ToString (solver S)))
           as [inv|] eqn:Hk;
         [ destruct (lookup_and_invoke_hit S p x w y conv_problem ctx h1 inv Hk)
             as (out & Hc & Hi & Hf & _)
         | destruct (lookup_and_invoke_miss S p x w y conv_problem ctx h1 Hk)
             as (_ & [(ex & Hr & Hi & Hc)|(sol & inv & out & Hc & Hi & Hf)]) ]
       end.
  all: rewrite Hi1 in Hk; try rewrite Hi1 in Hi.
  1,4,7: left; exists inv, out; rewrite Hc, Hc1, <- !app_assoc; by repeat split.
  1,3,5: right; left; split; [done|]; split; [by rewrite Hr|]; split; [done|];
    destruct Hc as [Hc|[sol Hc]]; rewrite Hc, Hc1, <- !app_assoc; eauto.
  all: right; right; exists sol, inv, out; rewrite Hc, Hc1, <- !app_assoc;
    by repeat split.
Qed.

(** A call cannot belong to a list of calls of another kind. *)
Ltac absurd_member :=
  match goal with
  | Hf : Forall (λ c, is_numerics c = true) ?l, Hin : _ ∈ ?l |- _ =>
      rewrite Forall_forall in Hf; by apply Hf in Hin
  | Hf : ∀ x, x ∈ ?l → _, Hin : _ ∈ ?l |- _ => by apply Hf in Hin
  end.

Lemma filter_invoke_numerics l :
  Forall (λ c, is_numerics c = true) l → filter (λ c, is_invoke c = true) l = [].
Proof.
  induction 1 as [|c l Hc _ IH]; [done|].
  rewrite filter_cons_False; [done|]. by destruct c.
Qed.

Lemma make_invoke_ctx_spec problem_ x w y workspace workspace_size conv_problem xd wd yd :
  descriptor x = Some xd → descriptor w = Some wd → descriptor y = Some yd →
  make_invoke_ctx problem_ x w y workspace workspace_size conv_problem =
  match spec_invocation_parameters (GetDirection problem_)
          (xd, buffer x) (wd, buffer w) (yd, buffer y) workspace workspace_size
          (gfx90aFp16alt (attribute (GetConv conv_problem))) with
  | Some params => Returned params
  | None => Thrown (MkException miopenStatusNotImplemented "")
  end.
Proof.
  intros Hx Hw Hy. unfold make_invoke_ctx, spec_invocation_parameters.
  rewrite Hx, Hw, Hy. by repeat case_decide.
Qed.

(** C4 -- Invocation parameters.  For a convolution whose arguments
    resolve to x, w, y (after the transposition, if any): the parameters
    [RunImpl] builds are those of the specification -- Forward: (x, w, y)
    with the forward flag; Backward: (y, w, x) with the backward flag;
    BackwardWeights: (y, x, w) with the backward-weights flag; each with
    the workspace and its size, the flags being those of the convolution
    descriptor of the problem's convolution view -- and these are the
    parameters of every invocation and of every solver search [Run]
    performs; a [Run] that returns has invoked exactly once. *)
Theorem invocation_parameters S inputs workspace workspace_size h p conv_desc
    problem_ x w y xd wd yd :
  problem S = ItemProblem p → GetOperatorDescriptor p = OpConvolution conv_desc →
  ¬ (workspace_size < workspace_required S)%N →
  resolve_arguments p inputs conv_desc = Returned (problem_, x, w, y) →
  descriptor x = Some xd → descriptor w = Some wd → descriptor y = Some yd →
  let built conv_problem :=
    spec_invocation_parameters (GetDirection problem_)
      (xd, buffer x) (wd, buffer w) (yd, buffer y) workspace workspace_size
      (gfx90aFp16alt (attribute (GetConv conv_problem))) in
  let res := Run S inputs workspace workspace_size h in
  (∀ conv_problem,
     make_invoke_ctx problem_ x w y workspace workspace_size conv_problem =
     match built conv_problem with
     | Some params => Returned params
     | None => Thrown (MkException miopenStatusNotImplemented "")
     end) ∧
  (∀ inv params, call_invoke inv params ∈ new_calls h res.1 →
     ∃ conv_problem, AsConvolution problem_ = inr conv_problem ∧
       built conv_problem = Some params) ∧
  (∀ id conv_problem params cfg,
     call_FindSolution id conv_problem params cfg ∈ new_calls h res.1 →
     AsConvolution problem_ = inr conv_problem ∧ built conv_problem = Some params) ∧
  (res.2 = Returned tt →
   ∃ inv params,
     filter (λ c, is_invoke c = true) (new_calls h res.1) = [call_invoke inv params]).
Proof.
  intros Hp Hop Hws Hres Hx Hw Hy built. simpl.
  rewrite Run_sufficient by done.
  rewrite (dispatch_conv S inputs workspace workspace_size h p conv_desc Hp Hop), Hres.
  split; [intros cp; by apply make_invoke_ctx_spec|].
  destruct (run_resolved_trace S workspace workspace_size problem_ x w y h xd wd yd Hx Hw Hy)
    as [(Hnr & _ & new & Hc & Hf)
       |(h1 & cp & ctx & nin & Hprep & Hctx & Hnin & _ & Hcases)].
  { rewrite (new_calls_app _ _ _ Hc). split_and!.
    - intros inv params Hin. absurd_member.
    - intros id cp params cfg Hin. absurd_member.
    - done. }
  assert (built cp = Some ctx) as Hbuilt.
  { rewrite (make_invoke_ctx_spec _ _ _ _ _ _ _ xd wd yd) in Hctx by done.
    fold (built cp) in Hctx. by destruct (built cp); simplify_eq. }
  assert (AsConvolution problem_ = inr cp) as Hcp by apply Hprep.
  destruct Hcases as [(inv & out & _ & Hc & Hout & _)
                     |[(_ & Hnr & _ & Hc)|(sol & inv & out & _ & Hc & Hout & _)]].
  - rewrite (new_calls_app _ _ _ Hc). split_and!.
    + intros inv' params Hin. exists cp. split; [done|].
      set_unfold in Hin. destruct_or!; simplify_eq; try done; absurd_member.
    + intros id cp' params cfg Hin. exfalso.
      set_unfold in Hin. destruct_or!; simplify_eq; absurd_member.
    + intros _. exists inv, ctx.
      rewrite !filter_app, (filter_invoke_numerics nin), (filter_invoke_numerics out)
        by done.
      rewrite filter_cons_False by done. by rewrite filter_cons_True.
  - assert (∃ rest, new_calls h (run_resolved S workspace workspace_size problem_ x w y h).1
                    = nin ++ [call_GetInvoker (MakeNetworkConfig cp) (solver S);
                              call_FindSolution (solver S) cp ctx (default "" (perf_cfg S))]
                          ++ rest ∧
                    Forall (λ c, is_PrepareInvoker c = true) rest) as (rest & -> & Hrest).
    { destruct Hc as [Hc|[sol Hc]]; rewrite (new_calls_app _ _ _ Hc).
      - exists []. by rewrite app_nil_r.
      - exists [call_PrepareInvoker sol]. split; [done|]. by repeat constructor. }
    rewrite Forall_forall in Hrest. split_and!.
    + intros inv' params Hin. exfalso.
      set_unfold in Hin. destruct_or!; simplify_eq; absurd_member.
    + intros id cp' params cfg Hin.
      set_unfold in Hin. destruct_or!; simplify_eq; try done; absurd_member.
    + done.
  - rewrite (new_calls_app _ _ _ Hc). split_and!.
    + intros inv' params Hin. exists cp. split; [done|].
      set_unfold in Hin. destruct_or!; simplify_eq; try done; absurd_member.
    + intros id cp' params cfg Hin.
      set_unfold in Hin. destruct_or!; simplify_eq; try done; absurd_member.
    + intros _. exists inv, ctx.
      rewrite !filter_app, (filter_invoke_numerics nin), (filter_invoke_numerics out)
        by done.
      rewrite !filter_cons_False by done. by rewrite filter_cons_True.
Qed.

(** *** Transposition *)

Lemma swap_X_Y_lookup inputs :
  swap_X_Y inputs !! miopenTensorConvolutionX = inputs !! miopenTensorConvolutionY ∧
  swap_X_Y inputs !! miopenTensorConvolutionW = inputs !! miopenTensorConvolutionW ∧
  swap_X_Y inputs !! miopenTensorConvolutionY = inputs !! miopenTensorConvolutionX.
Proof.
  unfold swap_X_Y. split_and!.
  - by rewrite lookup_partial_alter_eq.
  - by rewrite !lookup_partial_alter_ne.
  - rewrite lookup_partial_alter_ne by done. by rewrite lookup_partial_alter_eq.
Qed.

(** Resolving against a problem that registers, under the id, the
    descriptor an input was resolved with gives that input back. *)
Lemma get_input_checked_registered p p' inputs inputs' name name' str str' r d :
  get_input_checked p inputs name str = Returned r →
  inputs' !! name' = inputs !! name →
  descriptor r = Some d →
  tensor_descriptors p' !! name' = Some d →
  get_input_checked p' inputs' name' str' = Returned r.
Proof.
  intros Hr Hin Hd Hp'.
  pose proof (get_input_checked_cases p inputs name str) as Hc. rewrite Hr in Hc.
  destruct Hc as (found & Hf & Hb & _ & Hsame & _).
  unfold get_input_checked, GetTensorDescriptorChecked. rewrite Hin, Hf. simpl.
  destruct (descriptor found) as [d'|] eqn:Hdf.
  - by rewrite Hsame.
  - rewrite Hp'. simpl. destruct r as [rd rb]. simpl in *. by subst.
Qed.

(** C3 -- Transposition.  For a convolution in transpose mode whose
    three inputs resolve to x0, w0, y0 and whose problem has a transposed
    form: [Transpose] exchanges x and y by value and returns the
    transposed form in which each of the exchanged x, w and the exchanged
    y that carries a descriptor has it registered under the id X, W, Y;
    in [RunImpl] all three carry one; [RunImpl] continues with that
    problem and the exchanged inputs, so the backward shape test and the
    numerics checks see them; and the run is the same as the run, without
    transposition, of the transposed problem on the inputs with X and Y
    exchanged.  When the mode is not transpose the problem and the inputs
    are used as they are. *)
Theorem Transpose_correct S inputs workspace workspace_size h p conv_desc x0 w0 y0 t :
  problem S = ItemProblem p →
  mode conv_desc = miopenTranspose →
  get_input_checked p inputs miopenTensorConvolutionX "miopenTensorConvolutionX"
    = Returned x0 →
  get_input_checked p inputs miopenTensorConvolutionW "miopenTensorConvolutionW"
    = Returned w0 →
  get_input_checked p inputs miopenTensorConvolutionY "miopenTensorConvolutionY"
    = Returned y0 →
  MakeTransposed p = inr t →
  (∀ x w y,
     Transpose p x w y =
     Returned (register_if_present (descriptor x) miopenTensorConvolutionY
                 (register_if_present (descriptor w) miopenTensorConvolutionW
                    (register_if_present (descriptor y) miopenTensorConvolutionX t)),
               y, x)) ∧
  ∃ dx dw dy,
    descriptor x0 = Some dx ∧ descriptor w0 = Some dw ∧ descriptor y0 = Some dy ∧
    let transposed :=
      RegisterTensorDescriptor
        (RegisterTensorDescriptor
           (RegisterTensorDescriptor t miopenTensorConvolutionX dy)
           miopenTensorConvolutionW dw)
        miopenTensorConvolutionY dx in
    Transpose p x0 w0 y0 = Returned (transposed, y0, x0) ∧
    resolve_arguments p inputs conv_desc = Returned (transposed, y0, w0, x0) ∧
    RunImpl_conv S inputs workspace workspace_size conv_desc h
      = run_resolved S workspace workspace_size transposed y0 w0 x0 h ∧
    (∀ conv_desc', mode conv_desc' ≠ miopenTranspose →
       RunImpl_conv (set_problem (ItemProblem transposed) S) (swap_X_Y inputs)
         workspace workspace_size conv_desc' h
       = RunImpl_conv S inputs workspace workspace_size conv_desc h) ∧
    (∀ conv_desc', mode conv_desc' ≠ miopenTranspose →
       resolve_arguments p inputs conv_desc' = Returned (p, x0, w0, y0)).
Proof.
  intros Hp Hmode Hx Hw Hy Ht.
  split.
  { intros x w y. unfold Transpose. rewrite Ht. simpl.
    by destruct (descriptor x), (descriptor w), (descriptor y). }
  pose proof (get_input_checked_cases p inputs miopenTensorConvolutionX
                "miopenTensorConvolutionX") as Hcx.
  pose proof (get_input_checked_cases p inputs miopenTensorConvolutionW
                "miopenTensorConvolutionW") as Hcw.
  pose proof (get_input_checked_cases p inputs miopenTensorConvolutionY
                "miopenTensorConvolutionY") as Hcy.
  rewrite Hx in Hcx. rewrite Hw in Hcw. rewrite Hy in Hcy.
  destruct Hcx as (_ & _ & _ & [dx Hdx] & _), Hcw as (_ & _ & _ & [dw Hdw] & _),
    Hcy as (_ & _ & _ & [dy Hdy] & _).
  exists dx, dw, dy. split_and!; [done..|]. intros transposed.
  assert (Transpose p x0 w0 y0 = Returned (transposed, y0, x0)) as HT.
  { unfold Transpose. rewrite Ht. simpl. by rewrite Hdx, Hdw, Hdy. }
  assert (resolve_arguments p inputs conv_desc = Returned (transposed, y0, w0, x0)) as HR.
  { unfold resolve_arguments. rewrite Hx, Hw, Hy. simpl.
    rewrite decide_True by done. by rewrite HT. }
  assert (RunImpl_conv S inputs workspace workspace_size conv_desc h
          = run_resolved S workspace workspace_size transposed y0 w0 x0 h) as HRun.
  { unfold RunImpl_conv, bind, lift. by rewrite Hp, HR. }
  split_and!; [done..| |].
  - intros conv_desc' Hmode'. rewrite HRun.
    destruct (swap_X_Y_lookup inputs) as (HsX & HsW & HsY).
    unfold RunImpl_conv, bind, lift. simpl.
    unfold resolve_arguments.
    rewrite (get_input_checked_registered p transposed inputs (swap_X_Y inputs)
               miopenTensorConvolutionY miopenTensorConvolutionX
               "miopenTensorConvolutionY" "miopenTensorConvolutionX" y0 dy Hy HsX Hdy)
      by (subst transposed; simpl; by simplify_map_eq).
    simpl.
    rewrite (get_input_checked_registered p transposed inputs (swap_X_Y inputs)
               miopenTensorConvolutionW miopenTensorConvolutionW
               "miopenTensorConvolutionW" "miopenTensorConvolutionW" w0 dw Hw HsW Hdw)
      by (subst transposed; simpl; by simplify_map_eq).
    simpl.
    rewrite (get_input_checked_registered p transposed inputs (swap_X_Y inputs)
               miopenTensorConvolutionX miopenTensorConvolutionY
               "miopenTensorConvolutionX" "miopenTensorConvolutionY" x0 dx Hx HsY Hdx)
      by (subst transposed; simpl; by simplify_map_eq).
    simpl. by rewrite decide_False.
  - intros conv_desc' Hmode'. unfold resolve_arguments. rewrite Hx, Hw, Hy. simpl.
    by rewrite decide_False.
Qed.

(** *** The cache only grows *)

Lemma keeps_cache_ret {A} (a : A) : keeps_cache (ret a : M Handle A).
Proof. by intros h key inv. Qed.

Lemma keeps_cache_lift {A} (r : outcome A) : keeps_cache (lift r).
Proof. by intros h key inv. Qed.

Lemma keeps_cache_bind {A B} (m : M Handle A) (k : A → M Handle B) :
  keeps_cache m → (∀ a, keeps_cache (k a)) → keeps_cache (bind m k).
Proof.
  intros Hm Hk h key inv Hin. unfold bind. specialize (Hm h key inv Hin).
  destruct (m h) as [h1 [a| | |]]; simpl in *; auto. by apply Hk.
Qed.

Lemma keeps_cache_when b (m : M Handle unit) : keeps_cache m → keeps_cache (when b m).
Proof. destruct b; simpl; auto using keeps_cache_ret. Qed.

Lemma keeps_cache_call {A} c (f : Handle → foreign + A) : keeps_cache (call c f).
Proof. by intros h key inv. Qed.

Lemma keeps_cache_GetInvoker cfg id : keeps_cache (GetInvoker cfg id).
Proof. by intros h key inv. Qed.

Lemma keeps_cache_RegisterInvoker inv cfg name : keeps_cache (RegisterInvoker inv cfg name).
Proof.
  intros h key inv' Hin. unfold RegisterInvoker. simpl.
  destruct (invokers h !! (cfg, name)) eqn:Hk; [done|].
  rewrite lookup_insert_ne; [done|]. congruence.
Qed.

Ltac keeps_cache :=
  repeat first
    [ apply keeps_cache_ret | apply keeps_cache_lift | apply keeps_cache_call
    | apply keeps_cache_GetInvoker | apply keeps_cache_RegisterInvoker
    | apply keeps_cache_when | apply keeps_cache_bind
    | progress intros
    | match goal with
      | |- keeps_cache (match ?x with _ => _ end) => destruct x
      | |- keeps_cache (let '(_, _) := ?x in _) => destruct x
      end ].

Lemma keeps_cache_Run S inputs workspace workspace_size :
  keeps_cache (Run S inputs workspace workspace_size).
Proof.
  unfold Run, dispatch, RunImpl_conv, RunImpl_fused, run_resolved, lookup_and_invoke,
    check_numerics_inputs, check_numerics_output, check_input, check_output,
    checkNumericsInput, checkNumericsOutput, FindSolution, MakeFusedSolution,
    PrepareInvoker, invoke.
  keeps_cache.
Qed.

Lemma keeps_cache_Runs rs h key inv :
  invokers h !! key = Some inv → invokers (Runs rs h) !! key = Some inv.
Proof.
  revert h. induction rs as [|r rs IH]; intros h Hin; simpl; [done|].
  by apply IH, keeps_cache_Run.
Qed.

(** *** Caching *)

Lemma signature_inv p inputs conv_desc cfg :
  signature p inputs conv_desc = Returned cfg →
  ∃ problem_ x w y conv_problem xd wd yd,
    resolve_arguments p inputs conv_desc = Returned (problem_, x, w, y) ∧
    descriptor x = Some xd ∧ descriptor w = Some wd ∧ descriptor y = Some yd ∧
    AsConvolution problem_ = inr conv_problem ∧
    MakeNetworkConfig conv_problem = cfg.
Proof.
  unfold signature. intros Hs.
  pose proof (resolve_arguments_cases p inputs conv_desc) as Hd.
  destruct (resolve_arguments p inputs conv_desc) as [[[[problem_ x] w] y]| | |];
    simpl in Hs; [|done..].
  destruct Hd as ([xd Hx] & [wd Hw] & [yd Hy]).
  destruct (AsConvolution problem_) as [|conv_problem] eqn:Ha; simpl in Hs; [done|].
  simplify_eq. exists problem_, x, w, y, conv_problem, xd, wd, yd. auto 10.
Qed.

Lemma numerics_not_fallback l :
  Forall (λ c, is_numerics c = true) l → Forall (λ c, is_fallback c = false) l.
Proof. intros Hl. eapply Forall_impl; [done|]. by intros []. Qed.

(** A later run of the same solution whose inputs give the signature of an
    entry of the cache: no fallback call, the cache is left as it is, and
    the invoker invoked is the cached one. *)
Lemma Run_cached S inputs workspace workspace_size h p conv_desc cfg inv :
  problem S = ItemProblem p → GetOperatorDescriptor p = OpConvolution conv_desc →
  signature p inputs conv_desc = Returned cfg →
  invokers h !! (cfg, ToString (solver S)) = Some inv →
  let res := Run S inputs workspace workspace_size h in
  Forall (λ c, is_fallback c = false) (new_calls h res.1) ∧
  invokers res.1 = invokers h ∧
  (res.2 = Returned tt →
   ∃ nin ctx nout,
     new_calls h res.1 = nin ++ [call_GetInvoker cfg (solver S); call_invoke inv ctx] ++ nout ∧
     Forall (λ c, is_numerics c = true) nin ∧ Forall (λ c, is_numerics c = true) nout).
Proof.
  intros Hp Hop Hsig Hhit. simpl.
  destruct (decide (workspace_size < workspace_required S)%N) as [Hws|Hws].
  { rewrite Run_insufficient by done. simpl. unfold new_calls. rewrite drop_all.
    by split_and!. }
  rewrite Run_sufficient by done.
  rewrite (dispatch_conv S inputs workspace workspace_size h p conv_desc Hp Hop).
  destruct (signature_inv p inputs conv_desc cfg Hsig)
    as (problem_ & x & w & y & cp & xd & wd & yd & -> & Hx & Hw & Hy & Hcp & <-).
  destruct (run_resolved_trace S workspace workspace_size problem_ x w y h xd wd yd Hx Hw Hy)
    as [(Hnr & Hi & new & Hc & Hf)
       |(h1 & cp' & ctx & nin & Hprep & Hctx & Hnin & _ & Hcases)].
  { rewrite (new_calls_app _ _ _ Hc). split_and!; [by apply numerics_not_fallback|done..]. }
  assert (cp' = cp) as -> by (destruct Hprep as (_ & _ & Ha & _); congruence).
  destruct Hcases as [(inv' & out & Hk & Hc & Hout & Hi)
                     |[(Hk & _)|(sol & inv' & out & Hk & _)]]; [|congruence..].
  assert (inv' = inv) as -> by congruence.
  rewrite (new_calls_app _ _ _ Hc). split_and!; [|done|by eauto 10].
  apply Forall_app. split; [by apply numerics_not_fallback|].
  apply Forall_app. split; [by repeat constructor|by apply numerics_not_fallback].
Qed.

(** C1 -- Idempotent caching.  Take a convolution solution and inputs
    whose signature is [cfg], a handle with no invoker cached under
    ([cfg], solver), and a first [Run] that returns.  That run resolved
    its arguments, looked the key up, missed, searched the solution once
    -- for the problem whose signature it had looked up, with the
    invocation parameters it built --, prepared one invoker from the
    solution the search returned, registered the invoker the preparation
    returned under the key it had looked up, and invoked that invoker;
    between those calls only the numerics checker was called.  After any
    further sequence of [Run] calls on the handle, a [Run] of the same
    solution on inputs with the same signature makes no fallback call,
    leaves the cache as it is and, when it returns, has invoked the
    invoker cached by the first run. *)
Theorem Run_idempotent_caching S inputs workspace workspace_size h p conv_desc cfg :
  problem S = ItemProblem p → GetOperatorDescriptor p = OpConvolution conv_desc →
  signature p inputs conv_desc = Returned cfg →
  invokers h !! (cfg, ToString (solver S)) = None →
  let first := Run S inputs workspace workspace_size h in
  first.2 = Returned tt →
  ∃ nin nout problem_ x w y conv_problem ctx sol inv,
    let get := call_GetInvoker cfg (solver S) in
    let find :=
      call_FindSolution (solver S) conv_problem ctx (default "" (perf_cfg S)) in
    let looked_up := MkHandle (invokers h) (calls h ++ nin ++ [get]) in
    let searched := record find looked_up in
    resolve_arguments p inputs conv_desc = Returned (problem_, x, w, y) ∧
    AsConvolution problem_ = inr conv_problem ∧
    MakeNetworkConfig conv_problem = cfg ∧
    make_invoke_ctx problem_ x w y workspace workspace_size conv_problem = Returned ctx ∧
    new_calls h first.1 =
      nin ++ [get; find; call_PrepareInvoker sol;
              call_RegisterInvoker inv cfg (ToString (solver S));
              call_invoke inv ctx] ++ nout ∧
    Forall (λ c, is_numerics c = true) nin ∧
    Forall (λ c, is_numerics c = true) nout ∧
    FindSolution_ looked_up (solver S) conv_problem ctx (default "" (perf_cfg S))
      = inr sol ∧
    PrepareInvoker_ searched sol = inr inv ∧
    invokers first.1 = <[(cfg, ToString (solver S)) := inv]> (invokers h) ∧
    ∀ rs inputs' workspace' workspace_size',
      signature p inputs' conv_desc = Returned cfg →
      let h2 := Runs rs first.1 in
      let later := Run S inputs' workspace' workspace_size' h2 in
      Forall (λ c, is_fallback c = false) (new_calls h2 later.1) ∧
      invokers later.1 = invokers h2 ∧
      (later.2 = Returned tt →
       ∃ nin' ctx' nout',
         new_calls h2 later.1 =
           nin' ++ [call_GetInvoker cfg (solver S); call_invoke inv ctx'] ++ nout' ∧
         Forall (λ c, is_numerics c = true) nin' ∧
         Forall (λ c, is_numerics c = true) nout').
Proof.
  intros Hp Hop Hsig Hmiss first Hret.
  destruct (signature_inv p inputs conv_desc cfg Hsig)
    as (problem_ & x & w & y & cp & xd & wd & yd & Hres & Hx & Hw & Hy & Hcp & Hcfg).
  assert (first = run_resolved S workspace workspace_size problem_ x w y h) as Hfirst.
  { subst first.
    destruct (decide (workspace_size < workspace_required S)%N) as [Hws|Hws].
    { by rewrite Run_insufficient in Hret. }
    rewrite Run_sufficient by done.
    by rewrite (dispatch_conv S inputs workspace workspace_size h p conv_desc Hp Hop),
      Hres. }
  rewrite Hfirst in Hret.
  destruct (run_resolved_cases S workspace workspace_size problem_ x w y h)
    as [[Hr _]|[(_ & Hnr & _)|(h1 & cp' & Hprep)]];
    [by rewrite Hr in Hret|done|].
  assert (cp' = cp) as -> by (destruct Hprep as (_ & _ & Ha & _); congruence).
  destruct (prepared_quiet _ _ _ _ _ _ _ Hprep) as (nin & Hc1 & Hi1 & Hnin).
  assert (h1 = MkHandle (invokers h) (calls h ++ nin)) as Hh1.
  { destruct h1. simpl in *. by subst. }
  rewrite (run_resolved_prepared _ _ _ _ _ _ _ _ _ _ Hprep) in Hfirst, Hret.
  destruct (make_invoke_ctx problem_ x w y workspace workspace_size cp)
    as [ctx| | |] eqn:Hctx; [|done..].
  rewrite <- Hcfg, <- Hi1 in Hmiss.
  destruct (lookup_and_invoke_miss_returned S problem_ x w y cp ctx h1 Hmiss Hret)
    as (sol & inv & nout & Hfind & Hprepare & Hc & Hi & Hnout).
  rewrite <- Hfirst in Hc, Hi. rewrite Hi1, Hcfg in Hi.
  rewrite Hh1 in Hfind, Hprepare. unfold record in Hfind, Hprepare.
  simpl in Hfind, Hprepare.
  rewrite Hcfg, <- !app_assoc in Hfind. rewrite Hcfg, <- !app_assoc in Hprepare.
  simpl in Hprepare.
  rewrite Hc1, Hcfg, <- app_assoc in Hc.
  exists nin, nout, problem_, x, w, y, cp, ctx, sol, inv.
  unfold record. simpl. rewrite <- !app_assoc. simpl.
  split_and!; try done.
  - by rewrite (new_calls_app _ _ _ Hc).
  - intros rs inputs' workspace' workspace_size' Hsig'.
    apply (Run_cached S inputs' workspace' workspace_size' _ p conv_desc cfg inv);
      [done..|].
    apply keeps_cache_Runs. rewrite Hi. apply lookup_insert_eq.
Qed.

(** *** Unsupported *)

Lemma buffer_getter_rebinds inputs arg :
  rebinds inputs arg →
  ∃ e, buffer_getter inputs arg.1 arg.2 = Thrown e ∧ Unsupported e.
Proof.
  intros (found & d & Hf & Hd & Hne). unfold buffer_getter, MIOPEN_THROW.
  rewrite Hf, Hd. rewrite decide_True by done. by eexists.
Qed.

(** C9 (amended) -- Unsupported.  [Run] throws the not-implemented
    exception exactly when the workspace is large enough and either the
    single operator is an activation or a bias, or the convolution
    arguments resolve, the steps before the construction of the
    parameters all return and the resolved direction is none of the three,
    or, for a fused problem, the first argument whose buffer lookup
    fails is one for which the caller supplied a descriptor other than the
    one the plan fixed.  Whenever it is thrown, the cache is as it was and
    only the numerics checker has been called: nothing was looked up,
    prepared or invoked. *)
Theorem Run_unsupported S inputs workspace workspace_size h :
  (fails_with Unsupported (Run S inputs workspace workspace_size h).2 ↔
   ¬ (workspace_size < workspace_required S)%N ∧
   (standalone_operator S ∨ direction_rejected S inputs h ∨ rebinding_rejected S inputs)) ∧
  (∀ h' e, Run S inputs workspace workspace_size h = (h', Thrown e) → Unsupported e →
     invokers h' = invokers h ∧
     Forall (λ c, is_numerics c = true) (new_calls h h') ∧
     Forall (λ c, is_invoke c = false) (new_calls h h')).
Proof.
  split.
  - split.
    + intros (e & Hr & He).
      destruct (decide (workspace_size < workspace_required S)%N) as [Hws|Hws].
      { rewrite Run_insufficient in Hr by done. simpl in Hr. simplify_eq. by cbv in He. }
      split; [done|]. rewrite Run_sufficient in Hr by done.
      destruct (problem S) as [p|fp] eqn:Hp.
      * destruct (GetOperatorDescriptor p) as [cd|ad|bd] eqn:Hop.
        -- right; left.
           rewrite (dispatch_conv S inputs workspace workspace_size h p cd Hp Hop) in Hr.
           pose proof (resolve_arguments_cases p inputs cd) as Hres.
           destruct (resolve_arguments p inputs cd) as [[[[problem_ x] w] y]|e'|f|] eqn:Er;
             simpl in Hr; [|simplify_eq; unfold MissingArgument, Unsupported in *;
                             congruence|done..].
           destruct Hres as ([xd Hx] & [wd Hw] & [yd Hy]).
           destruct (run_resolved_cases S workspace workspace_size problem_ x w y h)
             as [[Hr' _]|[(Hnt & _)|(h1 & conv_problem & Hprep)]].
           ++ rewrite Hr' in Hr. simpl in Hr. simplify_eq. by cbv in He.
           ++ by apply Hnt in Hr.
           ++ rewrite (run_resolved_prepared _ _ _ _ _ _ _ _ _ _ Hprep) in Hr.
              destruct (make_invoke_ctx_cases problem_ x w y workspace workspace_size
                          conv_problem xd wd yd Hx Hw Hy)
                as [[_ Hc]|[[_ Hc]|[[_ Hc]|(? & ? & ? & Hc)]]];
                simpl in Hc; rewrite Hc in Hr;
                [by apply lookup_and_invoke_not_thrown in Hr..|].
              exists p, cd, problem_, x, w, y, h1, conv_problem. by split_and!.
        -- left. exists p. by rewrite Hop.
        -- left. exists p. by rewrite Hop.
      * right; right.
        rewrite (dispatch_fused S inputs workspace workspace_size h fp Hp) in Hr.
        destruct (RunImpl_fused S inputs workspace workspace_size fp h) as [h' r] eqn:Ef.
        simpl in Hr. subst r. apply RunImpl_fused_thrown in Ef as [_ Hb].
        apply bind_arguments_thrown in Hb as (pre & id & d & post & Hl & Hpre & Hg);
          [|apply buffer_getter_total].
        pose proof (buffer_getter_cases inputs id d) as Hc. rewrite Hg in Hc.
        destruct Hc as [[Hm _]|[_ (found & d' & ? & ? & ?)]];
          [unfold MissingArgument, Unsupported in *; congruence|].
        exists fp, pre, (id, d), post. split_and!; [done..|]. by exists found, d'.
    + intros [Hws [(p & Hp & Hop)|[Hdir|Hfused]]]; rewrite Run_sufficient by done.
      * rewrite (dispatch_standalone S inputs workspace workspace_size h p Hp).
        -- by eexists.
        -- intros cd Hcd. by rewrite Hcd in Hop.
      * destruct Hdir as (p & cd & problem_ & x & w & y & h1 & conv_problem &
                          Hp & Hop & Hres & (Hf & Hb & Hbw) & Hprep).
        rewrite (dispatch_conv S inputs workspace workspace_size h p cd Hp Hop), Hres.
        rewrite (run_resolved_prepared _ _ _ _ _ _ _ _ _ _ Hprep).
        pose proof (resolve_arguments_cases p inputs cd) as Hd. rewrite Hres in Hd.
        destruct Hd as ([xd Hx] & [wd Hw] & [yd Hy]).
        destruct (make_invoke_ctx_cases problem_ x w y workspace workspace_size
                    conv_problem xd wd yd Hx Hw Hy)
          as [[? _]|[[? _]|[[? _]|(_ & _ & _ & Hc)]]]; [done..|].
        simpl in Hc. rewrite Hc. by eexists.
      * destruct Hfused as (fp & pre & arg & post & Hp & Hl & Hpre & Hre).
        rewrite (dispatch_fused S inputs workspace workspace_size h fp Hp).
        destruct (buffer_getter_rebinds inputs arg Hre) as (e & Hg & He).
        assert (RunImpl_fused S inputs workspace workspace_size fp h = (h, Thrown e)) as ->.
        { apply RunImpl_fused_thrown. split; [done|].
          apply bind_arguments_thrown; [apply buffer_getter_total|].
          exists pre, arg.1, arg.2, post. destruct arg. by split_and!. }
        by exists e.
  - intros h' e Hr He.
    assert (invokers h' = invokers h ∧
            ∃ new, calls h' = calls h ++ new ∧ Forall (λ c, is_numerics c = true) new)
      as (Hi & new & Hc & Hf).
    { destruct (decide (workspace_size < workspace_required S)%N) as [Hws|Hws].
      { rewrite Run_insufficient in Hr by done. simplify_eq. by cbv in He. }
      rewrite Run_sufficient in Hr by done.
      apply dispatch_thrown in Hr as [[Hm _]|[[-> _]|[_ ?]]]; [|by cbv in He|done].
      unfold MissingArgument, Unsupported in *. congruence. }
    rewrite (new_calls_app _ _ _ Hc). split_and!; [done..|].
    eapply Forall_impl; [done|]. by intros [].
Qed.

End Execution.

(** * The properties in the concrete setting *)

Section Checks.
Import Scenario.
#[local] Existing Instance externals.
#[local] Existing Instance collaborators.
#[local] Existing Instance problem_json.

Lemma Run_idempotent_caching_witness :
  signature forward_problem inputs plain_desc = Returned "conv0" ∧
  invokers fresh_handle !! ("conv0", "ConvDirectNaiveFwd") = None ∧
  (Run forward_solution inputs 0%N 0%N fresh_handle).2 = Returned tt ∧
  ∃ sol inv,
    FindSolution_ fresh_handle (solver forward_solution)
      (plain_desc, "conv0") (DataInvokeParams
         (MkConvDataTensors x_desc 4096%N w_desc 8192%N y_desc 12288%N) 0%N 0%N false) ""
      = inr sol ∧
    PrepareInvoker_ fresh_handle sol = inr inv ∧
    invokers (Run forward_solution inputs 0%N 0%N fresh_handle).1
      = <[("conv0", "ConvDirectNaiveFwd") := inv]> ∅ ∧
    ∀ rs,
      let h2 := Runs rs (Run forward_solution inputs 0%N 0%N fresh_handle).1 in
      Forall (λ c, is_fallback c = false)
        (new_calls h2 (Run forward_solution inputs 0%N 0%N h2).1).
Proof.
  assert (signature forward_problem inputs plain_desc = Returned "conv0") as Hsig
    by (vm_compute; reflexivity).
  assert (invokers fresh_handle !! ("conv0", "ConvDirectNaiveFwd") = None) as Hmiss
    by reflexivity.
  assert ((Run forward_solution inputs 0%N 0%N fresh_handle).2 = Returned tt) as Hret
    by (vm_compute; reflexivity).
  split_and!; [done..|].
  destruct (Run_idempotent_caching forward_solution inputs 0%N 0%N fresh_handle
              forward_problem plain_desc "conv0" eq_refl eq_refl Hsig Hmiss Hret)
    as (nin & nout & problem_ & x & w & y & cp & ctx & sol & inv & Hres & Hcp & _ & Hctx &
        _ & _ & _ & Hfind & Hprep & Hcache & Hlater).
  assert (resolve_arguments forward_problem inputs plain_desc
          = Returned (forward_problem, MkRunInput (Some x_desc) 4096%N,
                      MkRunInput (Some w_desc) 8192%N, MkRunInput (Some y_desc) 12288%N))
    as Hres' by (vm_compute; reflexivity).
  rewrite Hres' in Hres. injection Hres as <- <- <- <-.
  injection Hcp as <-.
  injection Hctx as <-.
  exists sol, inv. split_and!.
  - injection Hfind as <-. reflexivity.
  - injection Hprep as <-. reflexivity.
  - exact Hcache.
  - intros rs. exact (proj1 (Hlater rs inputs 0%N 0%N Hsig)).
Defined.

Lemma Run_workspace_check_witness :
  (0 < workspace_required activation_solution)%N ∧
  Run activation_solution inputs 0%N 0%N fresh_handle
    = (fresh_handle, Thrown (InsufficientWorkspace activation_solution 0%N)).
Proof.
  split; [reflexivity|].
  apply (proj2 (Run_workspace_check activation_solution inputs 0%N 0%N fresh_handle)).
  reflexivity.
Defined.

Lemma Transpose_correct_witness :
  mode transpose_desc = miopenTranspose ∧
  ∃ transposed,
    resolve_arguments transpose_problem inputs transpose_desc
      = Returned (transposed, MkRunInput (Some y_desc) 12288%N,
                  MkRunInput (Some w_desc) 8192%N, MkRunInput (Some x_desc) 4096%N) ∧
    GetDirection transposed = miopenProblemDirectionBackward ∧
    RunImpl_conv (set_problem (ItemProblem transposed) transpose_solution)
      (swap_X_Y inputs) 0%N 0%N plain_desc fresh_handle
    = RunImpl_conv transpose_solution inputs 0%N 0%N transpose_desc fresh_handle.
Proof.
  split; [reflexivity|].
  assert (MakeTransposed transpose_problem
          = inr (MkProblem (OpConvolution transpose_desc) miopenProblemDirectionBackward ∅))
    as Ht by (vm_compute; reflexivity).
  assert (get_input_checked transpose_problem inputs miopenTensorConvolutionX
            "miopenTensorConvolutionX" = Returned (MkRunInput (Some x_desc) 4096%N))
    as Hx0 by (vm_compute; reflexivity).
  assert (get_input_checked transpose_problem inputs miopenTensorConvolutionW
            "miopenTensorConvolutionW" = Returned (MkRunInput (Some w_desc) 8192%N))
    as Hw0 by (vm_compute; reflexivity).
  assert (get_input_checked transpose_problem inputs miopenTensorConvolutionY
            "miopenTensorConvolutionY" = Returned (MkRunInput (Some y_desc) 12288%N))
    as Hy0 by (vm_compute; reflexivity).
  destruct (Transpose_correct transpose_solution inputs 0%N 0%N fresh_handle
              transpose_problem transpose_desc
              (MkRunInput (Some x_desc) 4096%N) (MkRunInput (Some w_desc) 8192%N)
              (MkRunInput (Some y_desc) 12288%N)
              (MkProblem (OpConvolution transpose_desc) miopenProblemDirectionBackward ∅)
              eq_refl eq_refl Hx0 Hw0 Hy0 Ht)
    as (_ & dx & dw & dy & Hx & Hw & Hy & _ & Hres & _ & Hsame & _).
  injection Hx as <-. injection Hw as <-. injection Hy as <-.
  eexists. split; [exact Hres|]. split; [reflexivity|].
  apply Hsame. discriminate.
Defined.

Lemma invocation_parameters_witness :
  resolve_arguments forward_problem inputs plain_desc
    = Returned (forward_problem, MkRunInput (Some x_desc) 4096%N,
                MkRunInput (Some w_desc) 8192%N, MkRunInput (Some y_desc) 12288%N) ∧
  filter (λ c, is_invoke c = true)
    (new_calls fresh_handle (Run forward_solution inputs 7%N 0%N fresh_handle).1)
  = [call_invoke "ConvDirectNaiveFwd"
       (DataInvokeParams
          (MkConvDataTensors x_desc 4096%N w_desc 8192%N y_desc 12288%N) 7%N 0%N true)] ∧
  ∀ conv_problem,
    make_invoke_ctx forward_problem (MkRunInput (Some x_desc) 4096%N)
      (MkRunInput (Some w_desc) 8192%N) (MkRunInput (Some y_desc) 12288%N) 7%N 0%N conv_problem
    = Returned (DataInvokeParams
                  (MkConvDataTensors x_desc 4096%N w_desc 8192%N y_desc 12288%N) 7%N 0%N
                  (GetFwd (gfx90aFp16alt (attribute (GetConv conv_problem))))).
Proof.
  assert (resolve_arguments forward_problem inputs plain_desc
          = Returned (forward_problem, MkRunInput (Some x_desc) 4096%N,
                      MkRunInput (Some w_desc) 8192%N, MkRunInput (Some y_desc) 12288%N))
    as Hres by (vm_compute; reflexivity).
  split; [exact Hres|]. split; [vm_compute; reflexivity|].
  intros conv_problem.
  exact (proj1 (invocation_parameters forward_solution inputs 7%N 0%N fresh_handle
                  forward_problem plain_desc forward_problem
                  (MkRunInput (Some x_desc) 4096%N) (MkRunInput (Some w_desc) 8192%N)
                  (MkRunInput (Some y_desc) 12288%N) x_desc w_desc y_desc
                  eq_refl eq_refl (λ H, N.nlt_0_r _ H) Hres eq_refl eq_refl eq_refl)
           conv_problem).
Defined.

Lemma from_json_to_json_roundtrip_witness :
  float_of_double (double_of_float (time forward_solution)) = time forward_solution ∧
  ToString (Id_of_string (ToString (solver forward_solution)))
    = ToString (solver forward_solution) ∧
  (∀ p, problem_from_json (problem_to_json (problem forward_solution)) p
        = (problem forward_solution, Returned tt)) ∧
  ∃ decoded,
    from_json current (to_json current forward_solution) activation_solution
      = (decoded, Returned tt) ∧
    time decoded = time forward_solution ∧
    workspace_required decoded = workspace_required forward_solution ∧
    ToString (solver decoded) = ToString (solver forward_solution) ∧
    problem decoded = problem forward_solution ∧
    perf_cfg decoded = perf_cfg forward_solution ∧
    (perf_cfg forward_solution = None →
     json_find (to_json current forward_solution) "perf_cfg" = None).
Proof.
  split; [reflexivity|]. split; [reflexivity|]. split; [intros p; reflexivity|].
  apply (from_json_to_json_roundtrip current forward_solution activation_solution);
    [reflexivity|reflexivity|intros p; reflexivity].
Defined.

Lemma from_json_header_discrimination_witness :
  (try* h := json_at corrupt_record "header" in from_json_metadata h)
    = Returned (MkSerializationMetadata 7 1) ∧
  from_json current corrupt_record forward_solution = (forward_solution, Thrown CorruptData) ∧
  check_header current corrupt_record = Thrown CorruptData.
Proof.
  assert ((try* h := json_at corrupt_record "header" in from_json_metadata h)
          = Returned (MkSerializationMetadata 7 1)) as Hh by (vm_compute; reflexivity).
  assert (validation_number (MkSerializationMetadata 7 1) ≠ validation_number current)
    as Hv by discriminate.
  destruct (from_json_header_discrimination current corrupt_record forward_solution)
    as (Hdecoded & _ & Hcorrupt & _).
  split; [exact Hh|]. split.
  - exact (proj1 (proj2 (Hdecoded _ Hh)) Hv).
  - apply (proj2 Hcorrupt). exists (MkSerializationMetadata 7 1). split; [exact Hh|exact Hv].
Defined.

(** C6 as stated fails: a record carries a validation number other than
    the current one, yet [from_json] does not end with the corrupt-data
    exception, because the version of its header is a string and decoding
    the header ends with the exception of the JSON library first. *)
Lemma from_json_header_discrimination_as_stated_fails :
  ¬ (∀ (j : json) (dest : Solution) (v : N),
       record_validation_number j = Returned v → v ≠ validation_number current →
       (from_json current j dest).2 = Thrown CorruptData).
Proof.
  intros Hclaim.
  assert (record_validation_number ill_typed_version_record = Returned 7%N) as Hv
    by (vm_compute; reflexivity).
  specialize (Hclaim ill_typed_version_record forward_solution 7%N Hv).
  assert ((from_json current ill_typed_version_record forward_solution).2
          = Propagated (json_exception 302)) as Hr by (vm_compute; reflexivity).
  rewrite Hr in Hclaim. by specialize (Hclaim ltac:(discriminate)).
Qed.

Lemma from_json_rejected_header_keeps_destination_witness :
  (try* h := json_at corrupt_record "header" in from_json_metadata h)
    = Returned (MkSerializationMetadata 7 1) ∧
  (∃ e, (from_json current corrupt_record forward_solution).2 = Thrown e) ∧
  time (from_json current corrupt_record forward_solution).1 = time forward_solution ∧
  workspace_required (from_json current corrupt_record forward_solution).1
    = workspace_required forward_solution ∧
  solver (from_json current corrupt_record forward_solution).1 = solver forward_solution ∧
  problem (from_json current corrupt_record forward_solution).1
    = problem forward_solution ∧
  perf_cfg (from_json current corrupt_record forward_solution).1
    = perf_cfg forward_solution.
Proof.
  split; [vm_compute; reflexivity|].
  apply (from_json_rejected_header_keeps_destination current corrupt_record
           forward_solution (MkSerializationMetadata 7 1));
    [vm_compute; reflexivity|].
  left. discriminate.
Defined.

Lemma missing_argument_witness :
  (∅ : gmap miopenTensorArgumentId_t RunInput) !! miopenTensorConvolutionX = None ∧
  ∃ e, Run forward_solution ∅ 0%N 0%N fresh_handle = (fresh_handle, Thrown e) ∧
       MissingArgument e.
Proof.
  split; [reflexivity|].
  destruct (missing_argument forward_solution ∅ 0%N 0%N fresh_handle forward_problem
              miopenTensorConvolutionX "miopenTensorConvolutionX")
    as (_ & _ & _ & _ & _ & Hrun).
  apply (Hrun plain_desc); [reflexivity|reflexivity|apply N.nlt_0_r|].
  left. reflexivity.
Defined.

Lemma backward_shape_check_witness :
  resolve_arguments backward_problem mismatched_inputs plain_desc
    = Returned (backward_problem, MkRunInput (Some x_desc) 4096%N,
                MkRunInput (Some w_desc) 8192%N, MkRunInput (Some x_desc) 12288%N) ∧
  Run backward_solution mismatched_inputs 0%N 0%N fresh_handle
    = (fresh_handle, Thrown InvalidShape).
Proof.
  assert (resolve_arguments backward_problem mismatched_inputs plain_desc
          = Returned (backward_problem, MkRunInput (Some x_desc) 4096%N,
                      MkRunInput (Some w_desc) 8192%N, MkRunInput (Some x_desc) 12288%N))
    as Hres by (vm_compute; reflexivity).
  split; [exact Hres|].
  apply (proj1 (backward_shape_check backward_solution mismatched_inputs 0%N 0%N
                  fresh_handle backward_problem plain_desc backward_problem
                  (MkRunInput (Some x_desc) 4096%N) (MkRunInput (Some w_desc) 8192%N)
                  (MkRunInput (Some x_desc) 12288%N)
                  eq_refl eq_refl (λ H, N.nlt_0_r _ H) Hres)
           eq_refl x_desc w_desc 3%N 64%N eq_refl eq_refl eq_refl eq_refl).
  discriminate.
Defined.

(** C9 as stated fails: a stand-alone activation is among the three
    situations of the claim, yet with a workspace smaller than required
    [Run] ends with the insufficient-workspace exception, not with the
    not-implemented one. *)
Lemma Run_unsupported_as_stated_fails :
  ¬ (fails_with Unsupported (Run activation_solution inputs 0%N 0%N fresh_handle).2 ↔
     standalone_operator activation_solution ∨
     resolved_direction_unsupported activation_solution inputs ∨
     rebinds_fused_descriptor activation_solution inputs).
Proof.
  intros [_ Hback].
  destruct Hback as (e & He & Hu).
  { left. by exists activation_problem. }
  vm_compute in He. injection He as <-. by cbv in Hu.
Qed.

Lemma Run_unsupported_witness :
  fails_with Unsupported (Run activation_solution inputs 0%N 1%N fresh_handle).2.
Proof.
  apply (proj1 (Run_unsupported activation_solution inputs 0%N 1%N fresh_handle)).
  split; [vm_compute; discriminate|].
  left. exists activation_problem. split; reflexivity.
Defined.

End Checks.

(** * Further properties *)

Section Numerics.
Context `{!Externals} `{!Collaborators}.

Implicit Types (h : Handle) (S : Solution).
Implicit Types (inputs : gmap miopenTensorArgumentId_t RunInput).

Ltac directions :=
  unfold miopenProblemDirectionForward, miopenProblemDirectionBackward,
    miopenProblemDirectionBackwardWeights in *.

Lemma check_numerics_inputs_returned p x w y xd wd yd h h1 :
  descriptor x = Some xd → descriptor w = Some wd → descriptor y = Some yd →
  check_numerics_inputs p x w y h = (h1, Returned tt) →
  invokers h1 = invokers h ∧
  calls h1 = calls h ++
    (if CheckNumericsEnabled
     then expected_input_checks (GetDirection p) (xd, buffer x) (wd, buffer w) (yd, buffer y)
     else []).
Proof.
  intros Hx Hw Hy. unfold check_numerics_inputs, expected_input_checks, when.
  destruct CheckNumericsEnabled; [|intros [= <-]; by rewrite app_nil_r].
  unfold bind, check_input, lift, checkNumericsInput, call. rewrite Hx, Hw, Hy. simpl.
  directions.
  repeat case_bool_decide; repeat case_decide; try lia; simpl;
    repeat (match goal with
            | |- context [checkNumericsInput_ ?a ?b ?c] =>
                destruct (checkNumericsInput_ a b c) as [?|[]]; simpl
            end);
    intros [= <-]; simpl; rewrite <- ?app_assoc; by split.
Qed.

Lemma check_numerics_output_returned p x w y xd wd yd h h1 :
  descriptor x = Some xd → descriptor w = Some wd → descriptor y = Some yd →
  check_numerics_output p x w y h = (h1, Returned tt) →
  invokers h1 = invokers h ∧
  calls h1 = calls h ++
    (if CheckNumericsEnabled
     then expected_output_checks (GetDirection p) (xd, buffer x) (wd, buffer w) (yd, buffer y)
     else []).
Proof.
  intros Hx Hw Hy. unfold check_numerics_output, expected_output_checks, when.
  destruct CheckNumericsEnabled; [|intros [= <-]; by rewrite app_nil_r].
  unfold bind, check_output, lift, checkNumericsOutput, call. rewrite Hx, Hw, Hy. simpl.
  directions.
  repeat case_bool_decide; repeat case_decide; try lia; simpl;
    repeat (match goal with
            | |- context [checkNumericsOutput_ ?a ?b ?c] =>
                destruct (checkNumericsOutput_ a b c) as [?|[]]; simpl
            end);
    intros [= <-]; simpl; rewrite <- ?app_assoc, ?app_nil_r; by split.
Qed.

(** A returning lookup-and-invoke: calls that are not numerics calls, one
    of them an invocation, then the output check. *)
Lemma lookup_and_invoke_returned S p x w y conv_problem ctx h h' xd wd yd :
  descriptor x = Some xd → descriptor w = Some wd → descriptor y = Some yd →
  lookup_and_invoke S p x w y conv_problem ctx h = (h', Returned tt) →
  ∃ middle,
    calls h' = calls h ++ middle ++
      (if CheckNumericsEnabled
       then expected_output_checks (GetDirection p)
              (xd, buffer x) (wd, buffer w) (yd, buffer y)
       else []) ∧
    Forall (λ c, is_numerics c = false) middle.
Proof.
  intros Hx Hw Hy. unfold lookup_and_invoke, bind, GetInvoker, GetSolver. simpl.
  destruct (invokers h !! _) as [inv|] eqn:Hk.
  - unfold invoke, call. simpl. destruct (invoke_ _ inv ctx) as [?|[]]; simpl; [done|].
    intros Hout.
    destruct (check_numerics_output_returned _ _ _ _ xd wd yd _ _ Hx Hw Hy Hout)
      as [_ Hc].
    eexists [_; _]. rewrite Hc. simpl. rewrite <- !app_assoc. split; [done|].
    by repeat constructor.
  - unfold FindSolution, PrepareInvoker, RegisterInvoker, invoke, call. simpl.
    destruct (FindSolution_ _ _ _ _ _) as [?|sol]; simpl; [done|].
    destruct (PrepareInvoker_ _ sol) as [?|inv]; simpl; [done|].
    destruct (invoke_ _ inv ctx) as [?|[]]; simpl; [done|].
    intros Hout.
    destruct (check_numerics_output_returned _ _ _ _ xd wd yd _ _ Hx Hw Hy Hout)
      as [_ Hc].
    eexists [_; _; _; _; _]. rewrite Hc. simpl. rewrite <- !app_assoc. split; [done|].
    by repeat constructor.
Qed.

(** X1 -- Numerics checks of a convolution run.  When the numerics mode
    is on, a run that returns has checked, before anything else, the
    inputs of its direction (Forward: x then w; Backward: w then y;
    BackwardWeights: x then y) and, after everything else, its output
    (Forward: y; Backward: x; BackwardWeights: w); when the mode is off it
    has made no numerics call.  A run that ends with the not-implemented
    exception of the direction switch has checked x, w and y as inputs
    and nothing else. *)
Theorem numerics_checks S inputs workspace workspace_size h p conv_desc
    problem_ x w y xd wd yd :
  problem S = ItemProblem p → GetOperatorDescriptor p = OpConvolution conv_desc →
  ¬ (workspace_size < workspace_required S)%N →
  resolve_arguments p inputs conv_desc = Returned (problem_, x, w, y) →
  descriptor x = Some xd → descriptor w = Some wd → descriptor y = Some yd →
  let res := Run S inputs workspace workspace_size h in
  let X := (xd, buffer x) in
  let W := (wd, buffer w) in
  let Y := (yd, buffer y) in
  (res.2 = Returned tt →
   ¬ unsupported_direction (GetDirection problem_) ∧
   ∃ middle,
     new_calls h res.1 =
       (if CheckNumericsEnabled
        then expected_input_checks (GetDirection problem_) X W Y else []) ++
       middle ++
       (if CheckNumericsEnabled
        then expected_output_checks (GetDirection problem_) X W Y else []) ∧
     Forall (λ c, is_numerics c = false) middle) ∧
  (fails_with Unsupported res.2 →
   unsupported_direction (GetDirection problem_) ∧
   new_calls h res.1 =
     if CheckNumericsEnabled
     then [call_checkNumericsInput xd (buffer x); call_checkNumericsInput wd (buffer w);
           call_checkNumericsInput yd (buffer y)]
     else []).
Proof.
  intros Hp Hop Hws Hres Hx Hw Hy. simpl.
  rewrite Run_sufficient by done.
  rewrite (dispatch_conv S inputs workspace workspace_size h p conv_desc Hp Hop), Hres.
  destruct (run_resolved_cases S workspace workspace_size problem_ x w y h)
    as [[Hr _]|[(Hnt & Hnr & _)|(h1 & cp & Hprep)]].
  { rewrite Hr. simpl. split; [done|]. intros (e & [= <-] & Hu). by cbv in Hu. }
  { split; [done|]. intros (e & He & _). by apply Hnt in He. }
  rewrite (run_resolved_prepared _ _ _ _ _ _ _ _ _ _ Hprep).
  destruct Hprep as (_ & Hin & _).
  destruct (check_numerics_inputs_returned _ _ _ _ xd wd yd _ _ Hx Hw Hy Hin) as [_ Hc1].
  destruct (make_invoke_ctx_cases problem_ x w y workspace workspace_size
              cp xd wd yd Hx Hw Hy)
    as [[Hd Hctx]|[[Hd Hctx]|[[Hd Hctx]|(Hf & Hb & Hbw & Hctx)]]];
    simpl in Hctx; rewrite Hctx.
  4:{ simpl. split; [done|]. intros _. split; [done|].
      rewrite (new_calls_app _ _ _ Hc1). unfold expected_input_checks.
      by rewrite !decide_False. }
  all: split;
    [ intros Hret; split; [intros (? & ? & ?); congruence|];
      match type of Hret with
      | (lookup_and_invoke ?a ?b ?c ?d ?f ?g ?i ?j).2 = _ =>
          destruct (lookup_and_invoke a b c d f g i j) as [h' r] eqn:El; simpl in Hret;
          subst r;
          destruct (lookup_and_invoke_returned _ _ _ _ _ _ _ _ _ xd wd yd Hx Hw Hy El)
            as (middle & Hc & Hm)
      end;
      exists middle; split; [|done]; simpl;
      apply new_calls_app; by rewrite Hc, Hc1, <- !app_assoc
    | intros (e & He & _); by apply lookup_and_invoke_not_thrown in He ].
Qed.

End Numerics.

Section Fused.
Context `{!Externals} `{!Collaborators}.

Implicit Types (h : Handle) (S : Solution).
Implicit Types (inputs : gmap miopenTensorArgumentId_t RunInput).

(** Every way the fused [RunImpl] can go once its arguments are bound. *)
Lemma RunImpl_fused_trace S inputs workspace workspace_size fp h bs :
  bind_arguments (buffer_getter inputs) (bindings fp) = Returned bs →
  let res := RunImpl_fused S inputs workspace workspace_size fp h in
  let params := FusionInvokeParams bs in
  (∃ f, AsFusionPlan fp = inl f ∧ res = (h, Propagated f)) ∨
  (∃ plan, AsFusionPlan fp = inr plan ∧
     let cfg := FusionMakeNetworkConfig plan in
     let name := ToString (solver S) in
     let get := call_GetInvoker cfg (solver S) in
     let make := call_MakeFusedSolution (solver S) (perf_cfg S) plan params in
     (∀ e, res.2 ≠ Thrown e) ∧
     ((∃ inv,
         invokers h !! (cfg, name) = Some inv ∧
         calls res.1 = calls h ++ [get; call_invoke inv params] ∧
         invokers res.1 = invokers h) ∨
      (invokers h !! (cfg, name) = None ∧ res.2 ≠ Returned tt ∧
       invokers res.1 = invokers h ∧
       (calls res.1 = calls h ++ [get; make] ∨
        ∃ sol, calls res.1 = calls h ++ [get; make; call_PrepareInvoker sol])) ∨
      (∃ sol inv,
         invokers h !! (cfg, name) = None ∧
         calls res.1 = calls h ++
           [get; make; call_PrepareInvoker sol; call_RegisterInvoker inv cfg name;
            call_invoke inv params] ∧
         invokers res.1 = <[(cfg, name) := inv]> (invokers h)))).
Proof.
  intros Hb. simpl. unfold RunImpl_fused, MakeInvokeParams, bind, lift. rewrite Hb. simpl.
  destruct (AsFusionPlan fp) as [f|plan]; simpl; [left; eauto|].
  right. exists plan. split; [done|].
  unfold GetInvoker, GetSolver, invoke, MakeFusedSolution, PrepareInvoker,
    RegisterInvoker, call. simpl.
  destruct (invokers h !! (FusionMakeNetworkConfig plan, ToString (solver S)))
    as [inv|] eqn:Hk; simpl.
  { split; [by destruct (invoke_ _ _ _)|]. left. exists inv.
    rewrite <- app_assoc. by split_and!. }
  destruct (MakeFusedSolution_ _ _ _ _ _) as [?|sol]; simpl.
  { split; [done|]. right; left. rewrite <- app_assoc. auto 10. }
  destruct (PrepareInvoker_ _ sol) as [?|inv]; simpl.
  { split; [done|]. right; left. rewrite <- !app_assoc. simpl. eauto 10. }
  rewrite Hk. split; [by destruct (invoke_ _ _ _)|].
  right; right. exists sol, inv. rewrite <- !app_assoc. by split_and!.
Qed.

Lemma bind_arguments_cases inputs args :
  (∃ bs, bind_arguments (buffer_getter inputs) args = Returned bs) ∨
  (∃ e, bind_arguments (buffer_getter inputs) args = Thrown e).
Proof.
  induction args as [|[id d] args IH]; simpl; [eauto|].
  pose proof (buffer_getter_total inputs id d) as Ht.
  destruct (buffer_getter inputs id d); simpl; try done; [|eauto].
  destruct IH as [[bs ->]|[e ->]]; simpl; eauto.
Qed.

(** X2 -- Buffers bound for a fused plan.  Binding the arguments of a
    fused plan returns the buffers [bs] exactly when each argument of the
    plan, in order, has an input bound under its id whose buffer is the
    corresponding element of [bs] and which carries no descriptor or the
    descriptor the plan fixed; and every invocation a fused [Run]
    performs receives such a list of buffers. *)
Theorem fused_bound_buffers S inputs workspace workspace_size h fp :
  (∀ bs, bind_arguments (buffer_getter inputs) (bindings fp) = Returned bs ↔
         Forall2 (binds inputs) (bindings fp) bs) ∧
  (problem S = ItemFusedProblem fp →
   ∀ inv params,
     call_invoke inv params ∈ new_calls h (Run S inputs workspace workspace_size h).1 →
     ∃ bs, params = FusionInvokeParams bs ∧ Forall2 (binds inputs) (bindings fp) bs).
Proof.
  assert (∀ args bs, bind_arguments (buffer_getter inputs) args = Returned bs ↔
                     Forall2 (binds inputs) args bs) as Hiff.
  { induction args as [|[id d] args IH]; intros bs; simpl.
    - split; [intros [= <-]; constructor|by inversion 1].
    - pose proof (buffer_getter_cases inputs id d) as Hg.
      destruct (buffer_getter inputs id d) as [b|e| |] eqn:Eg; simpl; try done.
      + destruct (bind_arguments (buffer_getter inputs) args) as [bs'|e| |] eqn:Eb; simpl.
        * split.
          -- intros [= <-]. constructor; [done|]. by apply IH.
          -- inversion 1 as [|? b' ? bs'' Hb Hrest]; subst.
             apply IH in Hrest. simplify_eq.
             destruct Hg as (found & Hf & -> & _), Hb as (found' & Hf' & -> & _).
             simpl in *. by simplify_eq.
        * split; [done|]. inversion 1 as [|? ? ? bs'' _ Hrest]; subst.
          by apply IH in Hrest.
        * split; [done|]. inversion 1 as [|? ? ? bs'' _ Hrest]; subst.
          by apply IH in Hrest.
        * split; [done|]. inversion 1 as [|? ? ? bs'' _ Hrest]; subst.
          by apply IH in Hrest.
      + split; [done|]. inversion 1 as [|? b ? ? (found & Hf & _ & Hd) _]; subst.
        simpl in *. destruct Hg as [[_ Hn]|[_ (found' & d' & Hf' & Hd' & Hne)]];
          [congruence|]. simplify_eq. destruct Hd; congruence. }
  split; [apply Hiff|].
  intros Hp inv params Hin.
  destruct (decide (workspace_size < workspace_required S)%N) as [Hws|Hws].
  { rewrite Run_insufficient in Hin by done. unfold new_calls in Hin. simpl in Hin.
    rewrite drop_all in Hin. by apply elem_of_nil in Hin. }
  rewrite Run_sufficient in Hin by done.
  rewrite (dispatch_fused S inputs workspace workspace_size h fp Hp) in Hin.
  destruct (bind_arguments_cases inputs (bindings fp)) as [[bs Hb]|[e Hb]].
  2:{ assert (RunImpl_fused S inputs workspace workspace_size fp h = (h, Thrown e)) as Hr
        by (by apply RunImpl_fused_thrown).
      rewrite Hr in Hin. unfold new_calls in Hin. simpl in Hin.
      rewrite drop_all in Hin. by apply elem_of_nil in Hin. }
  exists bs. split; [|by apply Hiff].
  destruct (RunImpl_fused_trace S inputs workspace workspace_size fp h bs Hb)
    as [(f & _ & Hr)|(plan & _ & _ & [(inv' & _ & Hc & _)
                                     |[(_ & _ & _ & Hc)|(sol & inv' & _ & Hc & _)]])].
  - rewrite Hr in Hin. unfold new_calls in Hin. simpl in Hin.
    rewrite drop_all in Hin. by apply elem_of_nil in Hin.
  - rewrite (new_calls_app _ _ _ Hc) in Hin.
    set_unfold in Hin. destruct_or!; by simplify_eq.
  - destruct Hc as [Hc|[sol Hc]]; rewrite (new_calls_app _ _ _ Hc) in Hin;
      set_unfold in Hin; destruct_or!; by simplify_eq.
  - rewrite (new_calls_app _ _ _ Hc) in Hin.
    set_unfold in Hin. destruct_or!; by simplify_eq.
Qed.

(** A fused run whose signature has an entry in the cache. *)
Lemma Run_cached_fused S inputs workspace workspace_size h fp cfg inv :
  problem S = ItemFusedProblem fp →
  fused_signature fp = Returned cfg →
  invokers h !! (cfg, ToString (solver S)) = Some inv →
  let res := Run S inputs workspace workspace_size h in
  Forall (λ c, is_fallback c = false) (new_calls h res.1) ∧
  invokers res.1 = invokers h ∧
  (res.2 = Returned tt →
   ∃ bs, new_calls h res.1
         = [call_GetInvoker cfg (solver S); call_invoke inv (FusionInvokeParams bs)]).
Proof.
  intros Hp Hsig Hhit. simpl.
  assert (∀ r : outcome unit, r ≠ Returned tt →
            Forall (λ c, is_fallback c = false) (new_calls h h) ∧ invokers h = invokers h ∧
            (r = Returned tt →
             ∃ bs, new_calls h h
                   = [call_GetInvoker cfg (solver S);
                      call_invoke inv (FusionInvokeParams bs)])) as Hstop.
  { intros r Hr. unfold new_calls. rewrite drop_all. by split_and!. }
  destruct (decide (workspace_size < workspace_required S)%N) as [Hws|Hws].
  { rewrite Run_insufficient by done. by apply Hstop. }
  rewrite Run_sufficient by done.
  rewrite (dispatch_fused S inputs workspace workspace_size h fp Hp).
  destruct (bind_arguments_cases inputs (bindings fp)) as [[bs Hb]|[e Hb]].
  2:{ assert (RunImpl_fused S inputs workspace workspace_size fp h = (h, Thrown e)) as ->
        by (by apply RunImpl_fused_thrown).
      by apply Hstop. }
  unfold fused_signature in Hsig.
  destruct (RunImpl_fused_trace S inputs workspace workspace_size fp h bs Hb)
    as [(f & Hf & _)|(plan & Hplan & _ & Hcases)].
  { by rewrite Hf in Hsig. }
  rewrite Hplan in Hsig. simpl in Hsig. injection Hsig as <-.
  destruct Hcases as [(inv' & Hk & Hc & Hi)|[(Hk & _)|(sol & inv' & Hk & _)]];
    [|congruence..].
  assert (inv' = inv) as -> by congruence.
  rewrite (new_calls_app _ _ _ Hc). split_and!; [by repeat constructor|done|eauto].
Qed.

(** X3 -- Caching on the fused path.  Take a fused solution whose plan
    has the signature [cfg], a handle with nothing cached under ([cfg],
    solver) and a first [Run] that returns: it looked the key up, built
    the fused solution once, prepared one invoker, registered it under
    that key and invoked it, with no numerics call.  After any further
    [Run] calls on the handle, a [Run] of the same solution on any inputs
    makes no fallback call, leaves the cache as it is and, when it
    returns, has only looked the key up and invoked the cached invoker. *)
Theorem fused_idempotent_caching S inputs workspace workspace_size h fp cfg :
  problem S = ItemFusedProblem fp →
  fused_signature fp = Returned cfg →
  invokers h !! (cfg, ToString (solver S)) = None →
  let first := Run S inputs workspace workspace_size h in
  first.2 = Returned tt →
  ∃ plan bs sol inv,
    new_calls h first.1 =
      [call_GetInvoker cfg (solver S);
       call_MakeFusedSolution (solver S) (perf_cfg S) plan (FusionInvokeParams bs);
       call_PrepareInvoker sol;
       call_RegisterInvoker inv cfg (ToString (solver S));
       call_invoke inv (FusionInvokeParams bs)] ∧
    invokers first.1 = <[(cfg, ToString (solver S)) := inv]> (invokers h) ∧
    ∀ rs inputs' workspace' workspace_size',
      let h2 := Runs rs first.1 in
      let later := Run S inputs' workspace' workspace_size' h2 in
      Forall (λ c, is_fallback c = false) (new_calls h2 later.1) ∧
      invokers later.1 = invokers h2 ∧
      (later.2 = Returned tt →
       ∃ bs', new_calls h2 later.1
              = [call_GetInvoker cfg (solver S);
                 call_invoke inv (FusionInvokeParams bs')]).
Proof.
  intros Hp Hsig Hmiss first Hret.
  assert (∃ plan bs sol inv,
    new_calls h first.1 =
      [call_GetInvoker cfg (solver S);
       call_MakeFusedSolution (solver S) (perf_cfg S) plan (FusionInvokeParams bs);
       call_PrepareInvoker sol;
       call_RegisterInvoker inv cfg (ToString (solver S));
       call_invoke inv (FusionInvokeParams bs)] ∧
    invokers first.1 = <[(cfg, ToString (solver S)) := inv]> (invokers h))
    as (plan & bs & sol & inv & Hcalls & Hcache).
  { subst first.
    destruct (decide (workspace_size < workspace_required S)%N) as [Hws|Hws].
    { by rewrite Run_insufficient in Hret. }
    rewrite Run_sufficient in * by done.
    rewrite (dispatch_fused S inputs workspace workspace_size h fp Hp) in *.
    destruct (bind_arguments_cases inputs (bindings fp)) as [[bs Hb]|[e Hb]].
    2:{ assert (RunImpl_fused S inputs workspace workspace_size fp h = (h, Thrown e)) as Hr
          by (by apply RunImpl_fused_thrown).
        by rewrite Hr in Hret. }
    unfold fused_signature in Hsig.
    destruct (RunImpl_fused_trace S inputs workspace workspace_size fp h bs Hb)
      as [(f & Hf & _)|(plan & Hplan & _ & Hcases)].
    { by rewrite Hf in Hsig. }
    rewrite Hplan in Hsig. simpl in Hsig. injection Hsig as <-.
    destruct Hcases as [(inv' & Hk & _)|[(_ & Hnr & _)|(sol & inv & _ & Hc & Hi)]];
      [congruence|done|].
    exists plan, bs, sol, inv. by rewrite (new_calls_app _ _ _ Hc). }
  exists plan, bs, sol, inv. split_and!; [done..|].
  intros rs inputs' workspace' workspace_size' h2 later.
  apply (Run_cached_fused S inputs' workspace' workspace_size' h2 fp cfg inv); [done..|].
  apply keeps_cache_Runs. rewrite Hcache. apply lookup_insert_eq.
Qed.

End Fused.

Section Shapes.
Context `{!Externals} `{!Collaborators}.

Implicit Types (h : Handle) (S : Solution).
Implicit Types (inputs : gmap miopenTensorArgumentId_t RunInput).

Ltac absurd_member :=
  match goal with
  | Hf : Forall (λ c, is_numerics c = true) ?l, Hin : _ ∈ ?l |- _ =>
      rewrite Forall_forall in Hf; by apply Hf in Hin
  end.

(** The four shapes of a [Run]: it stops before the lookup, it hits, it
    misses and stops in the fallback, it misses and registers. *)
Lemma Run_trace S inputs workspace workspace_size h :
  let res := Run S inputs workspace workspace_size h in
  let name := ToString (solver S) in
  (∃ new, calls res.1 = calls h ++ new ∧ invokers res.1 = invokers h ∧
     Forall (λ c, is_numerics c = true) new ∧ res.2 ≠ Returned tt) ∨
  (∃ nin cfg inv params out,
     calls res.1 = calls h ++ nin ++
       [call_GetInvoker cfg (solver S); call_invoke inv params] ++ out ∧
     invokers h !! (cfg, name) = Some inv ∧ invokers res.1 = invokers h ∧
     Forall (λ c, is_numerics c = true) nin ∧ Forall (λ c, is_numerics c = true) out) ∨
  (∃ nin cfg search rest,
     calls res.1 = calls h ++ nin ++ [call_GetInvoker cfg (solver S); search] ++ rest ∧
     is_search search = true ∧ (rest = [] ∨ ∃ sol, rest = [call_PrepareInvoker sol]) ∧
     invokers h !! (cfg, name) = None ∧ invokers res.1 = invokers h ∧
     Forall (λ c, is_numerics c = true) nin ∧ res.2 ≠ Returned tt) ∨
  (∃ nin cfg search sol inv params out,
     calls res.1 = calls h ++ nin ++
       [call_GetInvoker cfg (solver S); search; call_PrepareInvoker sol;
        call_RegisterInvoker inv cfg name; call_invoke inv params] ++ out ∧
     is_search search = true ∧
     invokers h !! (cfg, name) = None ∧
     invokers res.1 = <[(cfg, name) := inv]> (invokers h) ∧
     Forall (λ c, is_numerics c = true) nin ∧ Forall (λ c, is_numerics c = true) out).
Proof.
  simpl.
  assert (∀ r : outcome unit, r ≠ Returned tt →
            ∃ new, calls h = calls h ++ new ∧ invokers h = invokers h ∧
              Forall (λ c, is_numerics c = true) new ∧ r ≠ Returned tt) as Hstop.
  { intros r Hr. exists []. by rewrite app_nil_r. }
  destruct (decide (workspace_size < workspace_required S)%N) as [Hws|Hws].
  { rewrite Run_insufficient by done. left. by apply Hstop. }
  rewrite Run_sufficient by done.
  destruct (problem S) as [p|fp] eqn:Hp.
  - destruct (GetOperatorDescriptor p) as [cd|ad|bd] eqn:Hop.
    2,3: rewrite (dispatch_standalone S inputs workspace workspace_size h p Hp)
           by (intros ?; congruence); left; by apply Hstop.
    rewrite (dispatch_conv S inputs workspace workspace_size h p cd Hp Hop).
    pose proof (resolve_arguments_cases p inputs cd) as Hres.
    destruct (resolve_arguments p inputs cd) as [[[[problem_ x] w] y]|e'|f|];
      [|left; by apply Hstop..].
    destruct Hres as ([xd Hx] & [wd Hw] & [yd Hy]).
    destruct (run_resolved_trace S workspace workspace_size problem_ x w y h xd wd yd
                Hx Hw Hy)
      as [(Hnr & Hi & new & Hc & Hf)
         |(h1 & cp & ctx & nin & _ & _ & Hnin & _ & Hcases)].
    { left. eauto. }
    destruct Hcases as [(inv & out & Hk & Hc & Hout & Hi)
                       |[(Hk & Hnr & Hi & Hc)|(sol & inv & out & Hk & Hc & Hout & Hi)]].
    + right; left. exists nin, (MakeNetworkConfig cp), inv, ctx, out. by split_and!.
    + right; right; left.
      exists nin, (MakeNetworkConfig cp),
        (call_FindSolution (solver S) cp ctx (default "" (perf_cfg S))).
      destruct Hc as [Hc|[sol Hc]].
      * exists []. split_and!; auto.
      * exists [call_PrepareInvoker sol]. split_and!; eauto.
    + right; right; right.
      exists nin, (MakeNetworkConfig cp),
        (call_FindSolution (solver S) cp ctx (default "" (perf_cfg S))),
        sol, inv, ctx, out.
      by split_and!.
  - rewrite (dispatch_fused S inputs workspace workspace_size h fp Hp).
    destruct (bind_arguments_cases inputs (bindings fp)) as [[bs Hb]|[e Hb]].
    2:{ assert (RunImpl_fused S inputs workspace workspace_size fp h = (h, Thrown e)) as ->
          by (by apply RunImpl_fused_thrown).
        left. by apply Hstop. }
    destruct (RunImpl_fused_trace S inputs workspace workspace_size fp h bs Hb)
      as [(f & _ & ->)|(plan & _ & _ & [(inv & Hk & Hc & Hi)
                                       |[(Hk & Hnr & Hi & Hc)|(sol & inv & Hk & Hc & Hi)]])].
    + left. by apply Hstop.
    + right; left. exists [], (FusionMakeNetworkConfig plan), inv, (FusionInvokeParams bs), [].
      by split_and!.
    + right; right; left.
      exists [], (FusionMakeNetworkConfig plan),
        (call_MakeFusedSolution (solver S) (perf_cfg S) plan (FusionInvokeParams bs)).
      destruct Hc as [Hc|[sol Hc]].
      * exists []. split_and!; auto.
      * exists [call_PrepareInvoker sol]. split_and!; eauto.
    + right; right; right.
      exists [], (FusionMakeNetworkConfig plan),
        (call_MakeFusedSolution (solver S) (perf_cfg S) plan (FusionInvokeParams bs)),
        sol, inv, (FusionInvokeParams bs), [].
      by split_and!.
Qed.

(** X4 -- The cache grows by at most one entry.  Whatever its outcome,
    a [Run] either leaves the invoker cache exactly as it was and
    registers nothing, or adds one entry: under the key (signature, solver
    name) that it looked up, which was free, holding the invoker that it
    registered.  No entry is changed or removed. *)
Theorem Run_inserts_at_most_one S inputs workspace workspace_size h :
  let res := Run S inputs workspace workspace_size h in
  (invokers res.1 = invokers h ∧
   ∀ inv cfg name, call_RegisterInvoker inv cfg name ∉ new_calls h res.1) ∨
  (∃ cfg inv,
     invokers h !! (cfg, ToString (solver S)) = None ∧
     invokers res.1 = <[(cfg, ToString (solver S)) := inv]> (invokers h) ∧
     call_GetInvoker cfg (solver S) ∈ new_calls h res.1 ∧
     call_RegisterInvoker inv cfg (ToString (solver S)) ∈ new_calls h res.1).
Proof.
  simpl.
  destruct (Run_trace S inputs workspace workspace_size h)
    as [(new & Hc & Hi & Hf & _)
       |[(nin & cfg & inv & params & out & Hc & _ & Hi & Hnin & Hout)
        |[(nin & cfg & search & rest & Hc & Hs & Hrest & _ & Hi & Hnin & _)
         |(nin & cfg & search & sol & inv & params & out & Hc & _ & Hk & Hi & _)]]].
  - left. split; [done|]. intros inv cfg name Hin.
    rewrite (new_calls_app _ _ _ Hc) in Hin. absurd_member.
  - left. split; [done|]. intros inv' cfg' name Hin.
    rewrite (new_calls_app _ _ _ Hc) in Hin.
    set_unfold in Hin. destruct_or!; simplify_eq; absurd_member.
  - left. split; [done|]. intros inv' cfg' name Hin.
    rewrite (new_calls_app _ _ _ Hc) in Hin.
    destruct Hrest as [->|[sol ->]]; set_unfold in Hin; destruct_or!; simplify_eq;
      try absurd_member; done.
  - right. exists cfg, inv. rewrite (new_calls_app _ _ _ Hc).
    split_and!; [done..| |]; set_solver.
Qed.

(** X5 -- One invocation at most.  Whatever its outcome, a [Run] invokes
    at most one invoker, exactly one when it returns; the invocation comes
    after a cache lookup of the same [Run], and the invoker invoked is the
    one the cache holds, after the [Run], under the key looked up. *)
Theorem Run_invokes_at_most_once S inputs workspace workspace_size h :
  let res := Run S inputs workspace workspace_size h in
  let invocations := filter (λ c, is_invoke c = true) (new_calls h res.1) in
  length invocations ≤ 1 ∧
  (res.2 = Returned tt → length invocations = 1) ∧
  (∀ inv params, call_invoke inv params ∈ new_calls h res.1 →
     ∃ cfg before after,
       new_calls h res.1 = before ++ call_GetInvoker cfg (solver S) :: after ∧
       call_invoke inv params ∈ after ∧
       invokers res.1 !! (cfg, ToString (solver S)) = Some inv).
Proof.
  simpl.
  destruct (Run_trace S inputs workspace workspace_size h)
    as [(new & Hc & Hi & Hf & Hnr)
       |[(nin & cfg & inv & params & out & Hc & Hk & Hi & Hnin & Hout)
        |[(nin & cfg & search & rest & Hc & Hs & Hrest & _ & Hi & Hnin & Hnr)
         |(nin & cfg & search & sol & inv & params & out & Hc & Hs & Hk & Hi & Hnin & Hout)]]];
    rewrite (new_calls_app _ _ _ Hc).
  - rewrite filter_invoke_numerics by done. split_and!; [simpl; lia|done|].
    intros inv params Hin. absurd_member.
  - rewrite !filter_app, (filter_invoke_numerics nin), (filter_invoke_numerics out) by done.
    rewrite filter_cons_False by done. rewrite filter_cons_True by done.
    split_and!; [simpl; lia|done|].
    intros inv' params' Hin. exists cfg, nin, (call_invoke inv params :: out).
    assert (call_invoke inv' params' = call_invoke inv params) as Heq.
    { set_unfold in Hin. destruct_or!; simplify_eq; try done; absurd_member. }
    simplify_eq. split_and!; [done|by repeat constructor|by rewrite Hi].
  - assert (filter (λ c, is_invoke c = true)
              (nin ++ [call_GetInvoker cfg (solver S); search] ++ rest) = []) as ->.
    { rewrite !filter_app, (filter_invoke_numerics nin) by done.
      rewrite filter_cons_False by done. rewrite filter_cons_False by (by destruct search).
      by destruct Hrest as [->|[sol ->]]. }
    split_and!; [simpl; lia|done|].
    intros inv params Hin. exfalso.
    destruct Hrest as [->|[sol ->]]; set_unfold in Hin; destruct_or!; simplify_eq;
      try absurd_member; done.
  - rewrite !filter_app, (filter_invoke_numerics nin), (filter_invoke_numerics out) by done.
    rewrite filter_cons_False by done. rewrite filter_cons_False by (by destruct search).
    rewrite !filter_cons_False by done. rewrite filter_cons_True by done.
    split_and!; [simpl; lia|done|].
    intros inv' params' Hin.
    exists cfg, nin, ([search; call_PrepareInvoker sol;
                       call_RegisterInvoker inv cfg (ToString (solver S));
                       call_invoke inv params] ++ out).
    assert (call_invoke inv' params' = call_invoke inv params) as Heq.
    { set_unfold in Hin. destruct_or!; simplify_eq; try done; absurd_member. }
    simplify_eq. split_and!; [done|simpl; by repeat constructor|].
    rewrite Hi. apply lookup_insert_eq.
Qed.

(** X6 -- Own failures come before the lookup.  When [Run] ends with an
    exception raised by [Run] itself, the status is bad-parameter,
    invalid-value or not-implemented, the invoker cache is as it was, and
    the only calls made are numerics checks: no lookup, no search, no
    preparation, no registration, no invocation. *)
Theorem Run_throws_before_lookup S inputs workspace workspace_size h h' e :
  Run S inputs workspace workspace_size h = (h', Thrown e) →
  (status e = miopenStatusBadParm ∨ status e = miopenStatusInvalidValue ∨
   status e = miopenStatusNotImplemented) ∧
  invokers h' = invokers h ∧
  Forall (λ c, is_numerics c = true) (new_calls h h') ∧
  (status e ≠ miopenStatusNotImplemented → h' = h).
Proof.
  intros Hr.
  destruct (decide (workspace_size < workspace_required S)%N) as [Hws|Hws].
  { rewrite Run_insufficient in Hr by done. simplify_eq. unfold new_calls.
    rewrite drop_all. split_and!; auto. }
  rewrite Run_sufficient in Hr by done.
  apply dispatch_thrown in Hr as [[Hm ->]|[[-> ->]|(Hu & Hi & new & Hc & Hf)]].
  - unfold new_calls. rewrite drop_all. split_and!; auto.
  - unfold new_calls. rewrite drop_all. split_and!; auto.
  - rewrite (new_calls_app _ _ _ Hc). split_and!; auto. intros Hn. by destruct Hn.
Qed.

End Shapes.

Section Keys.
Context `{!Externals} `{!Collaborators}.

Implicit Types (h : Handle) (S : Solution).
Implicit Types (inputs : gmap miopenTensorArgumentId_t RunInput).

(** A first returning convolution run that misses leaves its invoker in
    the cache under the key of its signature. *)
Lemma conv_first_run S inputs workspace workspace_size h p conv_desc cfg :
  problem S = ItemProblem p → GetOperatorDescriptor p = OpConvolution conv_desc →
  signature p inputs conv_desc = Returned cfg →
  invokers h !! (cfg, ToString (solver S)) = None →
  (Run S inputs workspace workspace_size h).2 = Returned tt →
  ∃ inv, invokers (Run S inputs workspace workspace_size h).1
         = <[(cfg, ToString (solver S)) := inv]> (invokers h).
Proof.
  intros Hp Hop Hsig Hmiss Hret.
  destruct (decide (workspace_size < workspace_required S)%N) as [Hws|Hws].
  { by rewrite Run_insufficient in Hret. }
  rewrite Run_sufficient in * by done.
  rewrite (dispatch_conv S inputs workspace workspace_size h p conv_desc Hp Hop) in *.
  destruct (signature_inv p inputs conv_desc cfg Hsig)
    as (problem_ & x & w & y & cp & xd & wd & yd & Hres & Hx & Hw & Hy & Hcp & <-).
  rewrite Hres in *.
  destruct (run_resolved_trace S workspace workspace_size problem_ x w y h xd wd yd
              Hx Hw Hy)
    as [(Hnr & _)|(h1 & cp' & ctx & nin & Hprep & Hctx & Hnin & _ & Hcases)];
    [done|].
  assert (cp' = cp) as -> by (destruct Hprep as (_ & _ & Ha & _); congruence).
  destruct Hcases as [(inv' & out & Hk & _)
                     |[(_ & Hnr & _)|(sol & inv & out & _ & _ & _ & Hi)]];
    [congruence|done|].
  by exists inv.
Qed.

(** A convolution run whose signature cannot be computed stops before the
    cache lookup. *)
Lemma Run_without_signature S inputs workspace workspace_size h p conv_desc :
  problem S = ItemProblem p → GetOperatorDescriptor p = OpConvolution conv_desc →
  (∀ cfg, signature p inputs conv_desc ≠ Returned cfg) →
  Forall (λ c, is_fallback c = false)
    (new_calls h (Run S inputs workspace workspace_size h).1).
Proof.
  intros Hp Hop Hsig.
  assert (Forall (λ c, is_fallback c = false) (new_calls h h)) as Hstop.
  { unfold new_calls. by rewrite drop_all. }
  destruct (decide (workspace_size < workspace_required S)%N) as [Hws|Hws].
  { by rewrite Run_insufficient. }
  rewrite Run_sufficient by done.
  rewrite (dispatch_conv S inputs workspace workspace_size h p conv_desc Hp Hop).
  pose proof (resolve_arguments_cases p inputs conv_desc) as Hd.
  unfold signature in Hsig.
  destruct (resolve_arguments p inputs conv_desc) as [[[[problem_ x] w] y]| | |];
    [|done..].
  destruct Hd as ([xd Hx] & [wd Hw] & [yd Hy]). simpl in Hsig.
  destruct (run_resolved_trace S workspace workspace_size problem_ x w y h xd wd yd
              Hx Hw Hy)
    as [(_ & _ & new & Hc & Hf)|(h1 & cp & _ & _ & Hprep & _)].
  - rewrite (new_calls_app _ _ _ Hc). by apply numerics_not_fallback.
  - destruct Hprep as (_ & _ & Ha & _). rewrite Ha in Hsig. simpl in Hsig.
    by destruct (Hsig (MakeNetworkConfig cp)).
Qed.

(** X7 -- Outside transpose mode the signature ignores the inputs.  For
    a convolution whose mode is not transpose, [RunImpl] keeps the problem
    of the solution as it is, so the signature under which the invoker is
    looked up is the same for all inputs that resolve, whatever
    descriptors they carry.  Hence once a first [Run] has returned after a
    miss, no later [Run] of that solution, on any inputs, makes a fallback
    call. *)
Theorem non_transpose_signature_ignores_inputs S p conv_desc :
  problem S = ItemProblem p → GetOperatorDescriptor p = OpConvolution conv_desc →
  mode conv_desc ≠ miopenTranspose →
  (∀ inputs problem_ x w y,
     resolve_arguments p inputs conv_desc = Returned (problem_, x, w, y) → problem_ = p) ∧
  (∀ inputs1 inputs2 cfg1 cfg2,
     signature p inputs1 conv_desc = Returned cfg1 →
     signature p inputs2 conv_desc = Returned cfg2 → cfg1 = cfg2) ∧
  (∀ inputs workspace workspace_size h cfg,
     signature p inputs conv_desc = Returned cfg →
     invokers h !! (cfg, ToString (solver S)) = None →
     (Run S inputs workspace workspace_size h).2 = Returned tt →
     ∀ rs inputs' workspace' workspace_size',
       let h2 := Runs rs (Run S inputs workspace workspace_size h).1 in
       Forall (λ c, is_fallback c = false)
         (new_calls h2 (Run S inputs' workspace' workspace_size' h2).1)).
Proof.
  intros Hp Hop Hmode.
  assert (∀ inputs problem_ x w y,
            resolve_arguments p inputs conv_desc = Returned (problem_, x, w, y) →
            problem_ = p) as Hsame.
  { intros inputs problem_ x w y. unfold resolve_arguments.
    destruct (get_input_checked p inputs miopenTensorConvolutionX _); simpl; [|done..].
    destruct (get_input_checked p inputs miopenTensorConvolutionW _); simpl; [|done..].
    destruct (get_input_checked p inputs miopenTensorConvolutionY _); simpl; [|done..].
    rewrite decide_False by done. by intros [= <- _ _ _]. }
  assert (∀ inputs1 inputs2 cfg1 cfg2,
            signature p inputs1 conv_desc = Returned cfg1 →
            signature p inputs2 conv_desc = Returned cfg2 → cfg1 = cfg2) as Hkey.
  { intros inputs1 inputs2 cfg1 cfg2 H1 H2.
    destruct (signature_inv _ _ _ _ H1) as (q1 & ? & ? & ? & cp1 & ? & ? & ? & Hr1 & _ & _ & _ & Ha1 & <-).
    destruct (signature_inv _ _ _ _ H2) as (q2 & ? & ? & ? & cp2 & ? & ? & ? & Hr2 & _ & _ & _ & Ha2 & <-).
    apply Hsame in Hr1 as ->. apply Hsame in Hr2 as ->. congruence. }
  split_and!; [done..|].
  intros inputs workspace workspace_size h cfg Hsig Hmiss Hret rs inputs' workspace'
    workspace_size' h2.
  destruct (conv_first_run S inputs workspace workspace_size h p conv_desc cfg
              Hp Hop Hsig Hmiss Hret) as (inv & Hcache).
  assert (invokers h2 !! (cfg, ToString (solver S)) = Some inv) as Hhit.
  { apply keeps_cache_Runs. rewrite Hcache. apply lookup_insert_eq. }
  destruct (signature p inputs' conv_desc) as [cfg'| | |] eqn:Hsig'.
  - assert (cfg' = cfg) as -> by (by eapply Hkey).
    by apply (Run_cached S inputs' workspace' workspace_size' h2 p conv_desc cfg inv).
  - apply (Run_without_signature S inputs' workspace' workspace_size' h2 p conv_desc);
      [done..|]. intros ?. by rewrite Hsig'.
  - apply (Run_without_signature S inputs' workspace' workspace_size' h2 p conv_desc);
      [done..|]. intros ?. by rewrite Hsig'.
  - apply (Run_without_signature S inputs' workspace' workspace_size' h2 p conv_desc);
      [done..|]. intros ?. by rewrite Hsig'.
Qed.

(** X8 -- The cached invoker is shared between solutions.  After a
    first returning [Run] of a convolution solution that missed the cache,
    a [Run] of any other convolution solution with the same solver display
    name and a problem of the same signature -- whatever its tuning
    payload, time and required workspace -- makes no fallback call, leaves
    the cache as it is and, when it returns, has invoked the invoker that
    the first solution registered. *)
Theorem cached_invoker_is_shared S1 S2 inputs1 inputs2 workspace workspace_size h
    p1 p2 conv_desc1 conv_desc2 cfg :
  problem S1 = ItemProblem p1 → GetOperatorDescriptor p1 = OpConvolution conv_desc1 →
  signature p1 inputs1 conv_desc1 = Returned cfg →
  invokers h !! (cfg, ToString (solver S1)) = None →
  (Run S1 inputs1 workspace workspace_size h).2 = Returned tt →
  problem S2 = ItemProblem p2 → GetOperatorDescriptor p2 = OpConvolution conv_desc2 →
  signature p2 inputs2 conv_desc2 = Returned cfg →
  ToString (solver S2) = ToString (solver S1) →
  ∃ inv,
    invokers (Run S1 inputs1 workspace workspace_size h).1
      !! (cfg, ToString (solver S1)) = Some inv ∧
    ∀ rs workspace' workspace_size',
      let h2 := Runs rs (Run S1 inputs1 workspace workspace_size h).1 in
      let later := Run S2 inputs2 workspace' workspace_size' h2 in
      Forall (λ c, is_fallback c = false) (new_calls h2 later.1) ∧
      invokers later.1 = invokers h2 ∧
      (later.2 = Returned tt →
       ∃ nin ctx nout,
         new_calls h2 later.1 =
           nin ++ [call_GetInvoker cfg (solver S2); call_invoke inv ctx] ++ nout ∧
         Forall (λ c, is_numerics c = true) nin ∧
         Forall (λ c, is_numerics c = true) nout).
Proof.
  intros Hp1 Hop1 Hsig1 Hmiss Hret Hp2 Hop2 Hsig2 Hname.
  destruct (conv_first_run S1 inputs1 workspace workspace_size h p1 conv_desc1 cfg
              Hp1 Hop1 Hsig1 Hmiss Hret) as (inv & Hcache).
  exists inv. split; [rewrite Hcache; apply lookup_insert_eq|].
  intros rs workspace' workspace_size' h2 later.
  apply (Run_cached S2 inputs2 workspace' workspace_size' h2 p2 conv_desc2 cfg inv);
    [done..|].
  rewrite Hname. apply keeps_cache_Runs. rewrite Hcache. apply lookup_insert_eq.
Qed.


End Keys.

Section Logging.
Context `{!Externals}.
Variable Value : Id → N.
Variable LogCmdConvolution_ :
  list DriverCommand → TensorDescriptor → TensorDescriptor → ConvolutionDescriptor →
  TensorDescriptor → miopenProblemDirection_t → option N → foreign + unit.
Variable Problem_LogDriverCommand_ : list DriverCommand → Problem → foreign + unit.

Implicit Types (S : Solution) (log : list DriverCommand).

(** X10 -- Logging the command of a convolution.  [LogDriverCommand] on
    a convolution solution reads the three descriptors from the problem
    itself: when X, W and Y are all registered it calls
    [LogCmdConvolution] once with them, the operator descriptor, the
    direction of the problem and the numeric value of the solver, and ends
    as that call ends; when one of them is not registered it logs nothing
    and throws the invalid-value exception -- although [Run] never throws
    while resolving the arguments of that problem when each of the three
    inputs carries its own descriptor. *)
Theorem LogDriverCommand_convolution S p conv_desc log :
  problem S = ItemProblem p → GetOperatorDescriptor p = OpConvolution conv_desc →
  (∀ xd wd yd,
     tensor_descriptors p !! miopenTensorConvolutionX = Some xd →
     tensor_descriptors p !! miopenTensorConvolutionW = Some wd →
     tensor_descriptors p !! miopenTensorConvolutionY = Some yd →
     LogDriverCommand Value LogCmdConvolution_ Problem_LogDriverCommand_ S log =
       (log ++ [LogCmdConvolution xd wd conv_desc yd (GetDirection p)
                  (Some (Value (solver S)))],
        of_collaborator
          (LogCmdConvolution_ log xd wd conv_desc yd (GetDirection p)
             (Some (Value (solver S)))))) ∧
  (tensor_descriptors p !! miopenTensorConvolutionX = None ∨
   tensor_descriptors p !! miopenTensorConvolutionW = None ∨
   tensor_descriptors p !! miopenTensorConvolutionY = None →
   ∃ e, LogDriverCommand Value LogCmdConvolution_ Problem_LogDriverCommand_ S log
        = (log, Thrown e) ∧ MissingArgument e) ∧
  (∀ `{!Collaborators} inputs x w y dx dw dy,
     inputs !! miopenTensorConvolutionX = Some x → descriptor x = Some dx →
     inputs !! miopenTensorConvolutionW = Some w → descriptor w = Some dw →
     inputs !! miopenTensorConvolutionY = Some y → descriptor y = Some dy →
     ∀ e, resolve_arguments p inputs conv_desc ≠ Thrown e).
Proof.
  intros Hp Hop. split_and!.
  - intros xd wd yd Hx Hw Hy.
    unfold LogDriverCommand, LogDriverCommand_problem, LogDriverCommand_conv,
      get_Problem, GetTensorDescriptorChecked, bind, lift, emit.
    rewrite Hp, Hop. simpl. rewrite Hx. simpl. rewrite Hw. simpl. by rewrite Hy.
  - intros Hmiss.
    unfold LogDriverCommand, LogDriverCommand_problem, LogDriverCommand_conv,
      get_Problem, GetTensorDescriptorChecked, MIOPEN_THROW, bind, lift, emit.
    rewrite Hp, Hop. simpl.
    destruct (tensor_descriptors p !! miopenTensorConvolutionX); simpl; [|by eexists].
    destruct (tensor_descriptors p !! miopenTensorConvolutionW); simpl; [|by eexists].
    destruct (tensor_descriptors p !! miopenTensorConvolutionY); simpl; [|by eexists].
    by destruct Hmiss as [?|[?|?]].
  - intros C inputs x w y dx dw dy Hx Hdx Hw Hdw Hy Hdy e.
    unfold resolve_arguments, get_input_checked.
    rewrite Hx, Hw, Hy. simpl. rewrite Hdx, Hdw, Hdy. simpl.
    destruct (decide (mode conv_desc = miopenTranspose)); [|done].
    unfold Transpose. by destruct (MakeTransposed p).
Qed.

(** X11 -- What logging a command can do.  Whatever the solution,
    [LogDriverCommand] keeps the entries already logged and either makes
    no logging call -- then it returns or throws the invalid-value
    exception -- or makes exactly one and ends as that call ends.  It
    makes none and returns for a fused problem and for a bias problem;
    for an activation problem it calls [Problem::LogDriverCommand] on
    the problem and ends as that call ends. *)
Theorem LogDriverCommand_at_most_one S log :
  let res :=
    LogDriverCommand Value LogCmdConvolution_ Problem_LogDriverCommand_ S log in
  let callee := callee LogCmdConvolution_ Problem_LogDriverCommand_ in
  ((res.1 = log ∧
    (res.2 = Returned tt ∨ ∃ e, res.2 = Thrown e ∧ MissingArgument e)) ∨
   (∃ c, res.1 = log ++ [c] ∧ res.2 = of_collaborator (callee log c))) ∧
  (∀ fp, problem S = ItemFusedProblem fp → res = (log, Returned tt)) ∧
  (∀ p d, problem S = ItemProblem p → GetOperatorDescriptor p = OpBias d →
     res = (log, Returned tt)) ∧
  (∀ p d, problem S = ItemProblem p → GetOperatorDescriptor p = OpActivation d →
     res = (log ++ [Problem_LogDriverCommand p],
            of_collaborator (Problem_LogDriverCommand_ log p))).
Proof.
  simpl. split_and!.
  - unfold LogDriverCommand, LogDriverCommand_problem, LogDriverCommand_conv,
      LogDriverCommand_activation, LogDriverCommand_fused, get_Problem,
      GetTensorDescriptorChecked, MIOPEN_THROW, bind, lift, emit, ret.
    destruct (problem S) as [p|fp] eqn:Hp; simpl; [|by left; split; [|left]].
    destruct (GetOperatorDescriptor p) as [cd|ad|bd]; rewrite ?Hp; simpl.
    + destruct (tensor_descriptors p !! miopenTensorConvolutionX); simpl.
      2:{ left. split; [done|]. right. by eexists. }
      destruct (tensor_descriptors p !! miopenTensorConvolutionW); simpl.
      2:{ left. split; [done|]. right. by eexists. }
      destruct (tensor_descriptors p !! miopenTensorConvolutionY); simpl.
      2:{ left. split; [done|]. right. by eexists. }
      right. by eexists.
    + right. by eexists.
    + left. split; [done|]. by left.
  - intros fp Hp. unfold LogDriverCommand. by rewrite Hp.
  - intros p d Hp Hop. unfold LogDriverCommand, LogDriverCommand_problem.
    by rewrite Hp, Hop.
  - intros p d Hp Hop.
    unfold LogDriverCommand, LogDriverCommand_problem,
      LogDriverCommand_activation, get_Problem, bind, lift, emit.
    by rewrite Hp, Hop.
Qed.

End Logging.

Section Records.
Context `{!Externals} `{!ProblemJson}.
Variable Current : SerializationMetadata.

Implicit Types (j : json) (dest solution : Solution).

(** X12 -- The header record.  Decoding the encoding of a header gives
    the header back.  Decoding anything that is not an object
    with both keys ["validation"] and ["version"] ends with an exception
    of the JSON library and never with one of this file. *)
Theorem metadata_roundtrip :
  (∀ metadata, from_json_metadata (to_json_metadata metadata) = Returned metadata) ∧
  (∀ j, (∀ m, j ≠ Jobject m) → ∃ id, from_json_metadata j = Propagated (json_exception id)) ∧
  (∀ m, m !! "validation" = None ∨ m !! "version" = None →
     ∃ id, from_json_metadata (Jobject m) = Propagated (json_exception id)) ∧
  (∀ j e, from_json_metadata j ≠ Thrown e).
Proof.
  assert (∀ v, match get_ulong v with
               | Returned _ => True
               | Propagated (json_exception _) => True
               | _ => False
               end) as Hget by (by intros []).
  split_and!.
  - apply from_json_to_json_metadata.
  - intros j Hj. unfold from_json_metadata, json_at.
    destruct j; simpl; eauto. by destruct (Hj m).
  - intros m Hm. unfold from_json_metadata, json_at.
    destruct (m !! "validation") as [v|] eqn:Hv; simpl; [|eauto].
    pose proof (Hget v) as Hgv.
    destruct (get_ulong v) as [n| |[]|]; simpl; try done; [|eauto].
    destruct (m !! "version") as [v'|] eqn:Hv'; simpl; [|eauto].
    by destruct Hm.
  - intros j e. unfold from_json_metadata, json_at.
    destruct j as [| | | | | | |m]; simpl; try done.
    destruct (m !! "validation") as [v|]; simpl; [|done].
    pose proof (Hget v) as Hgv.
    destruct (get_ulong v) as [n| |[]|]; simpl; try done.
    destruct (m !! "version") as [v'|]; simpl; [|done].
    pose proof (Hget v') as Hgv'.
    by destruct (get_ulong v') as [n'| |[]|].
Qed.

(** X13 -- Shape of an encoded solution.  [to_json] produces an object
    whose keys are ["header"], ["time"], ["workspace"], ["solver"],
    ["problem"], and ["perf_cfg"] exactly when the solution has a tuning
    payload; the header is the current one whatever the solution, so the
    header check of [from_json] accepts every encoded solution. *)
Theorem to_json_record_shape solution :
  ∃ m : gmap string json,
    to_json Current solution = Jobject m ∧
    dom m = ({["header"; "time"; "workspace"; "solver"; "problem"]} : gset string)
            ∪ (if perf_cfg solution is Some _ then {["perf_cfg"]} else ∅) ∧
    m !! "header" = Some (to_json_metadata Current) ∧
    m !! "workspace" = Some (Jnumber_unsigned (workspace_required solution)) ∧
    m !! "solver" = Some (Jstring (ToString (solver solution))) ∧
    m !! "perf_cfg" = Jstring <$> perf_cfg solution ∧
    check_header Current (to_json Current solution) = Returned tt.
Proof.
  eexists. split; [reflexivity|]. split_and!.
  - destruct (perf_cfg solution); simpl; rewrite ?dom_insert_L, dom_empty_L; set_solver.
  - destruct (perf_cfg solution); simpl; by repeat (rewrite lookup_insert_ne by done).
  - destruct (perf_cfg solution); simpl; by repeat (rewrite lookup_insert_ne by done).
  - destruct (perf_cfg solution); simpl; by repeat (rewrite lookup_insert_ne by done).
  - pose proof (to_json_find_perf_cfg Current solution) as Hf. unfold to_json in Hf.
    exact Hf.
  - apply check_header_to_json.
Qed.

(** X14 -- Decoding is not atomic after the header.  Once the header of
    a record is accepted, [from_json] assigns the fields one by one in the
    order time, workspace, solver, problem, perf_cfg: when reading a field
    fails, the fields before it have already been overwritten and the ones
    from it on keep what the destination held.  Shown for a failure at
    ["time"] (nothing changed), at ["workspace"] (only [time] changed), at
    ["solver"] ([time] and [workspace_required] changed) and at
    ["problem"] (these and [solver] changed, [perf_cfg] kept). *)
Theorem from_json_assigns_in_order j dest :
  check_header Current j = Returned tt →
  let res := from_json Current j dest in
  let read_time := try* v := json_at j "time" in get_float v in
  let read_workspace := try* v := json_at j "workspace" in get_ulong v in
  let read_solver := try* v := json_at j "solver" in get_string v in
  ((∀ t, read_time ≠ Returned t) → res.1 = dest ∧ res.2 ≠ Returned tt) ∧
  (∀ t, read_time = Returned t → (∀ w, read_workspace ≠ Returned w) →
     res.1 = set_time t dest ∧ res.2 ≠ Returned tt) ∧
  (∀ t w, read_time = Returned t → read_workspace = Returned w →
     (∀ s, read_solver ≠ Returned s) →
     res.1 = set_workspace_required w (set_time t dest) ∧ res.2 ≠ Returned tt) ∧
  (∀ t w s, read_time = Returned t → read_workspace = Returned w →
     read_solver = Returned s → (∀ v, json_at j "problem" ≠ Returned v) →
     res.1 = set_solver (Id_of_string s) (set_workspace_required w (set_time t dest)) ∧
     perf_cfg res.1 = perf_cfg dest ∧ res.2 ≠ Returned tt).
Proof.
  intros Hh. simpl. rewrite (from_json_accepted Current j dest Hh).
  unfold read_fields, bind, lift, modify. split_and!.
  - intros Hf. destruct (try* v := json_at j "time" in get_float v) as [t| | |];
      simpl; [by destruct (Hf t)|done..].
  - intros t -> Hf. simpl.
    destruct (try* v := json_at j "workspace" in get_ulong v) as [w| | |];
      simpl; [by destruct (Hf w)|done..].
  - intros t w -> -> Hf. simpl.
    destruct (try* v := json_at j "solver" in get_string v) as [s| | |];
      simpl; [by destruct (Hf s)|done..].
  - intros t w s -> -> -> Hf. simpl.
    destruct (json_at j "problem") as [v| | |]; simpl; [by destruct (Hf v)|done..].
Qed.

(** X15 -- What a returned decode holds.  When [from_json] returns, the
    record had the current header, and the time, the required workspace,
    the solver and the tuning payload of the destination are the values
    read from the record, whatever the destination held before: in
    particular a record without ["perf_cfg"] leaves the destination
    without tuning payload, and a ["perf_cfg"] that is present is a
    string. *)
Theorem from_json_returned j dest decoded :
  from_json Current j dest = (decoded, Returned tt) →
  check_header Current j = Returned tt ∧
  (try* v := json_at j "time" in get_float v) = Returned (time decoded) ∧
  (try* v := json_at j "workspace" in get_ulong v)
    = Returned (workspace_required decoded) ∧
  (∃ s, (try* v := json_at j "solver" in get_string v) = Returned s ∧
        solver decoded = Id_of_string s) ∧
  (∃ v, json_at j "problem" = Returned v ∧
        problem_from_json v (problem dest) = (problem decoded, Returned tt)) ∧
  match json_find j "perf_cfg" with
  | None => perf_cfg decoded = None
  | Some v => ∃ c, v = Jstring c ∧ perf_cfg decoded = Some c
  end.
Proof.
  unfold from_json, bind at 1, lift at 1.
  destruct (check_header Current j) as [[]| | |] eqn:Hh; [|done..].
  unfold read_fields, bind, lift, modify, get_to_problem.
  destruct (try* v := json_at j "time" in get_float v) as [t| | |]; simpl; [|done..].
  destruct (try* v := json_at j "workspace" in get_ulong v) as [w| | |]; simpl; [|done..].
  destruct (try* v := json_at j "solver" in get_string v) as [s| | |]; simpl; [|done..].
  destruct (json_at j "problem") as [v| | |]; simpl; [|done..].
  destruct (problem_from_json v (problem dest)) as [p' [[]| | |]] eqn:Hp; simpl; [|done..].
  destruct (json_find j "perf_cfg") as [c|]; simpl.
  - destruct c; simpl; try done. intros [= <-]. simpl. split_and!; eauto.
  - intros [= <-]. simpl. split_and!; eauto.
Qed.

End Records.

Section Prediction.

Lemma max_element_loop_spec rest : ∀ pre largest lv,
  pre !! largest = Some lv →
  (∀ j u, pre !! j = Some u → (u ≤ lv)%N) →
  (∀ j u, j < largest → pre !! j = Some u → (u < lv)%N) →
  first_maximum (pre ++ rest) (max_element_loop largest lv (length pre) rest).
Proof.
  induction rest as [|v rest IH]; intros pre largest lv Hl Hmax Hfirst; simpl.
  - rewrite app_nil_r. exists lv. by split_and!.
  - replace (pre ++ v :: rest) with ((pre ++ [v]) ++ rest)
      by (by rewrite <- app_assoc).
    assert (S (length pre) = length (pre ++ [v])) as Hlen
      by (rewrite length_app; simpl; lia).
    destruct (N.ltb_spec lv v) as [Hlt|Hge]; rewrite Hlen.
    + apply (IH (pre ++ [v]) (length pre) v).
      * rewrite lookup_app_r by lia. by rewrite Nat.sub_diag.
      * intros j u Hj. apply lookup_app_Some in Hj as [Hj|[_ Hj]].
        -- apply Hmax in Hj. lia.
        -- destruct (j - length pre) as [|k]; simplify_eq/=. lia.
      * intros j u Hlt' Hj. rewrite lookup_app_l in Hj by lia.
        apply Hmax in Hj. lia.
    + apply (IH (pre ++ [v]) largest lv).
      * rewrite lookup_app_l; [done|]. by apply lookup_lt_Some in Hl.
      * intros j u Hj. apply lookup_app_Some in Hj as [Hj|[_ Hj]].
        -- by apply Hmax in Hj.
        -- destruct (j - length pre) as [|k]; simplify_eq/=. lia.
      * intros j u Hlt' Hj.
        assert (j < length pre) by (apply lookup_lt_Some in Hl; lia).
        rewrite lookup_app_l in Hj by lia. by eapply Hfirst.
Qed.

Lemma max_element_distance_first_maximum v solvers :
  first_maximum (v :: solvers) (max_element_distance (v :: solvers)).
Proof.
  apply (max_element_loop_spec solvers [v] 0 v); [done| |].
  - intros [|j] u Hj; simplify_eq/=. lia.
  - intros j u Hj. lia.
Qed.

Lemma first_maximum_unique l i1 i2 :
  first_maximum l i1 → first_maximum l i2 → i1 = i2.
Proof.
  intros (v1 & H1 & Hmax1 & Hfirst1) (v2 & H2 & Hmax2 & Hfirst2).
  destruct (Nat.lt_trichotomy i1 i2) as [Hlt|[->|Hlt]]; [|done|].
  - pose proof (Hfirst2 _ _ Hlt H1). pose proof (Hmax1 _ _ H2). lia.
  - pose proof (Hfirst1 _ _ Hlt H2). pose proof (Hmax2 _ _ H1). lia.
Qed.

Variable TestProblem : Type.
Variable ExecutionContext : Type.
Variable PredictSolver : TestProblem → ExecutionContext → string → list N.

(** X16 -- Verdict of the solver-prediction test, in a build with the
    fallback feature.  The test is skipped exactly when the device is not
    the one the case names.  Otherwise it passes exactly when the
    expected solver is the position of the first largest score of the
    prediction -- a largest score, with strictly smaller scores before it
    -- or, for an empty prediction, when the expected solver is 0; in
    every other case it fails. *)
Theorem TestSolverPredictionModel_verdict (device : string)
    (ctx : ExecutionContext) (problem_ : TestProblem) (expected_solver : N)
    (device_architecture : string) :
  let run := TestSolverPredictionModel TestProblem ExecutionContext PredictSolver
               device ctx problem_ expected_solver device_architecture in
  let solvers := PredictSolver problem_ ctx device in
  (run = Skipped ↔ device ≠ device_architecture) ∧
  (run = Passed ↔
   device = device_architecture ∧
   ((solvers = [] ∧ expected_solver = 0%N) ∨
    first_maximum solvers (N.to_nat expected_solver))) ∧
  (run = Passed → solvers ≠ [] → (N.to_nat expected_solver < length solvers)%nat).
Proof.
  simpl. unfold TestSolverPredictionModel.
  assert (∀ l, l ≠ [] → first_maximum l (max_element_distance l)) as Hspec.
  { intros [|v l] Hl; [done|]. apply max_element_distance_first_maximum. }
  destruct (decide (device ≠ device_architecture)) as [Hdev|Hdev].
  { split_and!; [split; auto|split; [done|by intros (? & _)]|done]. }
  apply dec_stable in Hdev.
  set (solvers := PredictSolver problem_ ctx device).
  destruct (decide (N.of_nat (max_element_distance solvers) = expected_solver))
    as [Heq|Hne].
  - split_and!.
    + split; [done|]. by intros ?.
    + split; [|done]. intros _. split; [done|].
      destruct solvers as [|v l] eqn:Hs; [left; split; [done|]; by rewrite <- Heq|].
      right. rewrite <- Heq, Nat2N.id. by apply Hspec.
    + intros _ Hl. rewrite <- Heq, Nat2N.id.
      destruct (Hspec solvers Hl) as (v & Hv & _). by apply lookup_lt_Some in Hv.
  - split_and!.
    + split; [done|]. by intros ?.
    + split; [done|]. intros (_ & [[Hs He]|Hfirst]); destruct Hne.
      * rewrite Hs. simpl. by rewrite He.
      * assert (solvers ≠ []) as Hl.
        { intros Hs. destruct Hfirst as (v & Hv & _). by rewrite Hs in Hv. }
        rewrite (first_maximum_unique _ _ _ (Hspec solvers Hl) Hfirst).
        apply N2Nat.id.
    + done.
Qed.

End Prediction.

(** * The further properties in the concrete setting *)

Section FurtherChecks.
Import Scenario.
#[local] Existing Instance externals.
#[local] Existing Instance collaborators.
#[local] Existing Instance problem_json.

Lemma numerics_checks_witness :
  resolve_arguments forward_problem inputs plain_desc
    = Returned (forward_problem, MkRunInput (Some x_desc) 4096%N,
                MkRunInput (Some w_desc) 8192%N, MkRunInput (Some y_desc) 12288%N) ∧
  (Run forward_solution inputs 0%N 0%N fresh_handle).2 = Returned tt ∧
  ∃ middle,
    new_calls fresh_handle (Run forward_solution inputs 0%N 0%N fresh_handle).1 =
      [call_checkNumericsInput x_desc 4096%N; call_checkNumericsInput w_desc 8192%N] ++
      middle ++ [call_checkNumericsOutput y_desc 12288%N] ∧
    Forall (λ c, is_numerics c = false) middle.
Proof.
  assert (resolve_arguments forward_problem inputs plain_desc
          = Returned (forward_problem, MkRunInput (Some x_desc) 4096%N,
                      MkRunInput (Some w_desc) 8192%N, MkRunInput (Some y_desc) 12288%N))
    as Hres by (vm_compute; reflexivity).
  assert ((Run forward_solution inputs 0%N 0%N fresh_handle).2 = Returned tt) as Hret
    by (vm_compute; reflexivity).
  split; [exact Hres|]. split; [exact Hret|].
  exact (proj2 (proj1 (numerics_checks forward_solution inputs 0%N 0%N fresh_handle
                         forward_problem plain_desc forward_problem
                         (MkRunInput (Some x_desc) 4096%N) (MkRunInput (Some w_desc) 8192%N)
                         (MkRunInput (Some y_desc) 12288%N) x_desc w_desc y_desc
                         eq_refl eq_refl (λ H, N.nlt_0_r _ H) Hres eq_refl eq_refl eq_refl)
                  Hret)).
Defined.

Lemma fused_bound_buffers_witness :
  bind_arguments (buffer_getter inputs) (bindings fused_problem)
    = Returned [4096; 8192; 12288]%N ∧
  Forall2 (binds inputs) (bindings fused_problem) [4096; 8192; 12288]%N.
Proof.
  assert (bind_arguments (buffer_getter inputs) (bindings fused_problem)
          = Returned [4096; 8192; 12288]%N) as Hb by (vm_compute; reflexivity).
  split; [exact Hb|].
  exact (proj1 (proj1 (fused_bound_buffers fused_solution inputs 0%N 0%N fresh_handle
                         fused_problem) _) Hb).
Defined.

Lemma fused_idempotent_caching_witness :
  fused_signature fused_problem = Returned "fusion" ∧
  (Run fused_solution inputs 0%N 0%N fresh_handle).2 = Returned tt ∧
  ∃ inv,
    invokers (Run fused_solution inputs 0%N 0%N fresh_handle).1
      = <[("fusion", "ConvBiasActivAsm1x1U") := inv]> ∅ ∧
    ∀ rs,
      let h2 := Runs rs (Run fused_solution inputs 0%N 0%N fresh_handle).1 in
      Forall (λ c, is_fallback c = false)
        (new_calls h2 (Run fused_solution bare_inputs 5%N 9%N h2).1).
Proof.
  assert (fused_signature fused_problem = Returned "fusion") as Hsig
    by (vm_compute; reflexivity).
  assert ((Run fused_solution inputs 0%N 0%N fresh_handle).2 = Returned tt) as Hret
    by (vm_compute; reflexivity).
  split_and!; [done..|].
  destruct (fused_idempotent_caching fused_solution inputs 0%N 0%N fresh_handle
              fused_problem "fusion" eq_refl Hsig eq_refl Hret)
    as (plan & bs & sol & inv & _ & Hcache & Hlater).
  exists inv. split; [exact Hcache|].
  intros rs. exact (proj1 (Hlater rs bare_inputs 5%N 9%N)).
Defined.

Lemma Run_inserts_at_most_one_witness :
  let res := Run forward_solution inputs 0%N 0%N fresh_handle in
  (invokers res.1 = invokers fresh_handle ∧
   ∀ inv cfg name, call_RegisterInvoker inv cfg name ∉ new_calls fresh_handle res.1) ∨
  (∃ cfg inv,
     invokers fresh_handle !! (cfg, ToString (solver forward_solution)) = None ∧
     invokers res.1
       = <[(cfg, ToString (solver forward_solution)) := inv]> (invokers fresh_handle) ∧
     call_GetInvoker cfg (solver forward_solution) ∈ new_calls fresh_handle res.1 ∧
     call_RegisterInvoker inv cfg (ToString (solver forward_solution))
       ∈ new_calls fresh_handle res.1).
Proof. exact (Run_inserts_at_most_one forward_solution inputs 0%N 0%N fresh_handle). Defined.

Lemma Run_invokes_at_most_once_witness :
  (Run forward_solution inputs 0%N 0%N fresh_handle).2 = Returned tt ∧
  length (filter (λ c, is_invoke c = true)
            (new_calls fresh_handle (Run forward_solution inputs 0%N 0%N fresh_handle).1))
  = 1.
Proof.
  assert ((Run forward_solution inputs 0%N 0%N fresh_handle).2 = Returned tt) as Hret
    by (vm_compute; reflexivity).
  split; [exact Hret|].
  exact (proj1 (proj2 (Run_invokes_at_most_once forward_solution inputs 0%N 0%N
                         fresh_handle)) Hret).
Defined.

Lemma Run_throws_before_lookup_witness :
  Run backward_solution mismatched_inputs 0%N 0%N fresh_handle
    = (fresh_handle, Thrown InvalidShape) ∧
  invokers fresh_handle = invokers fresh_handle ∧
  Forall (λ c, is_numerics c = true) (new_calls fresh_handle fresh_handle).
Proof.
  assert (Run backward_solution mismatched_inputs 0%N 0%N fresh_handle
          = (fresh_handle, Thrown InvalidShape)) as Hr by (vm_compute; reflexivity).
  split; [exact Hr|].
  destruct (Run_throws_before_lookup backward_solution mismatched_inputs 0%N 0%N
              fresh_handle fresh_handle InvalidShape Hr) as (_ & Hi & Hf & _).
  split; [exact Hi|exact Hf].
Defined.

Lemma non_transpose_signature_ignores_inputs_witness :
  mode plain_desc ≠ miopenTranspose ∧
  signature forward_problem inputs plain_desc = Returned "conv0" ∧
  (Run forward_solution inputs 0%N 0%N fresh_handle).2 = Returned tt ∧
  ∀ rs,
    let h2 := Runs rs (Run forward_solution inputs 0%N 0%N fresh_handle).1 in
    Forall (λ c, is_fallback c = false)
      (new_calls h2 (Run forward_solution mismatched_inputs 0%N 0%N h2).1).
Proof.
  assert (mode plain_desc ≠ miopenTranspose) as Hmode by discriminate.
  assert (signature forward_problem inputs plain_desc = Returned "conv0") as Hsig
    by (vm_compute; reflexivity).
  assert ((Run forward_solution inputs 0%N 0%N fresh_handle).2 = Returned tt) as Hret
    by (vm_compute; reflexivity).
  split_and!; [done..|].
  intros rs.
  exact (proj2 (proj2 (non_transpose_signature_ignores_inputs forward_solution
                         forward_problem plain_desc eq_refl eq_refl Hmode))
           inputs 0%N 0%N fresh_handle "conv0" Hsig eq_refl Hret
           rs mismatched_inputs 0%N 0%N).
Defined.

Lemma cached_invoker_is_shared_witness :
  perf_cfg tuned_solution ≠ perf_cfg forward_solution ∧
  signature forward_problem inputs plain_desc = Returned "conv0" ∧
  (Run forward_solution inputs 0%N 0%N fresh_handle).2 = Returned tt ∧
  ∀ rs,
    let h2 := Runs rs (Run forward_solution inputs 0%N 0%N fresh_handle).1 in
    Forall (λ c, is_fallback c = false)
      (new_calls h2 (Run tuned_solution inputs 0%N 0%N h2).1).
Proof.
  assert (signature forward_problem inputs plain_desc = Returned "conv0") as Hsig
    by (vm_compute; reflexivity).
  assert ((Run forward_solution inputs 0%N 0%N fresh_handle).2 = Returned tt) as Hret
    by (vm_compute; reflexivity).
  split; [discriminate|]. split_and!; [done..|].
  destruct (cached_invoker_is_shared forward_solution tuned_solution inputs inputs
              0%N 0%N fresh_handle forward_problem forward_problem plain_desc plain_desc
              "conv0" eq_refl eq_refl Hsig eq_refl Hret eq_refl eq_refl Hsig eq_refl)
    as (inv & _ & Hlater).
  intros rs. exact (proj1 (Hlater rs 0%N 0%N)).
Defined.


Lemma LogDriverCommand_convolution_witness :
  LogDriverCommand solver_value log_convolution log_problem registered_solution []
    = ([LogCmdConvolution x_desc w_desc plain_desc y_desc miopenProblemDirectionForward
          (Some 18%N)], Returned tt) ∧
  (∃ e, LogDriverCommand solver_value log_convolution log_problem forward_solution []
        = ([], Thrown e) ∧ MissingArgument e) ∧
  (Run forward_solution inputs 0%N 0%N fresh_handle).2 = Returned tt.
Proof.
  split_and!.
  - apply (proj1 (@LogDriverCommand_convolution externals solver_value log_convolution
                    log_problem registered_solution registered_problem plain_desc []
                    eq_refl eq_refl));
      vm_compute; reflexivity.
  - apply (proj1 (proj2 (@LogDriverCommand_convolution externals solver_value
                           log_convolution log_problem forward_solution
                           forward_problem plain_desc [] eq_refl eq_refl))).
    left. reflexivity.
  - vm_compute. reflexivity.
Defined.

Lemma LogDriverCommand_at_most_one_witness :
  LogDriverCommand solver_value log_convolution log_problem fused_solution []
    = ([], Returned tt) ∧
  LogDriverCommand solver_value log_convolution log_problem activation_solution []
    = ([Problem_LogDriverCommand activation_problem],
       Propagated (collaborator_exception (MkException miopenStatusNotImplemented ""))).
Proof.
  destruct (@LogDriverCommand_at_most_one externals solver_value log_convolution
              log_problem fused_solution [])
    as (_ & Hfused & _).
  destruct (@LogDriverCommand_at_most_one externals solver_value log_convolution
              log_problem activation_solution [])
    as (_ & _ & _ & Hact).
  split; [exact (Hfused fused_problem eq_refl)
         |exact (Hact activation_problem tt eq_refl eq_refl)].
Defined.

Lemma metadata_roundtrip_witness :
  from_json_metadata (to_json_metadata current) = Returned current ∧
  ∃ id, from_json_metadata (Jobject ∅) = Propagated (json_exception id).
Proof.
  split; [exact (proj1 metadata_roundtrip current)|].
  apply (proj1 (proj2 (proj2 metadata_roundtrip))). left. reflexivity.
Defined.

Lemma to_json_record_shape_witness :
  ∃ m : gmap string json,
    to_json current tuned_solution = Jobject m ∧
    dom m = ({["header"; "time"; "workspace"; "solver"; "problem"]} : gset string)
            ∪ {["perf_cfg"]} ∧
    check_header current (to_json current tuned_solution) = Returned tt.
Proof.
  destruct (to_json_record_shape current tuned_solution)
    as (m & Hm & Hdom & _ & _ & _ & _ & Hh).
  exists m. split; [exact Hm|]. split; [exact Hdom|exact Hh].
Defined.

Lemma from_json_assigns_in_order_witness :
  check_header current time_only_record = Returned tt ∧
  (from_json current time_only_record forward_solution).1 = set_time 9%Z forward_solution ∧
  (from_json current time_only_record forward_solution).2 ≠ Returned tt.
Proof.
  assert (check_header current time_only_record = Returned tt) as Hh
    by (vm_compute; reflexivity).
  split; [exact Hh|].
  apply (proj1 (proj2 (from_json_assigns_in_order current time_only_record
                         forward_solution Hh)) 9%Z).
  - vm_compute. reflexivity.
  - intros w Hw. vm_compute in Hw. discriminate Hw.
Defined.

Lemma from_json_returned_witness :
  from_json current (to_json current tuned_solution) activation_solution
    = ((from_json current (to_json current tuned_solution) activation_solution).1,
       Returned tt) ∧
  json_find (to_json current tuned_solution) "perf_cfg" = Some (Jstring "tuned") ∧
  ∃ c, Jstring "tuned" = Jstring c ∧
       perf_cfg (from_json current (to_json current tuned_solution) activation_solution).1
       = Some c.
Proof.
  assert (from_json current (to_json current tuned_solution) activation_solution
          = ((from_json current (to_json current tuned_solution) activation_solution).1,
             Returned tt)) as Hr by (vm_compute; reflexivity).
  assert (json_find (to_json current tuned_solution) "perf_cfg" = Some (Jstring "tuned"))
    as Hf by (vm_compute; reflexivity).
  split; [exact Hr|]. split; [exact Hf|].
  destruct (from_json_returned current _ _ _ Hr) as (_ & _ & _ & _ & _ & Hp).
  rewrite Hf in Hp. exact Hp.
Defined.

Lemma TestSolverPredictionModel_verdict_witness :
  TestSolverPredictionModel unit unit scores "gfx908" tt tt 1%N "gfx908" = Passed ∧
  first_maximum (scores tt tt "gfx908") 1.
Proof.
  assert (TestSolverPredictionModel unit unit scores "gfx908" tt tt 1%N "gfx908"
          = Passed) as Hp by (vm_compute; reflexivity).
  split; [exact Hp|].
  destruct (proj1 (proj1 (proj2 (TestSolverPredictionModel_verdict unit unit scores
                                   "gfx908" tt tt 1%N "gfx908"))) Hp)
    as (_ & [[Hs _]|Hf]); [discriminate Hs|exact Hf].
Defined.

End FurtherChecks.
